(** * Fish auction prototype: auction engine and settlement calculator

    A shallow embedding of [src/lib/auction-utils.ts] and
    [src/lib/money-utils.ts] together with the properties the specification
    states about them.

    The TypeScript code computes with ECMAScript [number]s, which are IEEE 754
    binary64 values.  They are embedded as Rocq's primitive [float]s, which
    are binary64 as well: [x * y], [x / y], [x - y], [x <? y] below are the
    very operations the JavaScript engine performs, and every definition in
    this file evaluates on concrete inputs.  Universal statements go through
    the Standard Library's specification of the primitive operations
    ([FloatAxioms], [SpecFloat]).

    The built-ins the two modules call ([Math.round], [Math.floor],
    [Math.max], [%], [Number.isInteger], [toFixed], the conversion of a
    number to a string, [parseFloat], [Array.prototype.sort],
    [String.prototype.replace] with the pattern of the source) are modelled
    in the first part after their ECMAScript definitions.  The current time
    read by [new Date()] is an explicit argument [now]. *)

From Stdlib Require Import ZArith Floats Lia List Bool String Ascii Permutation.
Import ListNotations.

Set Warnings "-inexact-float".

Local Open Scope float_scope.

(* ===================================================================== *)
(** * Part I.  ECMAScript built-ins                                       *)
(* ===================================================================== *)

(** ** Numbers *)

Definition number := float.

(** [isNaN x] *)
Definition isNaN (x : number) : bool := negb (x =? x).

(** The relational operators of the language on numbers.  [a >= b] and
    [a > b] are IEEE comparisons: false as soon as an operand is NaN. *)
Definition num_lt (a b : number) : bool := a <? b.
Definition num_le (a b : number) : bool := a <=? b.
Definition num_gt (a b : number) : bool := b <? a.
Definition num_ge (a b : number) : bool := b <=? a.

(** [a !== b] on numbers: NaN differs from everything, [+0] and [-0] are
    equal. *)
Definition num_strict_ne (a b : number) : bool := negb (a =? b).

(** The number with the integer value [n], rounded to nearest even when [n]
    needs more than 53 bits. *)
Definition number_of_Z (n : Z) : number :=
  SF2Prim (binary_normalize prec emax n 0 false).

Definition number_of_nat (n : nat) : number := number_of_Z (Z.of_nat n).

(** The number nearest to [m * 2^e] (ties to even), for integers [m], [e]. *)
Definition number_of_scaled (m e : Z) : number :=
  SF2Prim (binary_normalize prec emax m e false).

(** [Number.isInteger(x)]: [x] is finite and has no fractional part. *)
Definition Number_isInteger (x : number) : bool :=
  match Prim2SF x with
  | S754_zero _ => true
  | S754_finite _ m e => (0 <=? e)%Z || (Zpos m mod 2 ^ (- e) =? 0)%Z
  | S754_infinity _ | S754_nan => false
  end.

(** [Math.round(x)]: the integer nearest to [x], a tie going to the larger
    integer; NaN, the infinities and the zeros are returned unchanged; a
    negative [x] that rounds to zero gives [-0].  A finite [x] is
    [v * 2^e] for integers [v] and [e], and [floor (x + 1/2)] is computed on
    integers, without a floating-point addition. *)
Definition Math_round (x : number) : number :=
  match Prim2SF x with
  | S754_finite s m e =>
      if (0 <=? e)%Z then x
      else
        let v := cond_Zopp s (Zpos m) in
        let n := ((2 * v + 2 ^ (- e)) / 2 ^ (1 - e))%Z in
        if (n =? 0)%Z then (if s then PrimFloat.neg_zero else PrimFloat.zero) else number_of_Z n
  | _ => x
  end.

(** [Math.max(a, b)]: NaN when an argument is NaN; [+0] is larger than
    [-0]. *)
Definition Math_max (a b : number) : number :=
  if isNaN a || isNaN b then nan
  else if a <? b then b
  else if b <? a then a
  else if get_sign a then b else a.

(** [Math.floor(x)]: the largest integer that is not above [x]; NaN, the
    infinities and the zeros are returned unchanged.  A finite [x] with a
    fractional part is [v * 2^e] for integers [v] and [e < 0], and its
    floor is the quotient of [v] by [2^-e], rounded down. *)
Definition Math_floor (x : number) : number :=
  match Prim2SF x with
  | S754_finite s m e =>
      if (0 <=? e)%Z then x
      else
        let v := cond_Zopp s (Zpos m) in
        let n := (v / 2 ^ (- e))%Z in
        if (n =? 0)%Z then PrimFloat.zero else number_of_Z n
  | _ => x
  end.

(** [n % d]: NaN when an operand is NaN, [n] is infinite or [d] is zero; [n]
    when [d] is infinite or [n] is zero; otherwise [n - d * q] for the
    integer [q] that is [n / d] truncated towards zero.  That remainder is
    computed exactly, has the sign of [n], and is [-0] when it is zero and
    [n] is negative. *)
Definition Number_remainder (n d : number) : number :=
  match Prim2SF n, Prim2SF d with
  | S754_nan, _ | _, S754_nan => nan
  | S754_infinity _, _ => nan
  | _, S754_zero _ => nan
  | _, S754_infinity _ => n
  | S754_zero _, _ => n
  | S754_finite sn mn en, S754_finite _ md ed =>
      let e := Z.min en ed in
      let N := (Zpos mn * 2 ^ (en - e))%Z in
      let D := (Zpos md * 2 ^ (ed - e))%Z in
      let r := (N mod D)%Z in
      if (r =? 0)%Z then (if sn then PrimFloat.neg_zero else PrimFloat.zero)
      else number_of_scaled (cond_Zopp sn r) e
  end.

(** ** Strings

    A string is a sequence of UTF-16 code units. *)

Definition jschar := N.
Definition jsstring := list jschar.

(** The string with the code units of an ASCII literal. *)
Definition str (s : string) : jsstring :=
  List.map N_of_ascii (list_ascii_of_string s).

Definition jsstring_eqb (a b : jsstring) : bool :=
  if list_eq_dec N.eq_dec a b then true else false.

(** The decimal digits of a non-negative integer, most significant first. *)
Fixpoint digits_of_Z_aux (fuel : nat) (n : Z) (acc : jsstring) : jsstring :=
  match fuel with
  | O => acc
  | S fuel' =>
      let acc' := (48 + Z.to_N (n mod 10))%N :: acc in
      if (n / 10 =? 0)%Z then acc' else digits_of_Z_aux fuel' (n / 10) acc'
  end.

Definition digits_of_Z (n : Z) : jsstring :=
  digits_of_Z_aux (S (Z.to_nat (Z.log2 n))) n [].

Definition zeros (k : nat) : jsstring := List.repeat 48%N k.

(** [n] written with [f] digits after the point: the digits of [n], padded
    on the left with zeros to [f + 1] digits, and a point before the last
    [f] digits (no point when [f] is 0). *)
Definition fixed_digits (f : nat) (n : Z) : jsstring :=
  let d := digits_of_Z n in
  let d := zeros (S f - List.length d) ++ d in
  let k := (List.length d - f)%nat in
  match f with
  | O => d
  | _ => List.firstn k d ++ str "." ++ List.skipn k d
  end.

Fixpoint strip_trailing_zeros_rev (l : jsstring) : jsstring :=
  match l with
  | 48%N :: l' => strip_trailing_zeros_rev l'
  | _ => l
  end.

(** The shortest decimal integer [n * 10^p] that rounds to the number [x],
    searched by increasing number of digits [k]; [X] is the exact value of
    [x], with [nd] decimal digits. *)
Fixpoint shortest_repr (fuel : nat) (k : Z) (x : number) (X nd : Z) : Z :=
  match fuel with
  | O => X
  | S fuel' =>
      let p := (10 ^ (nd - k))%Z in
      let q := (X / p)%Z in
      let r := (X mod p)%Z in
      let n := if (2 * r <? p)%Z then q
               else if (p <? 2 * r)%Z then (q + 1)%Z
               else if Z.even q then q else (q + 1)%Z in
      if (number_of_Z (n * p) =? x) then (n * p)%Z
      else shortest_repr fuel' (k + 1)%Z x X nd
  end.

(** [Number::toString(x)] for a finite [x] of magnitude at least [1e21]
    (exponent notation) and for the values that are not finite. *)
Definition Number_toString_large (x : number) : jsstring :=
  match Prim2SF x with
  | S754_nan => str "NaN"
  | S754_infinity s => if s then str "-Infinity" else str "Infinity"
  | S754_zero _ => str "0"
  | S754_finite s m e =>
      let X := (Zpos m * 2 ^ e)%Z in
      let nd := Z.of_nat (List.length (digits_of_Z X)) in
      let V := shortest_repr 17 1 (abs x) X nd in
      let dv := digits_of_Z V in
      let sig := List.rev (strip_trailing_zeros_rev (List.rev dv)) in
      let ex := digits_of_Z (Z.of_nat (List.length dv) - 1) in
      (if s then str "-" else [])
        ++ List.firstn 1 sig
        ++ (match List.skipn 1 sig with [] => [] | rest => str "." ++ rest end)
        ++ str "e+" ++ ex
  end.

(** [x.toFixed(f)]: for a finite [x] below [1e21] in magnitude, the integer
    [n] nearest to [|x| * 10^f] (the larger one on a tie) written with [f]
    digits after the point, preceded by the sign when [x < 0]. *)
Definition Number_toFixed (f : nat) (x : number) : jsstring :=
  match Prim2SF x with
  | S754_zero _ => fixed_digits f 0
  | S754_finite s m e =>
      if 1e21 <=? abs x then Number_toString_large x
      else
        let t := (Zpos m * 10 ^ Z.of_nat f)%Z in
        let n := if (0 <=? e)%Z then (t * 2 ^ e)%Z
                 else ((2 * t + 2 ^ (- e)) / 2 ^ (1 - e))%Z in
        (if s then str "-" else []) ++ fixed_digits f n
  | _ => Number_toString_large x
  end.

(** ** [parseFloat] and the regular expression of [parseMoneyString] *)

Definition is_digit (c : jschar) : bool := ((48 <=? c) && (c <=? 57))%N.

(** White space and line terminators: the class [\s] of regular expressions,
    which is also what [parseFloat] skips at the start of its argument. *)
Definition is_whitespace (c : jschar) : bool :=
  ((9 <=? c) && (c <=? 13) || (c =? 32) || (c =? 160) || (c =? 5760)
   || (8192 <=? c) && (c <=? 8202) || (c =? 8232) || (c =? 8233)
   || (c =? 8239) || (c =? 8287) || (c =? 12288) || (c =? 65279))%N.

(** The peso sign, U+20B1. *)
Definition peso_sign : jschar := 8369%N.
Definition comma : jschar := 44%N.

(** [s.replace(/[₱,\s]/g, '')]: every code unit of the class is removed. *)
Definition in_strip_class (c : jschar) : bool :=
  (c =? peso_sign)%N || (c =? comma)%N || is_whitespace c.

Definition strip_money_chars (s : jsstring) : jsstring :=
  List.filter (fun c => negb (in_strip_class c)) s.

(** The longest prefix of decimal digits, and what follows it. *)
Fixpoint span_digits (s : jsstring) : jsstring * jsstring :=
  match s with
  | c :: s' =>
      if is_digit c then let (d, r) := span_digits s' in (c :: d, r)
      else ([], s)
  | [] => ([], [])
  end.

Fixpoint skip_whitespace (s : jsstring) : jsstring :=
  match s with
  | c :: s' => if is_whitespace c then skip_whitespace s' else s
  | [] => []
  end.

(** The value of a string of decimal digits. *)
Definition Z_of_digits (d : jsstring) : Z :=
  List.fold_left (fun acc c => (10 * acc + (Z.of_N c - 48))%Z) d 0%Z.

(** The number nearest to [m * 10^e] (ties to even), [0 <= m].  For a
    negative [e] the quotient [m / 10^-e] is computed with more than 64
    bits, and a last bit records whether it is inexact, so that the final
    rounding to 53 bits is the rounding of the exact quotient. *)
Definition number_of_decimal (m e : Z) : number :=
  if (m =? 0)%Z then PrimFloat.zero
  else if (0 <=? e)%Z then number_of_Z (m * 10 ^ e)
  else
    let d := (10 ^ (- e))%Z in
    let s := Z.max 0 (Z.log2 d + 66 - Z.log2 m) in
    let q := ((m * 2 ^ s) / d)%Z in
    let r := ((m * 2 ^ s) mod d)%Z in
    number_of_scaled (2 * q + (if (r =? 0)%Z then 0 else 1)) (- (s + 1)).

(** An optional exponent part [e|E [+|-] digits]: its value and the rest of
    the string; the exponent is not consumed when no digit follows. *)
Definition parse_exponent (s : jsstring) : Z * jsstring :=
  match s with
  | c :: s1 =>
      if ((c =? 101) || (c =? 69))%N then
        let '(neg, s2) :=
          match s1 with
          | 43%N :: s2 => (false, s2)
          | 45%N :: s2 => (true, s2)
          | _ => (false, s1)
          end in
        match span_digits s2 with
        | ([], _) => (0%Z, s)
        | (d, rest) => (cond_Zopp neg (Z_of_digits d), rest)
        end
      else (0%Z, s)
  | [] => (0%Z, s)
  end.

(** The longest prefix of [s] that is an unsigned decimal literal
    ([Infinity], [digits], [digits.], [digits.digits], [.digits], each but
    the first with an optional exponent): its value and the rest of [s]. *)
Definition parse_unsigned (s : jsstring) : option (number * jsstring) :=
  if jsstring_eqb (List.firstn 8 s) (str "Infinity")
  then Some (infinity, List.skipn 8 s)
  else
    let (ip, s1) := span_digits s in
    let '(fp, s2, dot) :=
      match s1 with
      | 46%N :: s1' => let (fp, s2) := span_digits s1' in (fp, s2, true)
      | _ => ([], s1, false)
      end in
    match ip, fp with
    | [], [] => None
    | _, _ =>
        let '(ex, rest) := parse_exponent s2 in
        Some (number_of_decimal (Z_of_digits (ip ++ fp))
                (ex - Z.of_nat (List.length fp)), rest)
    end.

(** The longest prefix that is a signed decimal literal. *)
Definition parse_decimal_literal (s : jsstring) : option (number * jsstring) :=
  match s with
  | 43%N :: s' => parse_unsigned s'
  | 45%N :: s' =>
      match parse_unsigned s' with
      | Some (v, rest) => Some (- v, rest)
      | None => None
      end
  | _ => parse_unsigned s
  end.

(** [parseFloat(s)]: leading white space is skipped, the longest prefix that
    is a decimal literal is converted, and whatever follows it is ignored;
    NaN when no prefix is a decimal literal. *)
Definition parseFloat (s : jsstring) : number :=
  match parse_decimal_literal (skip_whitespace s) with
  | Some (v, _) => v
  | None => nan
  end.

(** ** The text of a number *)

(** The digits of [Number::toString]: integers [s] and [p] with
    [s * 10^p] converting to the number [x], [s] having as few digits [k]
    as possible and, among those, [s * 10^p] as close to [x] as possible
    (the even [s] on a tie).  [x] is [X / D] exactly and [n] is its decimal
    exponent, [10^(n-1) <= x < 10^n].  For each [k] in turn the two
    [k]-digit candidates around [x] are tried; seventeen digits always
    suffice. *)
Fixpoint shortest_digits (fuel : nat) (k : Z) (x : number) (X D n : Z)
    : Z * Z :=
  let p := (n - k)%Z in
  let num := (if 0 <=? p then X else X * 10 ^ (- p))%Z in
  let den := (if 0 <=? p then D * 10 ^ p else D)%Z in
  let lo := (num / den)%Z in
  let r := (num mod den)%Z in
  let hi := (lo + 1)%Z in
  match fuel with
  | O => (lo, p)
  | S fuel' =>
      if (r =? 0)%Z then (lo, p)
      else
        let lo_ok := number_of_decimal lo p =? x in
        let hi_ok := number_of_decimal hi p =? x in
        if lo_ok && hi_ok then
          if (2 * r <? den)%Z then (lo, p)
          else if (den <? 2 * r)%Z then (hi, p)
          else if Z.even lo then (lo, p) else (hi, p)
        else if lo_ok then (lo, p)
        else if hi_ok then (hi, p)
        else shortest_digits fuel' (k + 1)%Z x X D n
  end.

(** [Number::toString(x)], the conversion a template literal applies to a
    number: "NaN", "0" for both zeros, "Infinity", a minus sign for a
    negative number; for the digits [sig] (there are [k]) and the decimal
    exponent [n] of a finite number, plain decimal notation when
    [-6 < n <= 21] and exponent notation otherwise. *)
Definition Number_toString (x : number) : jsstring :=
  match Prim2SF x with
  | S754_nan => str "NaN"
  | S754_zero _ => str "0"
  | S754_infinity s => (if s then str "-" else []) ++ str "Infinity"
  | S754_finite s m e =>
      let X := (Zpos m * 2 ^ Z.max e 0)%Z in
      let D := (2 ^ Z.max (- e) 0)%Z in
      let n0 :=
        (if D <=? X then Z.of_nat (List.length (digits_of_Z (X / D)))
         else 1 - Z.of_nat (List.length (digits_of_Z ((D - 1) / X))))%Z in
      let '(sv, p) := shortest_digits 17 1 (abs x) X D n0 in
      let ds := digits_of_Z sv in
      let n := (p + Z.of_nat (List.length ds))%Z in
      let sig := List.rev (strip_trailing_zeros_rev (List.rev ds)) in
      let k := Z.of_nat (List.length sig) in
      (if s then str "-" else []) ++
      (if ((-6 <? n) && (n <=? 21))%Z then
         if (k <=? n)%Z then sig ++ zeros (Z.to_nat (n - k))
         else if (0 <? n)%Z then
           List.firstn (Z.to_nat n) sig ++ str "." ++ List.skipn (Z.to_nat n) sig
         else str "0." ++ zeros (Z.to_nat (- n)) ++ sig
       else
         let c := (if 1 <=? n then str "+" else str "-")%Z in
         let ed := digits_of_Z (Z.abs (n - 1)) in
         match List.skipn 1 sig with
         | [] => sig ++ str "e" ++ c ++ ed
         | rest => List.firstn 1 sig ++ str "." ++ rest ++ str "e" ++ c ++ ed
         end)
  end.

(** ** [Array.prototype.sort]

    The sort is stable, and the comparator's result [v] orders [x] after [y]
    when [v > 0] (a NaN result counts as [0]).  For a consistent comparator
    every stable sort returns the same array; the insertion sort below is
    one. *)

Section Sort.
Context {A : Type}.
Variable compareFn : A -> A -> number.

Fixpoint sort_insert (x : A) (l : list A) : list A :=
  match l with
  | [] => [x]
  | y :: l' =>
      if 0 <? compareFn x y then y :: sort_insert x l' else x :: y :: l'
  end.

Definition Array_sort (l : list A) : list A :=
  List.fold_right sort_insert [] l.
End Sort.

(** ** Completions: a call returns a value or throws an [Error]. *)

Inductive completion (A : Type) : Type :=
  | Return (v : A)
  | Throw (message : jsstring).
Arguments Return {A} v.
Arguments Throw {A} message.

(* ===================================================================== *)
(** * Part II.  [money-utils.ts]                                          *)
(* ===================================================================== *)

Definition pesosTocentavos (pesos : number) : number :=
  Math_round (pesos * 100).

Definition centavosToPesos (centavos : number) : number :=
  centavos / 100.

Definition calculateCommission (grossAmountCents : number) : number :=
  let commissionCents := Math_round (grossAmountCents * 0.06) in
  commissionCents.

Definition calculateLaborFee : number :=
  let laborFeeCents := 2500 in
  laborFeeCents.

(** An omitted optional argument is [None]; [a ?? b] is [b] exactly then. *)
Definition calculateNetAmount (winningBidCents : number)
    (commissionCents laborFeeCents : option number) : number :=
  let commission :=
    match commissionCents with
    | Some c => c
    | None => Math_round (winningBidCents * 0.06)
    end in
  let labor := match laborFeeCents with Some l => l | None => 2500 end in
  let netToSupplierCents := winningBidCents - commission - labor in
  netToSupplierCents.

Definition calculateLotValue (weightKg pricePerKgCents : number) : number :=
  Math_round (weightKg * pricePerKgCents).

Record Settlement : Type := mkSettlement {
  grossAmount : number;
  commissionCents : number;
  laborFeeCents : number;
  netToSupplierCents : number;
  commissionRate : number;
  laborFeeFixed : number
}.

Definition calculateSettlement (winningBidCents : number) : Settlement :=
  let commissionCents := Math_round (winningBidCents * 0.06) in
  let laborFeeCents := 2500 in
  let netToSupplierCents := winningBidCents - commissionCents - laborFeeCents in
  {| grossAmount := winningBidCents;
     commissionCents := commissionCents;
     laborFeeCents := laborFeeCents;
     netToSupplierCents := netToSupplierCents;
     commissionRate := 0.06;
     laborFeeFixed := 25.00 |}.

Definition parseMoneyString (moneyString : jsstring) : completion number :=
  let cleanString := strip_money_chars moneyString in
  let pesos := parseFloat cleanString in
  if isNaN pesos then Throw (str "Invalid money format")
  else Return (pesosTocentavos pesos).

Definition isValidMoneyAmount (centavos : number) : bool :=
  Number_isInteger centavos && (0 <=? centavos).

(** [amounts.reduce((sum, amount) => sum + amount, 0)] *)
Definition addMoney (amounts : list number) : number :=
  List.fold_left (fun sum amount => sum + amount) amounts 0.

(** [subtrahends.reduce((result, amount) => result - amount, minuend)] *)
Definition subtractMoney (minuend : number) (subtrahends : list number)
    : number :=
  List.fold_left (fun result amount => result - amount) subtrahends minuend.

(* ===================================================================== *)
(** * Part III.  [auction-utils.ts]                                       *)
(* ===================================================================== *)

Inductive AuctionStatus : Type := open | closed.

Definition AuctionStatus_eqb (a b : AuctionStatus) : bool :=
  match a, b with
  | open, open | closed, closed => true
  | _, _ => false
  end.

(** A [Date] is its time value: milliseconds since the epoch, NaN for an
    invalid date.  Comparing two dates with [>=] or [<=] compares their time
    values. *)
Record Date : Type := mkDate { getTime : number }.

Definition Date_ge (a b : Date) : bool := num_ge (getTime a) (getTime b).
Definition Date_le (a b : Date) : bool := num_le (getTime a) (getTime b).
Definition Date_gt (a b : Date) : bool := num_gt (getTime a) (getTime b).

Record Bid : Type := mkBid {
  id : jsstring;
  bid_lotId : jsstring;
  buyerId : jsstring;
  bidAmountCents : number;
  timestamp : Date;
  isWinning : option bool
}.

Record AuctionState : Type := mkAuctionState {
  lotId : jsstring;
  status : AuctionStatus;
  startTime : Date;
  endTime : Date;
  minimumBidCents : number;
  bidIncrementCents : number;
  currentHighestBidCents : number;
  totalBids : number;
  bids : list Bid
}.

Definition isAuctionActive (now : Date) (auction : AuctionState) : bool :=
  AuctionStatus_eqb (status auction) open
  && Date_ge now (startTime auction)
  && Date_le now (endTime auction).

Definition hasAuctionEnded (now : Date) (auction : AuctionState) : bool :=
  Date_gt now (endTime auction).

Definition canStartAuction (now : Date) (auction : AuctionState) : bool :=
  AuctionStatus_eqb (status auction) closed
  && Date_ge now (startTime auction).

(** The result of [validateBid]: [{ success: boolean; error?: string }]. *)
Record ValidationResult : Type := mkValidation {
  success : bool;
  error : option jsstring
}.

Definition msg_not_active : jsstring := str "Auction is not currently active".

Definition msg_at_least (cents : number) : jsstring :=
  str "Bid must be at least $" ++ Number_toFixed 2 (cents / 100).

Definition msg_below_minimum (minimumBidCents : number) : jsstring :=
  msg_at_least minimumBidCents.

Definition msg_below_increment (requiredMinimum : number) : jsstring :=
  msg_at_least requiredMinimum ++ str " (current high + increment)".

Definition msg_invalid_amount : jsstring := str "Invalid bid amount".

Definition validateBid (now : Date) (auction : AuctionState)
    (bidAmountCents : number) : ValidationResult :=
  if negb (isAuctionActive now auction) then
    {| success := false; error := Some msg_not_active |}
  else if num_lt bidAmountCents (minimumBidCents auction) then
    {| success := false;
       error := Some (msg_below_minimum (minimumBidCents auction)) |}
  else
    let requiredMinimum :=
      currentHighestBidCents auction + bidIncrementCents auction in
    if num_lt bidAmountCents requiredMinimum then
      {| success := false;
         error := Some (msg_below_increment requiredMinimum) |}
    else if negb (Number_isInteger bidAmountCents)
            || num_le bidAmountCents 0 then
      {| success := false; error := Some msg_invalid_amount |}
    else {| success := true; error := None |}.

Definition getNextMinimumBid (auction : AuctionState) : number :=
  if currentHighestBidCents auction =? 0 then minimumBidCents auction
  else currentHighestBidCents auction + bidIncrementCents auction.

(** The comparator of [getWinningBid]: amount, highest first; then time
    stamp, earliest first. *)
Definition compareBids (a b : Bid) : number :=
  if num_strict_ne (bidAmountCents a) (bidAmountCents b) then
    bidAmountCents b - bidAmountCents a
  else getTime (timestamp a) - getTime (timestamp b).

Definition getWinningBid (auction : AuctionState) : option Bid :=
  match bids auction with
  | [] => None
  | _ =>
      let sortedBids := Array_sort compareBids (bids auction) in
      List.nth_error sortedBids 0
  end.

Record ClosureResult : Type := mkClosure {
  closure_success : bool;
  winningBid : option Bid;
  finalStatus : AuctionStatus;
  closure_totalBids : number;
  closure_error : option jsstring
}.

Definition msg_already_closed : jsstring := str "Auction is already closed".

Definition closeAuction (auction : AuctionState) : ClosureResult :=
  if AuctionStatus_eqb (status auction) closed then
    {| closure_success := false;
       winningBid := None;
       finalStatus := closed;
       closure_totalBids := totalBids auction;
       closure_error := Some msg_already_closed |}
  else
    let winningBid := getWinningBid auction in
    {| closure_success := true;
       winningBid := winningBid;
       finalStatus := closed;
       closure_totalBids := number_of_nat (List.length (bids auction));
       closure_error := None |}.

(** [new Error(m)] with [m] undefined has the empty message. *)
Definition error_message (m : option jsstring) : jsstring :=
  match m with Some s => s | None => [] end.

Definition addBidToAuction (now : Date) (auction : AuctionState) (bid : Bid)
    : completion AuctionState :=
  let validation := validateBid now auction (bidAmountCents bid) in
  if negb (success validation) then Throw (error_message (error validation))
  else
    let updatedBids := bids auction ++ [bid] in
    let newHighestBid :=
      Math_max (currentHighestBidCents auction) (bidAmountCents bid) in
    Return
      {| lotId := lotId auction;
         status := status auction;
         startTime := startTime auction;
         endTime := endTime auction;
         minimumBidCents := minimumBidCents auction;
         bidIncrementCents := bidIncrementCents auction;
         currentHighestBidCents := newHighestBid;
         totalBids := number_of_nat (List.length updatedBids);
         bids := updatedBids |}.

Definition getAuctionDuration (startTime endTime : Date) : number :=
  Math_floor ((getTime endTime - getTime startTime) / (1000 * 60)).

Definition getTimeRemaining (now : Date) (auction : AuctionState) : number :=
  getTime (endTime auction) - getTime now.

Definition formatTimeRemaining (milliseconds : number) : jsstring :=
  if num_le milliseconds 0 then str "ENDED"
  else
    let totalSeconds := Math_floor (milliseconds / 1000) in
    let hours := Math_floor (totalSeconds / 3600) in
    let minutes := Math_floor (Number_remainder totalSeconds 3600 / 60) in
    let seconds := Number_remainder totalSeconds 60 in
    if num_gt hours 0 then
      Number_toString hours ++ str "h " ++ Number_toString minutes
        ++ str "m " ++ Number_toString seconds ++ str "s"
    else if num_gt minutes 0 then
      Number_toString minutes ++ str "m " ++ Number_toString seconds ++ str "s"
    else Number_toString seconds ++ str "s".

(* ===================================================================== *)
(** * Part IV.  Definitions used by the statements                        *)
(* ===================================================================== *)

(** ** The order of numbers

    Every finite binary64 number is an integer multiple of [2^-1074].
    [SFord] is that integer: an exact, order-preserving image of the
    numbers in [Z], with the infinities placed beyond every finite value.
    Comparisons of numbers are comparisons of these integers. *)

Definition SFord (x : spec_float) : Z :=
  match x with
  | S754_zero _ | S754_nan => 0
  | S754_infinity s => cond_Zopp s (2 ^ 2200)
  | S754_finite s m e => cond_Zopp s (Zpos m * 2 ^ (e + 1074))
  end.

Definition SFis_nan (x : spec_float) : bool :=
  match x with S754_nan => true | _ => false end.

Definition ord (x : number) : Z := SFord (Prim2SF x).

(** ** [validateBid] as the specification words it

    Four checks in order; the result is the reason of the first one that
    fails. *)

Definition check_active (now : Date) (auction : AuctionState) : bool :=
  isAuctionActive now auction.

Definition check_minimum (auction : AuctionState) (amount : number) : bool :=
  num_ge amount (minimumBidCents auction).

Definition check_increment (auction : AuctionState) (amount : number) : bool :=
  num_ge amount (currentHighestBidCents auction + bidIncrementCents auction).

Definition check_positive_integer (amount : number) : bool :=
  Number_isInteger amount && num_gt amount 0.

Definition reject (reason : jsstring) : ValidationResult :=
  {| success := false; error := Some reason |}.

Definition accept : ValidationResult := {| success := true; error := None |}.

Definition first_failing_check (now : Date) (auction : AuctionState)
    (amount : number) : ValidationResult :=
  if negb (check_active now auction) then reject msg_not_active
  else if negb (check_minimum auction amount) then
    reject (msg_below_minimum (minimumBidCents auction))
  else if negb (check_increment auction amount) then
    reject (msg_below_increment
              (currentHighestBidCents auction + bidIncrementCents auction))
  else if negb (check_positive_integer amount) then reject msg_invalid_amount
  else accept.

(** ** The invariants of an auction state *)

(** [m] is the highest amount among the bids [l], or 0 when there is none. *)
Definition is_highest_amount (l : list Bid) (m : number) : Prop :=
  match l with
  | [] => (m =? 0) = true
  | _ =>
      (exists b, In b l /\ (bidAmountCents b =? m) = true)
      /\ (forall b, In b l -> (bidAmountCents b <=? m) = true)
  end.

Definition AuctionState_invariant (auction : AuctionState) : Prop :=
  is_highest_amount (bids auction) (currentHighestBidCents auction)
  /\ totalBids auction = number_of_nat (List.length (bids auction)).

(** ** Bids that can be compared *)

(** Amount and time stamp of a bid are numbers (not NaN).  When this holds
    of every bid, the comparator of [getWinningBid] is a consistent
    comparator. *)
Definition comparable (b : Bid) : Prop :=
  isNaN (bidAmountCents b) = false /\ isNaN (getTime (timestamp b)) = false.

Definition comparable_bids (l : list Bid) : Prop :=
  forall b, In b l -> comparable b.

(** [w] wins against [b]: a higher amount, or the same amount earlier. *)
Definition beats (w b : Bid) : bool :=
  (bidAmountCents b <? bidAmountCents w)
  || ((bidAmountCents b =? bidAmountCents w)
      && (getTime (timestamp w) <? getTime (timestamp b))).

Definition with_bids (auction : AuctionState) (l : list Bid) : AuctionState :=
  {| lotId := lotId auction;
     status := status auction;
     startTime := startTime auction;
     endTime := endTime auction;
     minimumBidCents := minimumBidCents auction;
     bidIncrementCents := bidIncrementCents auction;
     currentHighestBidCents := currentHighestBidCents auction;
     totalBids := totalBids auction;
     bids := l |}.

(** The order in which the comparator sorts, on the integer images. *)
Definition bid_le (a b : Bid) : Prop :=
  (ord (bidAmountCents b) < ord (bidAmountCents a)
   \/ (ord (bidAmountCents a) = ord (bidAmountCents b)
       /\ ord (getTime (timestamp a)) <= ord (getTime (timestamp b))))%Z.

(** A list whose head is before each later element, recursively. *)
Fixpoint sorted_bids (l : list Bid) : Prop :=
  match l with
  | [] => True
  | x :: l' => (forall y, In y l' -> bid_le x y) /\ sorted_bids l'
  end.

(** ** Money strings *)

(** The whole of [s] is a decimal literal. *)
Definition is_decimal_text (s : jsstring) : Prop :=
  exists v, parse_decimal_literal s = Some (v, []).

Definition throws {A : Type} (c : completion A) : Prop :=
  exists message, c = Throw message.

(** An amount with at most two decimal places: the number written
    [k / 100] for an integer count [k] of centavos, that is the binary64
    number nearest to that quotient. *)
Definition two_decimals (k : Z) : number := number_of_Z k / 100.

(** ** The auction of the test suite *)

Definition mockNow : Date := mkDate 1700000000000.

Definition mockAuction : AuctionState :=
  {| lotId := str "lot-1";
     status := open;
     startTime := mkDate 1700000000000;
     endTime := mkDate 1700003600000;
     minimumBidCents := 10000;
     bidIncrementCents := 500;
     currentHighestBidCents := 12000;
     totalBids := 1;
     bids := [] |}.

Definition mockBid : Bid :=
  {| id := str "bid-1";
     bid_lotId := str "lot-1";
     buyerId := str "buyer-1";
     bidAmountCents := 13000;
     timestamp := mkDate 1700000000000;
     isWinning := None |}.

(** An auction before its first bid, and two bids of the same amount. *)

Definition freshAuction : AuctionState :=
  {| lotId := str "lot-1";
     status := open;
     startTime := mkDate 1700000000000;
     endTime := mkDate 1700003600000;
     minimumBidCents := 10000;
     bidIncrementCents := 500;
     currentHighestBidCents := 0;
     totalBids := 0;
     bids := [] |}.

Definition tieLate : Bid :=
  {| id := str "bid-2"; bid_lotId := str "lot-1"; buyerId := str "buyer-2";
     bidAmountCents := 15000; timestamp := mkDate 1700000001000;
     isWinning := None |}.

Definition tieEarly : Bid :=
  {| id := str "bid-1"; bid_lotId := str "lot-1"; buyerId := str "buyer-1";
     bidAmountCents := 15000; timestamp := mkDate 1700000000000;
     isWinning := None |}.

Definition tieAuction : AuctionState := with_bids mockAuction [tieLate; tieEarly].

(** A bid whose amount is NaN, followed by a bid of 13000. *)

Definition nanBid : Bid :=
  {| id := str "bid-0"; bid_lotId := str "lot-1"; buyerId := str "buyer-0";
     bidAmountCents := nan; timestamp := mkDate 1700000000000;
     isWinning := None |}.

Definition nanAuction : AuctionState := with_bids mockAuction [nanBid; mockBid].

(** ** Definitions for the further properties *)

(** [x] is neither NaN nor an infinity, as [Number.isFinite] tests.  The
    time value of a valid [Date] is such a number. *)
Definition Number_isFinite (x : number) : bool :=
  match Prim2SF x with
  | S754_zero _ | S754_finite _ _ _ => true
  | S754_infinity _ | S754_nan => false
  end.

(** The total of a list of integer amounts. *)
Definition sum_of (l : list Z) : Z := List.fold_right Z.add 0%Z l.

(** The text [formatTimeRemaining] builds from whole hours, minutes and
    seconds. *)
Definition hms_text (h m s : Z) : jsstring :=
  if (0 <? h)%Z then
    digits_of_Z h ++ str "h " ++ digits_of_Z m ++ str "m "
      ++ digits_of_Z s ++ str "s"
  else if (0 <? m)%Z then digits_of_Z m ++ str "m " ++ digits_of_Z s ++ str "s"
  else digits_of_Z s ++ str "s".



(* ===================================================================== *)
(** * Part V.  Properties of numbers                                      *)
(* ===================================================================== *)

Local Open Scope Z_scope.

(** ** Valid binary64 numbers and their integer image *)

Lemma digits2_pos_bounds (m : positive) :
  2 ^ (Zpos (digits2_pos m) - 1) <= Zpos m < 2 ^ Zpos (digits2_pos m).
Proof.
  induction m as [m IH | m IH |]; cbn [digits2_pos].
  - rewrite Pos2Z.inj_succ.
    replace (Z.succ (Zpos (digits2_pos m)) - 1) with (Z.succ (Zpos (digits2_pos m) - 1)) by lia.
    rewrite !Z.pow_succ_r by lia. lia.
  - rewrite Pos2Z.inj_succ.
    replace (Z.succ (Zpos (digits2_pos m)) - 1) with (Z.succ (Zpos (digits2_pos m) - 1)) by lia.
    rewrite !Z.pow_succ_r by lia. lia.
  - cbn. lia.
Qed.

Lemma valid_finite_bounds s m e :
  valid_binary (S754_finite s m e) = true ->
  -1074 <= e <= 971 /\ Zpos (digits2_pos m) <= 53 /\
  (e = -1074 \/ Zpos (digits2_pos m) = 53).
Proof.
  cbn [SpecFloat.valid_binary]. unfold bounded, canonical_mantissa, fexp, SpecFloat.emin.
  change prec with 53. change emax with 1024.
  rewrite andb_true_iff, Z.eqb_eq, Z.leb_le. lia.
Qed.

Lemma finite_ord_bounds s m e :
  valid_binary (S754_finite s m e) = true ->
  0 < Zpos m * 2 ^ (e + 1074) < 2 ^ 2200.
Proof.
  intros H. apply valid_finite_bounds in H. destruct H as (He & Hd & _).
  pose proof (digits2_pos_bounds m) as [_ Hm].
  assert (H0 : 0 < 2 ^ (e + 1074)) by (apply Z.pow_pos_nonneg; lia).
  split; [lia|].
  apply Z.lt_le_trans with (2 ^ 53 * 2 ^ (e + 1074)).
  - apply Z.mul_lt_mono_pos_r; [lia|].
    apply Z.lt_le_trans with (1 := Hm). apply Z.pow_le_mono_r; lia.
  - rewrite <- Z.pow_add_r by lia. apply Z.pow_le_mono_r; lia.
Qed.

Lemma finite_compare_exp m1 e1 m2 e2 :
  valid_binary (S754_finite false m1 e1) = true ->
  valid_binary (S754_finite false m2 e2) = true ->
  e1 < e2 -> Zpos m1 * 2 ^ (e1 + 1074) < Zpos m2 * 2 ^ (e2 + 1074).
Proof.
  intros H1 H2 Hlt.
  apply valid_finite_bounds in H1. apply valid_finite_bounds in H2.
  destruct H1 as (He1 & Hd1 & _). destruct H2 as (He2 & Hd2 & Hc2).
  assert (Hd : Zpos (digits2_pos m2) = 53) by lia.
  pose proof (digits2_pos_bounds m1) as [_ Hm1].
  pose proof (digits2_pos_bounds m2) as [Hm2 _]. rewrite Hd in Hm2.
  assert (H0 : 0 < 2 ^ (e1 + 1074)) by (apply Z.pow_pos_nonneg; lia).
  replace (e2 + 1074) with ((e2 - e1 - 1) + 1 + (e1 + 1074)) by lia.
  remember (e1 + 1074) as k1 eqn:Hk1. remember (e2 - e1 - 1) as k eqn:Hk.
  rewrite (Z.pow_add_r 2 (k + 1) k1), (Z.pow_add_r 2 k 1) by lia.
  assert (Hp : 0 < 2 ^ k) by (apply Z.pow_pos_nonneg; lia).
  assert (Hm1' : Zpos m1 < 2 ^ 53).
  { apply Z.lt_le_trans with (1 := Hm1). apply Z.pow_le_mono_r; lia. }
  change (2 ^ 1) with 2. change (53 - 1) with 52 in Hm2.
  assert (Zpos m1 < Zpos m2 * (2 ^ k * 2)).
  { change (2 ^ 53) with (2 ^ 52 * 2) in Hm1'. nia. }
  rewrite Z.mul_assoc. apply Z.mul_lt_mono_pos_r; lia.
Qed.


Lemma magnitude_compare m1 e1 m2 e2 :
  valid_binary (S754_finite false m1 e1) = true ->
  valid_binary (S754_finite false m2 e2) = true ->
  match e1 ?= e2 with
  | Lt => Lt
  | Gt => Gt
  | Eq => Pos.compare_cont Eq m1 m2
  end = (Zpos m1 * 2 ^ (e1 + 1074) ?= Zpos m2 * 2 ^ (e2 + 1074)).
Proof.
  intros V1 V2. symmetry.
  destruct (Z.compare_spec e1 e2) as [E | L | G].
  - subst e2. pose proof (finite_ord_bounds _ _ _ V1).
    assert (0 < 2 ^ (e1 + 1074)) by (apply Z.pow_pos_nonneg; apply valid_finite_bounds in V1; lia).
    change (Pos.compare_cont Eq m1 m2) with (Pos.compare m1 m2).
    destruct (Pos.compare_spec m1 m2) as [E | L | G].
    + subst m2. apply Z.compare_refl.
    + apply Z.compare_lt_iff. apply Z.mul_lt_mono_pos_r; lia.
    + apply Z.compare_gt_iff. apply Z.mul_lt_mono_pos_r; lia.
  - apply Z.compare_lt_iff. now apply finite_compare_exp.
  - apply Z.compare_gt_iff. now apply finite_compare_exp.
Qed.

Lemma SFcompare_ord x y :
  valid_binary x = true -> valid_binary y = true ->
  SFis_nan x = false -> SFis_nan y = false ->
  SFcompare x y = Some (SFord x ?= SFord y).
Proof.
  intros Vx Vy Nx Ny.
  destruct x as [sx | sx | | sx mx ex], y as [sy | sy | | sy my ey];
    try discriminate; cbn [SFcompare SFord].
  - reflexivity.
  - destruct sy; reflexivity.
  - pose proof (finite_ord_bounds _ _ _ Vy).
    destruct sy; cbn [cond_Zopp]; f_equal; symmetry;
      [apply Z.compare_gt_iff | apply Z.compare_lt_iff]; lia.
  - destruct sx; reflexivity.
  - destruct sx, sy; reflexivity.
  - pose proof (finite_ord_bounds _ _ _ Vy).
    destruct sx, sy; cbn [cond_Zopp]; f_equal; symmetry;
      (apply Z.compare_lt_iff || apply Z.compare_gt_iff); lia.
  - pose proof (finite_ord_bounds _ _ _ Vx).
    destruct sx; cbn [cond_Zopp]; f_equal; symmetry;
      [apply Z.compare_lt_iff | apply Z.compare_gt_iff]; lia.
  - pose proof (finite_ord_bounds _ _ _ Vx).
    destruct sx, sy; cbn [cond_Zopp]; f_equal; symmetry;
      (apply Z.compare_lt_iff || apply Z.compare_gt_iff); lia.
  - pose proof (finite_ord_bounds _ _ _ Vx) as Bx.
    pose proof (finite_ord_bounds _ _ _ Vy) as By.
    pose proof (magnitude_compare mx ex my ey Vx Vy) as M.
    destruct sx, sy; cbn [cond_Zopp]; f_equal.
    + rewrite Z.compare_opp,
        (Z.compare_antisym (Z.pos mx * 2 ^ (ex + 1074)) (Z.pos my * 2 ^ (ey + 1074))).
      rewrite <- M. destruct (ex ?= ey); reflexivity.
    + symmetry. apply Z.compare_lt_iff. lia.
    + symmetry. apply Z.compare_gt_iff. lia.
    + exact M.
Qed.

Lemma isNaN_spec x : isNaN x = SFis_nan (Prim2SF x).
Proof.
  unfold isNaN. rewrite FloatAxioms.eqb_spec. unfold SFeqb.
  destruct (SFis_nan (Prim2SF x)) eqn:N.
  - destruct (Prim2SF x); try discriminate. reflexivity.
  - rewrite SFcompare_ord by (auto using Prim2SF_valid).
    now rewrite Z.compare_refl.
Qed.

Lemma SFcompare_nan_l x y : SFis_nan x = true -> SFcompare x y = None.
Proof. destruct x; try discriminate. reflexivity. Qed.

Lemma SFcompare_nan_r x y : SFis_nan y = true -> SFcompare x y = None.
Proof. destruct y; try discriminate. destruct x; reflexivity. Qed.

Lemma compare_ord x y :
  SFcompare (Prim2SF x) (Prim2SF y) =
  if isNaN x || isNaN y then None else Some (ord x ?= ord y).
Proof.
  rewrite !isNaN_spec.
  destruct (SFis_nan (Prim2SF x)) eqn:Nx; cbn [orb].
  - now apply SFcompare_nan_l.
  - destruct (SFis_nan (Prim2SF y)) eqn:Ny.
    + now apply SFcompare_nan_r.
    + apply SFcompare_ord; auto using Prim2SF_valid.
Qed.

Lemma ltb_ord x y :
  (x <? y)%float = negb (isNaN x || isNaN y) && (ord x <? ord y).
Proof.
  rewrite FloatAxioms.ltb_spec. unfold SFltb. rewrite compare_ord.
  destruct (isNaN x || isNaN y); [reflexivity|].
  unfold Z.ltb. cbn [negb andb]. destruct (ord x ?= ord y); reflexivity.
Qed.

Lemma leb_ord x y :
  (x <=? y)%float = negb (isNaN x || isNaN y) && (ord x <=? ord y).
Proof.
  rewrite FloatAxioms.leb_spec. unfold SFleb. rewrite compare_ord.
  destruct (isNaN x || isNaN y); [reflexivity|].
  unfold Z.leb. cbn [negb andb]. destruct (ord x ?= ord y); reflexivity.
Qed.

Lemma eqb_ord x y :
  (x =? y)%float = negb (isNaN x || isNaN y) && (ord x =? ord y).
Proof.
  rewrite FloatAxioms.eqb_spec. unfold SFeqb. rewrite compare_ord.
  destruct (isNaN x || isNaN y); [reflexivity|].
  rewrite Z.eqb_compare. cbn [negb andb].
  destruct (ord x ?= ord y); reflexivity.
Qed.

(** ** The sign of a difference *)

Lemma shr_1_m mrs :
  0 <= shr_m mrs -> shr_m (shr_1 mrs) = shr_m mrs / 2.
Proof.
  destruct mrs as [m r s]. cbn [shr_m shr_1]. intros H.
  destruct m as [| p | p]; [reflexivity | | lia].
  destruct p as [p | p |]; cbn [shr_m].
  - rewrite Pos2Z.inj_xI. apply Z.div_unique with 1; lia.
  - rewrite Pos2Z.inj_xO. apply Z.div_unique with 0; lia.
  - reflexivity.
Qed.

Lemma iter_shr_1_m p : forall mrs,
  0 <= shr_m mrs ->
  shr_m (iter_pos shr_1 p mrs) = shr_m mrs / 2 ^ Zpos p.
Proof.
  induction p as [p IH | p IH |]; intros mrs H; cbn [iter_pos].
  - assert (H1 : 0 <= shr_m (shr_1 mrs)).
    { rewrite shr_1_m by assumption. apply Z.div_pos; lia. }
    assert (H2 : 0 <= shr_m (iter_pos shr_1 p (shr_1 mrs))).
    { rewrite IH by assumption. apply Z.div_pos; [lia|]. apply Z.pow_pos_nonneg; lia. }
    rewrite IH, IH, shr_1_m by assumption.
    rewrite !Z.div_div by (try apply Z.pow_pos_nonneg; lia).
    f_equal. rewrite (Pos2Z.inj_xI p).
    replace (2 * Zpos p + 1) with (1 + Zpos p + Zpos p) by lia.
    rewrite !Z.pow_add_r by lia. change (2 ^ 1) with 2. ring.
  - assert (H2 : 0 <= shr_m (iter_pos shr_1 p mrs)).
    { rewrite IH by assumption. apply Z.div_pos; [lia|]. apply Z.pow_pos_nonneg; lia. }
    rewrite IH, IH by assumption.
    rewrite !Z.div_div by (try apply Z.pow_pos_nonneg; lia).
    f_equal. rewrite (Pos2Z.inj_xO p).
    replace (2 * Zpos p) with (Zpos p + Zpos p) by lia.
    rewrite !Z.pow_add_r by lia. ring.
  - now apply shr_1_m.
Qed.

Lemma shr_record_of_loc_m m l : shr_m (shr_record_of_loc m l) = m.
Proof. destruct l as [| []]; reflexivity. Qed.

Lemma Zdigits2_bounds m :
  0 < m -> 2 ^ (Zdigits2 m - 1) <= m < 2 ^ Zdigits2 m.
Proof.
  destruct m as [| p | p]; try lia. intros _. apply digits2_pos_bounds.
Qed.

(** Shifting a positive mantissa to the canonical exponent keeps it positive
    as long as the exponent is not below [emin]. *)
Lemma shr_fexp_pos m e l :
  0 < m -> -1074 <= e ->
  0 < shr_m (fst (shr_fexp prec emax m e l)) /\
  -1074 <= snd (shr_fexp prec emax m e l).
Proof.
  intros Hm He. unfold shr_fexp, fexp, SpecFloat.emin.
  change prec with 53. change emax with 1024.
  pose proof (Zdigits2_bounds m Hm) as [Hlo _].
  set (d := Zdigits2 m) in *.
  assert (Hd : 0 < d).
  { unfold d. destruct m; cbn; lia. }
  unfold shr.
  destruct (Z.max (d + e - 53) (3 - 1024 - 53) - e) as [| p | p] eqn:E;
    cbn [fst snd]; rewrite ?shr_record_of_loc_m; try (split; lia).
  split; [|lia].
  rewrite iter_shr_1_m by (rewrite shr_record_of_loc_m; lia).
  rewrite shr_record_of_loc_m.
  apply Z.div_str_pos. split; [apply Z.pow_pos_nonneg; lia|].
  apply Z.le_trans with (2 := Hlo). apply Z.pow_le_mono_r; lia.
Qed.

Lemma round_nearest_even_pos m l : 0 < m -> 0 < round_nearest_even m l.
Proof.
  intros H. destruct l as [| []]; cbn [round_nearest_even]; try lia.
  destruct (Z.even m); lia.
Qed.

Lemma binary_round_aux_sign s m e l :
  0 < m -> -1074 <= e ->
  (exists m' e', binary_round_aux prec emax s m e l = S754_finite s m' e')
  \/ binary_round_aux prec emax s m e l = S754_infinity s.
Proof.
  intros Hm He. unfold binary_round_aux.
  pose proof (shr_fexp_pos m e l Hm He) as [H1 H1'].
  destruct (shr_fexp prec emax m e l) as [mrs' e'] eqn:E1. cbn [fst snd] in *.
  pose proof (round_nearest_even_pos (shr_m mrs') (loc_of_shr_record mrs') H1) as H2.
  pose proof (shr_fexp_pos _ e' loc_Exact H2 H1') as [H3 _].
  destruct (shr_fexp prec emax _ e' loc_Exact) as [mrs'' e''] eqn:E2. cbn [fst snd] in *.
  destruct (shr_m mrs'') as [| p | p]; try lia.
  destruct (e'' <=? emax - prec); eauto.
Qed.

Lemma iter_xO_Z d : forall m, Zpos (Pos.iter xO m d) = Zpos m * 2 ^ Zpos d.
Proof.
  induction d as [d IH | d IH |]; intros m; cbn [Pos.iter].
  - rewrite Pos2Z.inj_xO, IH, IH, (Pos2Z.inj_xI d).
    replace (2 * Zpos d + 1) with (Zpos d + Zpos d + 1) by lia.
    rewrite !Z.pow_add_r by lia. change (2 ^ 1) with 2. ring.
  - rewrite IH, IH, (Pos2Z.inj_xO d).
    replace (2 * Zpos d) with (Zpos d + Zpos d) by lia.
    rewrite !Z.pow_add_r by lia. ring.
  - rewrite Pos2Z.inj_xO. change (2 ^ 1) with 2. ring.
Qed.

Lemma shl_align_spec m e e' :
  e' <= e ->
  Zpos (fst (shl_align m e e')) = Zpos m * 2 ^ (e - e') /\
  (snd (shl_align m e e') = e').
Proof.
  intros H. unfold shl_align.
  destruct (e' - e) as [| p | p] eqn:E; cbn [fst snd]; try lia.
  - replace (e - e') with 0 by lia. split; lia.
  - rewrite iter_xO_Z. replace (e - e') with (Zpos p) by lia. split; [reflexivity|lia].
Qed.

Lemma binary_round_sign s m e :
  -1074 <= e ->
  (exists m' e', binary_round prec emax s m e = S754_finite s m' e')
  \/ binary_round prec emax s m e = S754_infinity s.
Proof.
  intros He. unfold binary_round.
  destruct (shl_align m e _) as [mz ez] eqn:E.
  apply binary_round_aux_sign; [lia|].
  unfold shl_align in E.
  destruct (fexp prec emax (Zpos (digits2_pos m) + e) - e) as [| p | p] eqn:E';
    inversion E; subst; try lia.
  unfold fexp, SpecFloat.emin. change prec with 53. change emax with 1024. lia.
Qed.

Lemma binary_normalize_pos D e :
  -1074 <= e ->
  SFltb (S754_zero false) (binary_normalize prec emax D e false) = (0 <? D).
Proof.
  intros He. destruct D as [| p | p]; cbn [binary_normalize].
  - reflexivity.
  - destruct (binary_round_sign false p e He) as [(m' & e' & ->) | ->]; reflexivity.
  - destruct (binary_round_sign true p e He) as [(m' & e' & ->) | ->]; reflexivity.
Qed.

Lemma cond_Zopp_mul s a b : cond_Zopp s a * b = cond_Zopp s (a * b).
Proof. destruct s; cbn [cond_Zopp]; ring. Qed.

Lemma aligned_ord s m e ez :
  -1074 <= ez -> ez <= e ->
  cond_Zopp s (Zpos (fst (shl_align m e ez))) * 2 ^ (ez + 1074)
  = SFord (S754_finite s m e).
Proof.
  intros H1 H2. destruct (shl_align_spec m e ez H2) as [-> _].
  cbn [SFord]. rewrite cond_Zopp_mul. f_equal.
  rewrite <- Z.mul_assoc, <- Z.pow_add_r by lia. do 2 f_equal. lia.
Qed.

Lemma SFsub_pos x y :
  valid_binary x = true -> valid_binary y = true ->
  SFltb (S754_zero false) (SFsub prec emax x y)
  = negb (SFis_nan x || SFis_nan y) && (SFord y <? SFord x).
Proof.
  intros Vx Vy.
  destruct x as [sx | sx | | sx mx ex], y as [sy | sy | | sy my ey];
    cbn [SFsub SFis_nan orb negb andb SFord]; try reflexivity.
  - destruct sx, sy; reflexivity.
  - destruct sy; reflexivity.
  - pose proof (finite_ord_bounds _ _ _ Vy).
    destruct sy; cbn [negb cond_Zopp SFltb SFcompare]; symmetry;
      [apply Z.ltb_lt | apply Z.ltb_ge]; lia.
  - destruct sx; reflexivity.
  - destruct sx, sy; reflexivity.
  - pose proof (finite_ord_bounds _ _ _ Vy).
    destruct sx, sy; cbn [negb cond_Zopp SFltb SFcompare]; symmetry;
      (apply Z.ltb_lt || apply Z.ltb_ge); lia.
  - pose proof (finite_ord_bounds _ _ _ Vx).
    destruct sx; cbn [negb cond_Zopp SFltb SFcompare]; symmetry;
      [apply Z.ltb_ge | apply Z.ltb_lt]; lia.
  - pose proof (finite_ord_bounds _ _ _ Vx).
    destruct sx, sy; cbn [negb cond_Zopp SFltb SFcompare]; symmetry;
      (apply Z.ltb_lt || apply Z.ltb_ge); lia.
  - pose proof (valid_finite_bounds _ _ _ Vx) as (Hex & _).
    pose proof (valid_finite_bounds _ _ _ Vy) as (Hey & _).
    rewrite binary_normalize_pos by lia.
    pose proof (aligned_ord sx mx ex (Z.min ex ey)) as Ax.
    pose proof (aligned_ord sy my ey (Z.min ex ey)) as Ay.
    cbn [SFord] in Ax, Ay. rewrite <- Ax, <- Ay by lia.
    assert (Hp : 0 < 2 ^ (Z.min ex ey + 1074)) by (apply Z.pow_pos_nonneg; lia).
    set (a := cond_Zopp sx _) in *. set (b := cond_Zopp sy _) in *.
    destruct (Z.ltb_spec 0 (a - b)) as [L | G]; symmetry.
    + apply Z.ltb_lt. apply Z.mul_lt_mono_pos_r; lia.
    + apply Z.ltb_ge. apply Z.mul_le_mono_nonneg_r; lia.
Qed.

(** The sign of a difference is the order of its operands: [x - y] is
    positive exactly when [y < x].  Subtraction never rounds a non-zero
    difference to zero, and NaN on either side makes both sides false. *)
Lemma sub_pos (x y : number) : (0 <? x - y)%float = (y <? x)%float.
Proof.
  rewrite FloatAxioms.ltb_spec, sub_spec.
  change (Prim2SF 0) with (S754_zero false).
  unfold SF64sub. rewrite SFsub_pos by apply Prim2SF_valid.
  rewrite ltb_ord, <- !isNaN_spec. unfold ord.
  now rewrite (orb_comm (isNaN y)).
Qed.

(** ** Comparisons, for use in proofs *)

Ltac nan_cases :=
  repeat match goal with
  | E : isNaN ?x = _ |- context [isNaN ?x] => rewrite E
  | E : isNaN ?x = _, H : context [isNaN ?x] |- _ => rewrite E in H
  | |- context [isNaN ?x] => destruct (isNaN x) eqn:?
  | H : context [isNaN ?x] |- _ =>
      lazymatch type of H with
      | isNaN _ = _ => fail
      | _ => destruct (isNaN x) eqn:?
      end
  end.

Ltac z_cases :=
  repeat match goal with
  | H : context [(?a <? ?b)%Z] |- _ => destruct (Z.ltb_spec a b)
  | H : context [(?a <=? ?b)%Z] |- _ => destruct (Z.leb_spec a b)
  | H : context [(?a =? ?b)%Z] |- _ => destruct (Z.eqb_spec a b)
  | |- context [(?a <? ?b)%Z] => destruct (Z.ltb_spec a b)
  | |- context [(?a <=? ?b)%Z] => destruct (Z.leb_spec a b)
  | |- context [(?a =? ?b)%Z] => destruct (Z.eqb_spec a b)
  end.

(** Turns every comparison of numbers into a comparison of their integer
    images and decides the result. *)
Ltac num_order :=
  rewrite ?ltb_ord, ?leb_ord, ?eqb_ord in *;
  nan_cases; cbn [negb andb orb] in *;
  z_cases; cbn [negb andb orb] in *;
  try discriminate; try reflexivity; try lia; try tauto.

Lemma ord_zero : ord 0%float = 0.
Proof. reflexivity. Qed.

Lemma leb_refl x : isNaN x = false -> (x <=? x)%float = true.
Proof. intros H. num_order. Qed.

Lemma leb_not_nan x y :
  (x <=? y)%float = true -> isNaN x = false /\ isNaN y = false.
Proof. intros H. split; num_order. Qed.


(** For numbers that are not NaN, [b <= a] is the negation of [a < b]. *)
Lemma leb_negb_ltb a b :
  isNaN a = false -> isNaN b = false ->
  (b <=? a)%float = negb (a <? b)%float.
Proof. intros Ha Hb. num_order. Qed.

Lemma Number_isInteger_not_nan x :
  Number_isInteger x = true -> isNaN x = false.
Proof.
  unfold Number_isInteger. rewrite isNaN_spec.
  destruct (Prim2SF x); intros H; try discriminate; reflexivity.
Qed.

(** ** [Math.max] *)

Lemma Math_max_cases a b :
  isNaN a = false -> isNaN b = false ->
  (Math_max a b = a \/ Math_max a b = b)
  /\ ord (Math_max a b) = Z.max (ord a) (ord b).
Proof.
  intros Ha Hb. unfold Math_max. rewrite Ha, Hb. cbn [orb].
  destruct (a <? b)%float eqn:L1; [split; [now right|]; num_order|].
  destruct (b <? a)%float eqn:L2; [split; [now left|]; num_order|].
  destruct (get_sign a); split; auto; num_order.
Qed.

Lemma Math_max_not_nan a b :
  isNaN a = false -> isNaN b = false -> isNaN (Math_max a b) = false.
Proof.
  intros Ha Hb. destruct (Math_max_cases a b Ha Hb) as [[-> | ->] _]; assumption.
Qed.

Lemma isNaN_not_integer x : isNaN x = true -> Number_isInteger x = false.
Proof.
  rewrite isNaN_spec. unfold Number_isInteger.
  destruct (Prim2SF x); intros H; try discriminate; reflexivity.
Qed.

(** ** Results that are never NaN *)

Lemma shr_fexp_nonneg m e l :
  0 <= m -> 0 <= shr_m (fst (shr_fexp prec emax m e l)).
Proof.
  intros Hm. unfold shr_fexp, shr.
  destruct (fexp prec emax (Zdigits2 m + e) - e) as [| p | p];
    cbn [fst]; rewrite ?shr_record_of_loc_m; try assumption.
  rewrite iter_shr_1_m by (rewrite shr_record_of_loc_m; assumption).
  rewrite shr_record_of_loc_m. apply Z.div_pos; [assumption|].
  apply Z.pow_pos_nonneg; lia.
Qed.

Lemma round_nearest_even_nonneg m l : 0 <= m -> 0 <= round_nearest_even m l.
Proof.
  intros H. destruct l as [| []]; cbn [round_nearest_even]; try lia.
  destruct (Z.even m); lia.
Qed.

Lemma binary_round_aux_not_nan s m e l :
  0 <= m -> SFis_nan (binary_round_aux prec emax s m e l) = false.
Proof.
  intros Hm. unfold binary_round_aux.
  pose proof (shr_fexp_nonneg m e l Hm) as H1.
  destruct (shr_fexp prec emax m e l) as [mrs' e'] eqn:E1. cbn [fst] in H1.
  pose proof (round_nearest_even_nonneg _ (loc_of_shr_record mrs') H1) as H2.
  pose proof (shr_fexp_nonneg _ e' loc_Exact H2) as H3.
  destruct (shr_fexp prec emax _ e' loc_Exact) as [mrs'' e''] eqn:E2.
  cbn [fst] in H3.
  destruct (shr_m mrs'') as [| p | p]; try lia; [reflexivity|].
  destruct (e'' <=? emax - prec); reflexivity.
Qed.

Lemma binary_round_not_nan s m e :
  SFis_nan (binary_round prec emax s m e) = false.
Proof.
  unfold binary_round. destruct (shl_align m e _) as [mz ez].
  apply binary_round_aux_not_nan. lia.
Qed.

Lemma binary_normalize_not_nan m e :
  SFis_nan (binary_normalize prec emax m e false) = false.
Proof.
  destruct m; cbn [binary_normalize];
    [reflexivity | apply binary_round_not_nan | apply binary_round_not_nan].
Qed.

Lemma isNaN_opp x : isNaN (- x)%float = isNaN x.
Proof.
  rewrite !isNaN_spec, opp_spec. destruct (Prim2SF x); reflexivity.
Qed.

Lemma SF2Prim_not_nan z : SFis_nan z = false -> isNaN (SF2Prim z) = false.
Proof.
  destruct z as [[] | [] | | s m e]; try reflexivity; try discriminate.
  intros _. unfold SF2Prim.
  assert (H : isNaN (Z.ldexp (of_uint63 (Uint63Axioms.of_Z (Zpos m))) e) = false).
  { rewrite isNaN_spec, Z_ldexp_spec, of_uint63_spec.
    pose proof (binary_normalize_not_nan (Uint63Axioms.to_Z (Uint63Axioms.of_Z (Zpos m))) 0) as N.
    destruct (binary_normalize prec emax _ 0 false) as [| | | s' m' e'];
      try discriminate; try reflexivity.
    cbn [SFldexp]. apply binary_round_not_nan. }
  destruct s; [rewrite isNaN_opp|]; exact H.
Qed.

Lemma number_of_decimal_not_nan m e : isNaN (number_of_decimal m e) = false.
Proof.
  unfold number_of_decimal, number_of_Z, number_of_scaled.
  destruct (m =? 0); [reflexivity|].
  destruct (0 <=? e); apply SF2Prim_not_nan, binary_normalize_not_nan.
Qed.

(** ** Rounding of products and quotients

    The result of a multiplication or a division lies in the same interval
    between two consecutive 53-bit values as the exact result. *)

Local Open Scope Z_scope.

Lemma Zdigits2_unique m d :
  2 ^ (d - 1) <= m < 2 ^ d -> 0 < d -> Zdigits2 m = d.
Proof.
  intros [Hlo Hhi] Hd.
  assert (Hm : 0 < m).
  { apply Z.lt_le_trans with (2 := Hlo). apply Z.pow_pos_nonneg; lia. }
  pose proof (Zdigits2_bounds m Hm) as [Hlo' Hhi'].
  assert (Hd' : 0 < Zdigits2 m) by (destruct m; cbn; lia).
  destruct (Z.lt_trichotomy (Zdigits2 m) d) as [L | [E | G]]; [|assumption|].
  - exfalso. assert (2 ^ Zdigits2 m <= 2 ^ (d - 1)) by (apply Z.pow_le_mono_r; lia).
    lia.
  - exfalso. assert (2 ^ d <= 2 ^ (Zdigits2 m - 1)) by (apply Z.pow_le_mono_r; lia).
    lia.
Qed.

Lemma round_nearest_even_cases m l :
  round_nearest_even m l = m \/ round_nearest_even m l = m + 1.
Proof.
  destruct l as [| []]; cbn [round_nearest_even]; auto.
  destruct (Z.even m); auto.
Qed.

Lemma shr_m_shr mrs e j :
  0 <= shr_m mrs -> 0 <= j ->
  shr_m (fst (shr mrs e j)) = shr_m mrs / 2 ^ j /\ snd (shr mrs e j) = e + j.
Proof.
  intros Hm Hj. unfold shr. destruct j as [| p | p]; cbn [fst snd]; try lia.
  - rewrite Z.pow_0_r, Z.div_1_r. lia.
  - rewrite iter_shr_1_m by assumption. lia.
Qed.

Lemma shr_fexp_normal m e l j :
  0 < m -> Zdigits2 m = 53 + j -> 0 <= j -> -1074 <= e + j ->
  shr_m (fst (shr_fexp prec emax m e l)) = m / 2 ^ j
  /\ snd (shr_fexp prec emax m e l) = e + j.
Proof.
  intros Hm Hd Hj He. unfold shr_fexp, fexp, SpecFloat.emin.
  change prec with 53. change emax with 1024. rewrite Hd.
  replace (Z.max (53 + j + e - 53) (3 - 1024 - 53) - e) with j by lia.
  pose proof (shr_m_shr (shr_record_of_loc m l) e j) as H.
  rewrite shr_record_of_loc_m in H. apply H; lia.
Qed.

Lemma div_pow2_bounds m j :
  0 <= j -> 2 ^ (52 + j) <= m < 2 ^ (53 + j) ->
  2 ^ 52 <= m / 2 ^ j < 2 ^ 53.
Proof.
  intros Hj [Hlo Hhi].
  assert (Hp : 0 < 2 ^ j) by (apply Z.pow_pos_nonneg; lia).
  rewrite Z.pow_add_r in Hlo, Hhi by lia. split.
  - apply Z.div_le_lower_bound; lia.
  - apply Z.div_lt_upper_bound; lia.
Qed.

Lemma binary_round_aux_faithful s m e l j :
  0 < m -> Zdigits2 m = 53 + j -> 0 <= j ->
  -1074 <= e + j -> e + j + 1 <= 971 ->
  exists m' e',
    binary_round_aux prec emax s m e l = S754_finite s m' e'
    /\ 2 ^ 52 <= Zpos m' < 2 ^ 53
    /\ e + j <= e' <= e + j + 1
    /\ (m / 2 ^ j) * 2 ^ (e + j + 1074) <= Zpos m' * 2 ^ (e' + 1074)
       <= (m / 2 ^ j + 1) * 2 ^ (e + j + 1074).
Proof.
  intros Hm Hd Hj Hlo Hhi.
  pose proof (Zdigits2_bounds m Hm) as Bm. rewrite Hd in Bm.
  replace (53 + j - 1) with (52 + j) in Bm by lia.
  pose proof (div_pow2_bounds m j Hj Bm) as Bq.
  unfold binary_round_aux.
  destruct (shr_fexp_normal m e l j Hm Hd Hj Hlo) as [E1 E1'].
  destruct (shr_fexp prec emax m e l) as [mrs' e1]. cbn [fst snd] in E1, E1'.
  subst e1. set (q := m / 2 ^ j) in *.
  set (m2 := round_nearest_even (shr_m mrs') (loc_of_shr_record mrs')).
  assert (Hm2 : m2 = q \/ m2 = q + 1).
  { unfold m2. rewrite E1. apply round_nearest_even_cases. }
  assert (Hpos : 0 < 2 ^ (e + j + 1074)) by (apply Z.pow_pos_nonneg; lia).
  destruct (Z.ltb_spec m2 (2 ^ 53)) as [Hsmall | Hbig].
  - assert (D2 : Zdigits2 m2 = 53 + 0) by (apply Zdigits2_unique; lia).
    destruct (shr_fexp_normal m2 (e + j) loc_Exact 0 ltac:(lia) D2 ltac:(lia) ltac:(lia))
      as [E2 E2'].
    destruct (shr_fexp prec emax m2 (e + j) loc_Exact) as [mrs'' e2].
    cbn [fst snd] in E2, E2'. rewrite E2. rewrite Z.pow_0_r, Z.div_1_r.
    destruct m2 as [| p | p]; try lia.
    subst e2. replace (e + j + 0 <=? emax - prec) with true
      by (symmetry; apply Z.leb_le; change (emax - prec) with 971; lia).
    exists p, (e + j + 0). split; [reflexivity|].
    replace (e + j + 0) with (e + j) by lia.
    split; [lia|]. split; [lia|]. nia.
  - assert (Em2 : m2 = 2 ^ 53) by lia.
    assert (D2 : Zdigits2 m2 = 53 + 1) by (rewrite Em2; reflexivity).
    destruct (shr_fexp_normal m2 (e + j) loc_Exact 1 ltac:(lia) D2 ltac:(lia) ltac:(lia))
      as [E2 E2'].
    destruct (shr_fexp prec emax m2 (e + j) loc_Exact) as [mrs'' e2].
    cbn [fst snd] in E2, E2'. rewrite E2, Em2.
    change (2 ^ 53 / 2 ^ 1) with (Zpos (2 ^ 52)).
    subst e2. replace (e + j + 1 <=? emax - prec) with true
      by (symmetry; apply Z.leb_le; change (emax - prec) with 971; lia).
    exists (2 ^ 52)%positive, (e + j + 1). split; [reflexivity|].
    split; [cbn; lia|]. split; [lia|].
    replace (e + j + 1 + 1074) with (1 + (e + j + 1074)) by lia.
    rewrite (Z.pow_add_r 2 1 (e + j + 1074)) by lia.
    change (Zpos (2 ^ 52) * (2 ^ 1 * 2 ^ (e + j + 1074)))
      with (Zpos (2 ^ 52) * (2 * 2 ^ (e + j + 1074))).
    assert (Hq : q + 1 = 2 ^ 53) by lia.
    rewrite Hq. change (Zpos (2 ^ 52)) with (2 ^ 52). nia.
Qed.

Lemma binary_round_aux_exact s m e :
  2 ^ 52 <= Zpos m < 2 ^ 53 -> -1074 <= e <= 971 ->
  binary_round_aux prec emax s (Zpos m) e loc_Exact = S754_finite s m e.
Proof.
  intros Hm He.
  assert (D : Zdigits2 (Zpos m) = 53) by (apply Zdigits2_unique; lia).
  unfold binary_round_aux, shr_fexp, fexp, SpecFloat.emin.
  change prec with 53. change emax with 1024.
  rewrite D. replace (Z.max (53 + e - 53) (3 - 1024 - 53) - e) with 0 by lia.
  cbn [shr shr_record_of_loc shr_m loc_of_shr_record round_nearest_even].
  rewrite D. replace (Z.max (53 + e - 53) (3 - 1024 - 53) - e) with 0 by lia.
  cbn [shr shr_record_of_loc shr_m].
  replace (e <=? 1024 - 53) with true by (symmetry; apply Z.leb_le; lia).
  reflexivity.
Qed.

Lemma normal_valid s m e :
  2 ^ 52 <= Zpos m < 2 ^ 53 -> -1074 <= e <= 971 ->
  valid_binary (S754_finite s m e) = true.
Proof.
  intros Hm He.
  assert (D : Zdigits2 (Zpos m) = 53) by (apply Zdigits2_unique; lia).
  cbn [Zdigits2] in D.
  cbn [SpecFloat.valid_binary]. unfold bounded, canonical_mantissa, fexp, SpecFloat.emin.
  change prec with 53. change emax with 1024. rewrite D.
  apply andb_true_iff. split; [apply Z.eqb_eq | apply Z.leb_le]; lia.
Qed.

(** The number of an integer below [2^53] in magnitude is that integer,
    exactly.  [s] is the sign and [k] the magnitude. *)
Lemma Prim2SF_number_of_Z s k :
  1 <= k < 2 ^ 53 ->
  exists m e,
    Prim2SF (number_of_Z (cond_Zopp s k)) = S754_finite s m e
    /\ 2 ^ 52 <= Zpos m < 2 ^ 53
    /\ -52 <= e <= 0
    /\ Zpos m * 2 ^ (e + 1074) = k * 2 ^ 1074.
Proof.
  intros Hk. destruct k as [| p | p]; try lia.
  assert (E : binary_normalize prec emax (cond_Zopp s (Zpos p)) 0 false
              = binary_round prec emax s p 0) by (destruct s; reflexivity).
  unfold number_of_Z. rewrite E. unfold binary_round.
  pose proof (Zdigits2_bounds (Zpos p) ltac:(lia)) as Bp.
  cbn [Zdigits2] in Bp. set (d := Zpos (digits2_pos p)) in *.
  assert (Hd : 1 <= d <= 53).
  { split; [unfold d; lia|].
    destruct (Z.le_gt_cases d 53) as [L | G]; [assumption|].
    assert (2 ^ 53 <= 2 ^ (d - 1)) by (apply Z.pow_le_mono_r; lia). lia. }
  unfold fexp, SpecFloat.emin. change prec with 53. change emax with 1024.
  replace (Z.max (d + 0 - 53) (3 - 1024 - 53)) with (d - 53) by lia.
  destruct (shl_align_spec p 0 (d - 53) ltac:(lia)) as [Hmz Hez].
  destruct (shl_align p 0 (d - 53)) as [mz ez]. cbn [fst snd] in Hmz, Hez.
  subst ez. replace (0 - (d - 53)) with (53 - d) in Hmz by lia.
  assert (Bmz : 2 ^ 52 <= Zpos mz < 2 ^ 53).
  { assert (E1 : 2 ^ 52 = 2 ^ (d - 1) * 2 ^ (53 - d))
      by (rewrite <- Z.pow_add_r by lia; f_equal; lia).
    assert (E2 : 2 ^ 53 = 2 ^ d * 2 ^ (53 - d))
      by (rewrite <- Z.pow_add_r by lia; f_equal; lia).
    assert (0 < 2 ^ (53 - d)) by (apply Z.pow_pos_nonneg; lia).
    rewrite Hmz, E1, E2. split.
    - apply Z.mul_le_mono_nonneg_r; lia.
    - apply Z.mul_lt_mono_pos_r; lia. }
  rewrite binary_round_aux_exact by lia.
  rewrite Prim2SF_SF2Prim by (apply normal_valid; lia).
  exists mz, (d - 53). split; [reflexivity|]. split; [assumption|].
  split; [lia|]. rewrite Hmz, <- Z.mul_assoc, <- Z.pow_add_r by lia.
  do 2 f_equal. lia.
Qed.

(** The exact quotient and the rounded quotient of two normal numbers lie
    between the same two consecutive 53-bit values [q * T] and
    [(q + 1) * T]. *)
Lemma SFdiv_interval s mx ex my ey :
  2 ^ 52 <= Zpos mx < 2 ^ 53 -> 2 ^ 52 <= Zpos my < 2 ^ 53 ->
  -900 <= ex <= 900 -> -60 <= ey <= 60 ->
  exists m' e' q T,
    SFdiv prec emax (S754_finite s mx ex) (S754_finite false my ey)
    = S754_finite s m' e'
    /\ 2 ^ 52 <= Zpos m' < 2 ^ 53
    /\ ex - ey - 53 <= e' <= ex - ey - 51
    /\ 2 ^ 52 <= q /\ 0 < T
    /\ q * T <= Zpos m' * 2 ^ (e' + 1074) <= (q + 1) * T
    /\ q * T * Zpos my <= Zpos mx * 2 ^ (ex - ey + 1074)
       < (q + 1) * T * Zpos my.
Proof.
  intros Hmx Hmy Hex Hey.
  assert (Dx : Zdigits2 (Zpos mx) = 53) by (apply Zdigits2_unique; lia).
  assert (Dy : Zdigits2 (Zpos my) = 53) by (apply Zdigits2_unique; lia).
  cbn [SFdiv]. rewrite xorb_false_r. unfold SFdiv_core_binary. rewrite Dx, Dy.
  unfold fexp, SpecFloat.emin. change prec with 53. change emax with 1024.
  replace (Z.min (Z.max (53 + ex - (53 + ey) - 53) (3 - 1024 - 53)) (ex - ey))
    with (ex - ey - 53) by lia.
  replace (ex - ey - (ex - ey - 53)) with 53 by lia.
  cbn match. rewrite Z.shiftl_mul_pow2 by lia.
  pose proof (Z.div_eucl_eq (Zpos mx * 2 ^ 53) (Zpos my) ltac:(lia)) as Hdiv.
  pose proof (Z.mod_pos_bound (Zpos mx * 2 ^ 53) (Zpos my) ltac:(lia)) as Hmod.
  unfold Z.modulo in Hmod.
  destruct (Z.div_eucl (Zpos mx * 2 ^ 53) (Zpos my)) as [q0 r0].
  assert (Bq : 2 ^ 52 <= q0 < 2 ^ 54) by nia.
  set (j := if q0 <? 2 ^ 53 then 0 else 1).
  assert (Hj : 0 <= j <= 1) by (unfold j; destruct (q0 <? 2 ^ 53); lia).
  assert (Dq : Zdigits2 q0 = 53 + j).
  { unfold j. destruct (Z.ltb_spec q0 (2 ^ 53)); apply Zdigits2_unique; lia. }
  destruct (binary_round_aux_faithful s q0 (ex - ey - 53)
              (new_location (Zpos my) r0) j ltac:(lia) Dq ltac:(lia) ltac:(lia) ltac:(lia))
    as (m' & e' & E & Bm' & Be' & Hval).
  exists m', e', (q0 / 2 ^ j), (2 ^ (ex - ey - 53 + j + 1074)).
  split; [exact E|]. split; [assumption|]. split; [lia|].
  assert (Hq1 : 2 ^ 52 <= q0 / 2 ^ j /\ q0 / 2 ^ j * 2 ^ j <= q0
                /\ q0 < (q0 / 2 ^ j + 1) * 2 ^ j).
  { unfold j. destruct (Z.ltb_spec q0 (2 ^ 53)).
    - rewrite Z.pow_0_r, Z.div_1_r. lia.
    - change (2 ^ 1) with 2.
      pose proof (Z.div_mod q0 2 ltac:(lia)).
      pose proof (Z.mod_pos_bound q0 2 ltac:(lia)).
      assert (2 ^ 52 <= q0 / 2) by (apply Z.div_le_lower_bound; lia). lia. }
  destruct Hq1 as (Hq1 & Hq2 & Hq3).
  split; [assumption|].
  assert (HT : 0 < 2 ^ (ex - ey - 53 + j + 1074)) by (apply Z.pow_pos_nonneg; lia).
  split; [assumption|]. split; [exact Hval|].
  set (w := 2 ^ (ex - ey - 53 + 1074)).
  assert (Hw : 0 < w) by (apply Z.pow_pos_nonneg; lia).
  replace (2 ^ (ex - ey - 53 + j + 1074)) with (2 ^ j * w)
    by (unfold w; rewrite <- Z.pow_add_r by lia; f_equal; lia).
  replace (2 ^ (ex - ey + 1074)) with (2 ^ 53 * w)
    by (unfold w; rewrite <- Z.pow_add_r by lia; f_equal; lia).
  set (q1 := q0 / 2 ^ j) in *. set (tj := 2 ^ j) in *.
  assert (Htj : 0 < tj) by (apply Z.pow_pos_nonneg; lia).
  split.
  - replace (q1 * (tj * w) * Zpos my) with ((q1 * tj * Zpos my) * w) by ring.
    replace (Zpos mx * (2 ^ 53 * w)) with ((Zpos mx * 2 ^ 53) * w) by ring.
    apply Z.mul_le_mono_nonneg_r; [lia|]. nia.
  - replace ((q1 + 1) * (tj * w) * Zpos my) with (((q1 + 1) * tj * Zpos my) * w) by ring.
    replace (Zpos mx * (2 ^ 53 * w)) with ((Zpos mx * 2 ^ 53) * w) by ring.
    apply Z.mul_lt_mono_pos_r; [lia|]. nia.
Qed.

(** The exact product and the rounded product of two normal numbers lie
    between the same two consecutive 53-bit values. *)
Lemma SFmul_interval s mx ex my ey :
  2 ^ 52 <= Zpos mx < 2 ^ 53 -> 2 ^ 52 <= Zpos my < 2 ^ 53 ->
  -900 <= ex <= 800 -> -60 <= ey <= 60 ->
  exists m' e' q T,
    SFmul prec emax (S754_finite s mx ex) (S754_finite false my ey)
    = S754_finite s m' e'
    /\ 2 ^ 52 <= Zpos m' < 2 ^ 53
    /\ ex + ey + 52 <= e' <= ex + ey + 54
    /\ 2 ^ 52 <= q /\ 0 < T
    /\ q * T <= Zpos m' * 2 ^ (e' + 1074) <= (q + 1) * T
    /\ q * T <= Zpos mx * Zpos my * 2 ^ (ex + ey + 1074) < (q + 1) * T.
Proof.
  intros Hmx Hmy Hex Hey.
  cbn [SFmul]. rewrite xorb_false_r, Pos2Z.inj_mul.
  set (P := Zpos mx * Zpos my).
  assert (BP : 2 ^ 104 <= P < 2 ^ 106).
  { unfold P. change (2 ^ 104) with (2 ^ 52 * 2 ^ 52).
    change (2 ^ 106) with (2 ^ 53 * 2 ^ 53). nia. }
  set (j := if P <? 2 ^ 105 then 52 else 53).
  assert (Hj : 52 <= j <= 53) by (unfold j; destruct (P <? 2 ^ 105); lia).
  assert (DP : Zdigits2 P = 53 + j).
  { unfold j. destruct (Z.ltb_spec P (2 ^ 105)); apply Zdigits2_unique; lia. }
  destruct (binary_round_aux_faithful s P (ex + ey) loc_Exact j
              ltac:(lia) DP ltac:(lia) ltac:(lia) ltac:(lia))
    as (m' & e' & E & Bm' & Be' & Hval).
  exists m', e', (P / 2 ^ j), (2 ^ (ex + ey + j + 1074)).
  split; [exact E|]. split; [assumption|]. split; [lia|].
  assert (Htj : 0 < 2 ^ j) by (apply Z.pow_pos_nonneg; lia).
  assert (Bq : 2 ^ 52 <= P / 2 ^ j).
  { apply Z.div_le_lower_bound; [lia|].
    unfold j. destruct (Z.ltb_spec P (2 ^ 105)).
    - change (2 ^ 52 * 2 ^ 52) with (2 ^ 104). lia.
    - change (2 ^ 53 * 2 ^ 52) with (2 ^ 105). lia. }
  split; [assumption|].
  assert (HT : 0 < 2 ^ (ex + ey + j + 1074)) by (apply Z.pow_pos_nonneg; lia).
  split; [assumption|]. split; [exact Hval|].
  set (w := 2 ^ (ex + ey + 1074)).
  assert (Hw : 0 < w) by (apply Z.pow_pos_nonneg; lia).
  replace (2 ^ (ex + ey + j + 1074)) with (2 ^ j * w)
    by (unfold w; rewrite <- Z.pow_add_r by lia; f_equal; lia).
  pose proof (Z.div_mod P (2 ^ j) ltac:(lia)) as Hdm.
  pose proof (Z.mod_pos_bound P (2 ^ j) ltac:(lia)) as Hmb.
  set (q := P / 2 ^ j) in *. set (tj := 2 ^ j) in *. split.
  - replace (q * (tj * w)) with ((q * tj) * w) by ring.
    apply Z.mul_le_mono_nonneg_r; lia.
  - replace ((q + 1) * (tj * w)) with (((q + 1) * tj) * w) by ring.
    apply Z.mul_lt_mono_pos_r; lia.
Qed.

(** [Math.round] of a number within one half of an integer: [s] is the
    sign and [k] the magnitude of that integer. *)
Lemma Math_round_near y s m e k :
  Prim2SF y = S754_finite s m e ->
  2 ^ 52 <= Zpos m < 2 ^ 53 -> -1074 <= e ->
  1 <= k < 2 ^ 50 ->
  2 * (Zpos m * 2 ^ (e + 1074) - k * 2 ^ 1074) < 2 ^ 1074 ->
  2 * (k * 2 ^ 1074 - Zpos m * 2 ^ (e + 1074)) < 2 ^ 1074 ->
  Math_round y = number_of_Z (cond_Zopp s k).
Proof.
  intros Hy Hm He Hk H1 H2.
  assert (HU : 0 < 2 ^ 1074) by (apply Z.pow_pos_nonneg; lia).
  assert (Hneg : e < 0).
  { destruct (Z.lt_ge_cases e 0) as [L | G]; [assumption|]. exfalso.
    assert (2 ^ 1074 <= 2 ^ (e + 1074)) by (apply Z.pow_le_mono_r; lia).
    assert (2 ^ 52 * 2 ^ 1074 <= Zpos m * 2 ^ (e + 1074)) by (apply Z.mul_le_mono_nonneg; lia).
    assert (k * 2 ^ 1074 <= 2 ^ 50 * 2 ^ 1074) by (apply Z.mul_le_mono_nonneg_r; lia).
    lia. }
  unfold Math_round. rewrite Hy.
  replace (0 <=? e) with false by (symmetry; apply Z.leb_gt; lia).
  set (t := 2 ^ (e + 1074)) in *. set (E := 2 ^ (- e)).
  assert (Ht : 0 < t) by (apply Z.pow_pos_nonneg; lia).
  assert (HE : 0 < E) by (apply Z.pow_pos_nonneg; lia).
  assert (HUE : 2 ^ 1074 = E * t).
  { unfold E, t. rewrite <- Z.pow_add_r by lia. f_equal. lia. }
  rewrite HUE in H1, H2.
  assert (B1 : 2 * (Zpos m - k * E) < E).
  { apply (Z.mul_lt_mono_pos_r t); [assumption|]. nia. }
  assert (B2 : 2 * (k * E - Zpos m) < E).
  { apply (Z.mul_lt_mono_pos_r t); [assumption|]. nia. }
  replace (2 ^ (1 - e)) with (2 * E)
    by (unfold E; replace (1 - e) with (1 + - e) by lia;
        rewrite Z.pow_add_r by lia; reflexivity).
  assert (Hn : (2 * cond_Zopp s (Zpos m) + E) / (2 * E) = cond_Zopp s k).
  { symmetry. destruct s; cbn [cond_Zopp].
    - apply Z.div_unique with (2 * - Zpos m + E - 2 * E * - k); lia.
    - apply Z.div_unique with (2 * Zpos m + E - 2 * E * k); lia. }
  rewrite Hn.
  replace (cond_Zopp s k =? 0) with false
    by (symmetry; apply Z.eqb_neq; destruct s; cbn [cond_Zopp]; lia).
  reflexivity.
Qed.

(** ** Exact differences

    The difference of two integers below [2^53] in magnitude is computed
    without rounding when it is below [2^53] itself. *)

Lemma shr_1_exact mrs c :
  shr_m mrs = 2 * c -> shr_r mrs = false -> shr_s mrs = false ->
  shr_1 mrs = {| shr_m := c; shr_r := false; shr_s := false |}.
Proof.
  destruct mrs as [m r s]. cbn [shr_m shr_r shr_s]. intros -> -> ->.
  destruct c as [| p | p]; reflexivity.
Qed.

Lemma iter_shr_1_exact p : forall mrs c,
  shr_m mrs = c * 2 ^ Zpos p -> shr_r mrs = false -> shr_s mrs = false ->
  iter_pos shr_1 p mrs = {| shr_m := c; shr_r := false; shr_s := false |}.
Proof.
  induction p as [p IH | p IH |]; intros mrs c Hm Hr Hs; cbn [iter_pos].
  - rewrite (Pos2Z.inj_xI p) in Hm.
    replace (2 * Zpos p + 1) with (1 + Zpos p + Zpos p) in Hm by lia.
    rewrite !Z.pow_add_r in Hm by lia. change (2 ^ 1) with 2 in Hm.
    assert (E1 : shr_1 mrs
                 = {| shr_m := c * 2 ^ Zpos p * 2 ^ Zpos p;
                      shr_r := false; shr_s := false |}).
    { apply shr_1_exact; try assumption. rewrite Hm. ring. }
    rewrite E1.
    assert (E2 : iter_pos shr_1 p
                   {| shr_m := c * 2 ^ Zpos p * 2 ^ Zpos p;
                      shr_r := false; shr_s := false |}
                 = {| shr_m := c * 2 ^ Zpos p; shr_r := false; shr_s := false |}).
    { apply IH; reflexivity. }
    rewrite E2. apply IH; reflexivity.
  - rewrite (Pos2Z.inj_xO p) in Hm.
    replace (2 * Zpos p) with (Zpos p + Zpos p) in Hm by lia.
    rewrite Z.pow_add_r in Hm by lia.
    assert (E1 : iter_pos shr_1 p mrs
                 = {| shr_m := c * 2 ^ Zpos p; shr_r := false; shr_s := false |}).
    { apply IH; try assumption. rewrite Hm. ring. }
    rewrite E1. apply IH; reflexivity.
  - apply shr_1_exact; try assumption. change (2 ^ 1) with 2 in Hm. lia.
Qed.

(** A mantissa with at most 53 significant bits is rounded to itself. *)
Lemma binary_round_aux_exact_shift s c j e :
  2 ^ 52 <= c < 2 ^ 53 -> 0 <= j -> -1074 <= e + j <= 971 ->
  exists m, c = Zpos m
    /\ binary_round_aux prec emax s (c * 2 ^ j) e loc_Exact
       = S754_finite s m (e + j).
Proof.
  intros Hc Hj He. destruct c as [| m | m]; try lia. exists m.
  split; [reflexivity|].
  assert (Hp : 0 < 2 ^ j) by (apply Z.pow_pos_nonneg; lia).
  assert (D : Zdigits2 (Zpos m * 2 ^ j) = 53 + j).
  { apply Zdigits2_unique; [|lia].
    replace (53 + j - 1) with (52 + j) by lia.
    rewrite !Z.pow_add_r by lia. nia. }
  unfold binary_round_aux at 1, shr_fexp at 1, fexp, SpecFloat.emin.
  change prec with 53. change emax with 1024. rewrite D.
  replace (Z.max (53 + j + e - 53) (3 - 1024 - 53) - e) with j by lia.
  assert (E : shr (shr_record_of_loc (Zpos m * 2 ^ j) loc_Exact) e j
              = ({| shr_m := Zpos m; shr_r := false; shr_s := false |}, e + j)).
  { unfold shr. destruct j as [| p | p]; try lia.
    - cbn [shr_record_of_loc]. rewrite Z.pow_0_r, Z.mul_1_r.
      f_equal. lia.
    - f_equal. now apply iter_shr_1_exact. }
  rewrite E. cbn [shr_m loc_of_shr_record round_nearest_even].
  pose proof (binary_round_aux_exact s m (e + j) Hc He) as X.
  unfold binary_round_aux in X.
  destruct (shr_fexp prec emax (Zpos m) (e + j) loc_Exact) as [mrs1 e1] eqn:E1.
  assert (E1' : mrs1 = shr_record_of_loc (Zpos m) loc_Exact /\ e1 = e + j).
  { unfold shr_fexp, fexp, SpecFloat.emin in E1.
    change prec with 53 in E1. change emax with 1024 in E1.
    assert (D1 : Zdigits2 (Zpos m) = 53) by (apply Zdigits2_unique; lia).
    rewrite D1 in E1.
    replace (Z.max (53 + (e + j) - 53) (3 - 1024 - 53) - (e + j)) with 0 in E1 by lia.
    cbn [shr] in E1. inversion E1. auto. }
  destruct E1' as [-> ->].
  cbn [shr_record_of_loc shr_m loc_of_shr_record round_nearest_even] in X.
  exact X.
Qed.

Lemma pow2_mantissa_lt m1 m2 k1 k2 :
  2 ^ 52 <= m1 < 2 ^ 53 -> 2 ^ 52 <= m2 < 2 ^ 53 ->
  0 <= k1 < k2 -> m1 * 2 ^ k1 < m2 * 2 ^ k2.
Proof.
  intros H1 H2 Hk.
  replace k2 with ((k2 - k1 - 1) + 1 + k1) by lia.
  remember (k2 - k1 - 1) as d eqn:Hd.
  rewrite (Z.pow_add_r 2 (d + 1) k1), (Z.pow_add_r 2 d 1) by lia.
  change (2 ^ 1) with 2.
  assert (0 < 2 ^ d) by (apply Z.pow_pos_nonneg; lia).
  assert (0 < 2 ^ k1) by (apply Z.pow_pos_nonneg; lia).
  rewrite Z.mul_assoc. apply Z.mul_lt_mono_pos_r; [assumption|].
  change (2 ^ 53) with (2 ^ 52 * 2) in H1. nia.
Qed.

Lemma normal_unique m1 e1 m2 e2 :
  2 ^ 52 <= Zpos m1 < 2 ^ 53 -> 2 ^ 52 <= Zpos m2 < 2 ^ 53 ->
  -1074 <= e1 -> -1074 <= e2 ->
  Zpos m1 * 2 ^ (e1 + 1074) = Zpos m2 * 2 ^ (e2 + 1074) ->
  m1 = m2 /\ e1 = e2.
Proof.
  intros H1 H2 L1 L2 E.
  assert (He : e1 = e2).
  { destruct (Z.lt_trichotomy e1 e2) as [L | [Q | G]]; [|assumption|]; exfalso.
    - pose proof (pow2_mantissa_lt (Zpos m1) (Zpos m2) (e1 + 1074) (e2 + 1074)
                    H1 H2 ltac:(lia)). lia.
    - pose proof (pow2_mantissa_lt (Zpos m2) (Zpos m1) (e2 + 1074) (e1 + 1074)
                    H2 H1 ltac:(lia)). lia. }
  split; [|assumption]. subst e2.
  assert (0 < 2 ^ (e1 + 1074)) by (apply Z.pow_pos_nonneg; lia).
  apply Z.mul_cancel_r in E; [|lia]. congruence.
Qed.

Lemma binary_round_exact s p N t :
  1 <= N < 2 ^ 53 -> 0 <= t <= 60 -> Zpos p = N * 2 ^ t ->
  exists m e,
    binary_round prec emax s p (- t) = S754_finite s m e
    /\ 2 ^ 52 <= Zpos m < 2 ^ 53 /\ -52 <= e <= 0
    /\ Zpos m * 2 ^ (e + 1074) = N * 2 ^ 1074.
Proof.
  intros HN Ht Hp.
  pose proof (Zdigits2_bounds N ltac:(lia)) as BN.
  set (d := Zdigits2 N) in *.
  assert (Hd : 1 <= d <= 53).
  { split; [unfold d; destruct N; cbn; lia|].
    destruct (Z.le_gt_cases d 53) as [L | G]; [assumption|].
    assert (2 ^ 53 <= 2 ^ (d - 1)) by (apply Z.pow_le_mono_r; lia). lia. }
  assert (Ht2 : 0 < 2 ^ t) by (apply Z.pow_pos_nonneg; lia).
  assert (Dp : Zpos (digits2_pos p) = d + t).
  { change (Zpos (digits2_pos p)) with (Zdigits2 (Zpos p)). rewrite Hp.
    apply Zdigits2_unique; [|lia].
    replace (d + t - 1) with ((d - 1) + t) by lia.
    rewrite !Z.pow_add_r by lia. nia. }
  set (c := N * 2 ^ (53 - d)).
  assert (Hs : 0 < 2 ^ (53 - d)) by (apply Z.pow_pos_nonneg; lia).
  assert (Bc : 2 ^ 52 <= c < 2 ^ 53).
  { assert (E1 : 2 ^ 52 = 2 ^ (d - 1) * 2 ^ (53 - d))
      by (rewrite <- Z.pow_add_r by lia; f_equal; lia).
    assert (E2 : 2 ^ 53 = 2 ^ d * 2 ^ (53 - d))
      by (rewrite <- Z.pow_add_r by lia; f_equal; lia).
    unfold c. rewrite E1, E2. split.
    - apply Z.mul_le_mono_nonneg_r; lia.
    - apply Z.mul_lt_mono_pos_r; lia. }
  assert (Vc : c * 2 ^ (d - 53 + 1074) = N * 2 ^ 1074).
  { unfold c. rewrite <- Z.mul_assoc, <- Z.pow_add_r by lia. do 2 f_equal. lia. }
  assert (Hf : fexp prec emax (Zpos (digits2_pos p) + - t) = d - 53).
  { unfold fexp, SpecFloat.emin. change prec with 53. change emax with 1024.
    rewrite Dp. lia. }
  unfold binary_round. rewrite Hf.
  destruct (Z.lt_ge_cases (d + t) 53) as [Lt | Ge].
  - (* the mantissa is shifted left to 53 bits *)
    destruct (shl_align_spec p (- t) (d - 53) ltac:(lia)) as [Hmz Hez].
    destruct (shl_align p (- t) (d - 53)) as [mz ez]. cbn [fst snd] in Hmz, Hez.
    subst ez.
    assert (Emz : Zpos mz = c).
    { rewrite Hmz, Hp. unfold c. rewrite <- Z.mul_assoc, <- Z.pow_add_r by lia.
      do 2 f_equal. lia. }
    rewrite binary_round_aux_exact by lia.
    exists mz, (d - 53). rewrite Emz. repeat split; try lia.
  - (* the low bits of the mantissa are zero *)
    assert (Esh : shl_align p (- t) (d - 53) = (p, - t)).
    { unfold shl_align. destruct (d - 53 - - t) as [| q | q] eqn:E; try reflexivity. lia. }
    rewrite Esh.
    assert (Ep : Zpos p = c * 2 ^ (d + t - 53)).
    { rewrite Hp. unfold c. rewrite <- Z.mul_assoc, <- Z.pow_add_r by lia.
      do 2 f_equal. lia. }
    rewrite Ep.
    destruct (binary_round_aux_exact_shift s c (d + t - 53) (- t) Bc ltac:(lia) ltac:(lia))
      as (m & Em & E).
    rewrite E. exists m, (- t + (d + t - 53)). rewrite <- Em.
    replace (- t + (d + t - 53)) with (d - 53) by lia.
    repeat split; try lia.
Qed.

Lemma number_of_Z_SF A :
  A <> 0 -> - 2 ^ 53 < A < 2 ^ 53 ->
  exists m e,
    Prim2SF (number_of_Z A) = S754_finite (A <? 0) m e
    /\ 2 ^ 52 <= Zpos m < 2 ^ 53 /\ -52 <= e <= 0
    /\ Zpos m * 2 ^ (e + 1074) = Z.abs A * 2 ^ 1074.
Proof.
  intros H0 HA.
  destruct (Prim2SF_number_of_Z (A <? 0) (Z.abs A) ltac:(lia))
    as (m & e & E & Bm & Be & V).
  replace (cond_Zopp (A <? 0) (Z.abs A)) with A in E
    by (destruct (Z.ltb_spec A 0); cbn [cond_Zopp]; lia).
  eauto 10.
Qed.

Lemma SF_is_number_of_Z s m e C :
  C <> 0 -> - 2 ^ 53 < C < 2 ^ 53 -> s = (C <? 0) ->
  2 ^ 52 <= Zpos m < 2 ^ 53 -> -1074 <= e ->
  Zpos m * 2 ^ (e + 1074) = Z.abs C * 2 ^ 1074 ->
  S754_finite s m e = Prim2SF (number_of_Z C).
Proof.
  intros H0 HC -> Bm Be V.
  destruct (number_of_Z_SF C H0 HC) as (m' & e' & E & Bm' & Be' & V').
  rewrite E. rewrite <- V' in V.
  destruct (normal_unique m e m' e' Bm Bm' Be ltac:(lia) V) as [-> ->].
  reflexivity.
Qed.

Lemma aligned_integer m e ez A :
  Zpos m * 2 ^ (e + 1074) = A * 2 ^ 1074 -> -52 <= ez <= e -> e <= 0 ->
  Zpos (fst (shl_align m e ez)) = A * 2 ^ (- ez).
Proof.
  intros V Hez He.
  destruct (shl_align_spec m e ez ltac:(lia)) as [-> _].
  assert (Hm : Zpos m = A * 2 ^ (- e)).
  { apply (Z.mul_cancel_r _ _ (2 ^ (e + 1074))).
    - apply Z.pow_nonzero; lia.
    - rewrite V, <- Z.mul_assoc, <- Z.pow_add_r by lia. do 2 f_equal. lia. }
  rewrite Hm, <- Z.mul_assoc, <- Z.pow_add_r by lia. do 2 f_equal. lia.
Qed.

(** Subtraction of integers below [2^53] is exact. *)
Lemma number_of_Z_sub A B :
  - 2 ^ 53 < A < 2 ^ 53 -> - 2 ^ 53 < B < 2 ^ 53 ->
  - 2 ^ 53 < A - B < 2 ^ 53 ->
  (number_of_Z A - number_of_Z B)%float = number_of_Z (A - B).
Proof.
  intros HA HB HD. apply Prim2SF_inj. rewrite sub_spec. unfold SF64sub.
  destruct (Z.eq_dec B 0) as [-> | B0].
  { rewrite Z.sub_0_r. change (Prim2SF (number_of_Z 0)) with (S754_zero false).
    destruct (Z.eq_dec A 0) as [-> | A0]; [reflexivity|].
    destruct (number_of_Z_SF A A0 HA) as (m & e & -> & _). reflexivity. }
  destruct (number_of_Z_SF B B0 HB) as (mb & eb & Eb & Bmb & Beb & Vb).
  destruct (Z.eq_dec A 0) as [-> | A0].
  { change (Prim2SF (number_of_Z 0)) with (S754_zero false). rewrite Eb.
    cbn [SFsub]. apply SF_is_number_of_Z; try lia;
      try (destruct (Z.ltb_spec B 0), (Z.ltb_spec (0 - B) 0); cbn [negb]; lia);
      try (rewrite Vb; f_equal; lia). }
  destruct (number_of_Z_SF A A0 HA) as (ma & ea & Ea & Bma & Bea & Va).
  rewrite Ea, Eb. cbn [SFsub].
  set (ez := Z.min ea eb).
  rewrite (aligned_integer ma ea ez (Z.abs A) Va ltac:(lia) ltac:(lia)).
  rewrite (aligned_integer mb eb ez (Z.abs B) Vb ltac:(lia) ltac:(lia)).
  assert (Ht : 0 < 2 ^ (- ez)) by (apply Z.pow_pos_nonneg; lia).
  assert (ED : cond_Zopp (A <? 0) (Z.abs A * 2 ^ (- ez))
               - cond_Zopp (B <? 0) (Z.abs B * 2 ^ (- ez))
               = (A - B) * 2 ^ (- ez)).
  { destruct (Z.ltb_spec A 0), (Z.ltb_spec B 0); cbn [cond_Zopp]; nia. }
  rewrite ED.
  destruct (Z.eq_dec (A - B) 0) as [E0 | N0].
  { rewrite E0. reflexivity. }
  destruct ((A - B) * 2 ^ (- ez)) as [| p | p] eqn:EP; cbn [binary_normalize].
  - nia.
  - assert (Hpos : 0 < A - B) by nia.
    replace ez with (- - ez) at 1 by lia.
    destruct (binary_round_exact false p (A - B) (- ez) ltac:(lia) ltac:(lia)
                ltac:(lia)) as (m & e & E & Bm & Be & V).
    rewrite E. apply SF_is_number_of_Z; try lia;
      try (symmetry; apply Z.ltb_ge; lia); try (rewrite V; f_equal; lia).
  - assert (Hneg : A - B < 0) by nia.
    replace ez with (- - ez) at 1 by lia.
    destruct (binary_round_exact true p (B - A) (- ez) ltac:(lia) ltac:(lia)
                ltac:(nia)) as (m & e & E & Bm & Be & V).
    rewrite E. apply SF_is_number_of_Z; try lia;
      try (symmetry; apply Z.ltb_lt; lia); try (rewrite V; f_equal; lia).
Qed.

(* ===================================================================== *)
(** * Part VI.  The auction engine                                        *)
(* ===================================================================== *)

Local Open Scope float_scope.

(** ** Activity window *)

Lemma AuctionStatus_eqb_eq a b : AuctionStatus_eqb a b = true <-> a = b.
Proof. destruct a, b; cbn; split; intros H; congruence. Qed.

(** C7.  [isAuctionActive] is true exactly when the status is open and the
    current time lies in the closed interval from [startTime] to [endTime];
    it is false for every closed auction whatever the time; and an open
    auction whose window is well formed (start not after end) is active at
    the start instant and at the end instant. *)
Theorem isAuctionActive_window :
  forall (now : Date) (a : AuctionState),
    (isAuctionActive now a = true <->
       status a = open
       /\ (getTime (startTime a) <=? getTime now) = true
       /\ (getTime now <=? getTime (endTime a)) = true)
    /\ (status a = closed -> isAuctionActive now a = false)
    /\ (status a = open ->
        (getTime (startTime a) <=? getTime (endTime a)) = true ->
        isAuctionActive (startTime a) a = true
        /\ isAuctionActive (endTime a) a = true).
Proof.
  intros now a. unfold isAuctionActive, Date_ge, Date_le, num_ge, num_le.
  split; [|split].
  - rewrite !andb_true_iff, AuctionStatus_eqb_eq. tauto.
  - intros Hs. rewrite Hs. reflexivity.
  - intros Hs Hw. rewrite Hs, Hw.
    destruct (leb_not_nan _ _ Hw) as [Hn1 Hn2].
    rewrite (leb_refl _ Hn1), (leb_refl _ Hn2). split; reflexivity.
Qed.

Lemma isAuctionActive_window_witness :
  isAuctionActive (startTime mockAuction) mockAuction = true
  /\ isAuctionActive (endTime mockAuction) mockAuction = true.
Proof.
  apply (proj2 (proj2 (isAuctionActive_window mockNow mockAuction)));
    reflexivity.
Defined.

(** ** Closing *)

(** C5.  Closing an auction whose status is closed fails with the error
    "Auction is already closed"; closing an open auction succeeds with the
    winning bid of [getWinningBid] (possibly none), final status closed and
    the number of bids in the auction, which is the [totalBids] field when
    that field is the length of the bid list; an open auction without bids
    closes successfully with no winner and a bid count of 0. *)
Theorem closeAuction_spec :
  forall a : AuctionState,
    (status a = closed ->
       closure_success (closeAuction a) = false
       /\ closure_error (closeAuction a) = Some (str "Auction is already closed"))
    /\ (status a = open ->
        closeAuction a =
          {| closure_success := true;
             winningBid := getWinningBid a;
             finalStatus := closed;
             closure_totalBids := number_of_nat (List.length (bids a));
             closure_error := None |})
    /\ (status a = open ->
        totalBids a = number_of_nat (List.length (bids a)) ->
        closure_totalBids (closeAuction a) = totalBids a)
    /\ (status a = open -> bids a = [] ->
        closeAuction a =
          {| closure_success := true;
             winningBid := None;
             finalStatus := closed;
             closure_totalBids := 0;
             closure_error := None |}).
Proof.
  intros a. unfold closeAuction. split; [|split; [|split]].
  - intros ->. split; reflexivity.
  - intros ->. reflexivity.
  - intros -> H. cbn [AuctionStatus_eqb closure_totalBids]. now rewrite H.
  - intros -> Hb. unfold getWinningBid. rewrite Hb. reflexivity.
Qed.

Lemma closeAuction_spec_witness :
  closeAuction mockAuction =
    {| closure_success := true;
       winningBid := None;
       finalStatus := closed;
       closure_totalBids := 0;
       closure_error := None |}.
Proof.
  apply (proj2 (proj2 (proj2 (closeAuction_spec mockAuction)))); reflexivity.
Defined.

(** ** Bid validation *)

Lemma validateBid_first_failing now a amount :
  isNaN amount = false ->
  isNaN (minimumBidCents a) = false ->
  isNaN (currentHighestBidCents a + bidIncrementCents a) = false ->
  validateBid now a amount = first_failing_check now a amount.
Proof.
  intros Ha Hm Hr.
  unfold validateBid, first_failing_check, check_active, check_minimum,
    check_increment, check_positive_integer, num_ge, num_gt, num_lt, num_le,
    reject, accept.
  rewrite (leb_negb_ltb amount (minimumBidCents a)) by assumption.
  rewrite (leb_negb_ltb amount (currentHighestBidCents a + bidIncrementCents a))
    by assumption.
  rewrite (leb_negb_ltb 0 amount) by (assumption || reflexivity).
  rewrite !negb_involutive, negb_andb. reflexivity.
Qed.

Lemma first_failing_check_success now a amount :
  success (first_failing_check now a amount)
  = check_active now a && check_minimum a amount
    && check_increment a amount && check_positive_integer amount.
Proof.
  unfold first_failing_check.
  destruct (check_active now a), (check_minimum a amount),
    (check_increment a amount), (check_positive_integer amount); reflexivity.
Qed.

Lemma validateBid_nan now a amount :
  isNaN amount = true -> isAuctionActive now a = true ->
  validateBid now a amount = reject msg_invalid_amount.
Proof.
  intros Ha Hact. unfold validateBid, num_lt. rewrite Hact. cbn [negb].
  rewrite !ltb_ord, Ha. cbn [orb negb andb].
  rewrite (isNaN_not_integer _ Ha). reflexivity.
Qed.

(** C1 (as amended).  [validateBid] runs four checks in the order: auction
    active, [amount >= minimumBid], [amount >= currentHighestBid +
    bidIncrement], amount a positive integer.  For every auction whose two
    thresholds are numbers and every amount that is a number (not NaN), the
    result is the rejection reason of the first failing check, with the
    threshold in the message, and success exactly when the four checks pass.
    Checks two and three are the tests [amount < threshold], so a NaN
    amount passes them and is rejected by the fourth check, as an invalid
    amount.  For an active auction with minimum 10000, increment 500 and
    highest bid 12000, an amount of 12200 is rejected as below the
    increment, the message naming 125.00 (12500 centavos), and 12500 is
    accepted. *)
Theorem validateBid_checks_in_order :
  forall (now : Date) (a : AuctionState) (amount : number),
    (isNaN amount = false ->
     isNaN (minimumBidCents a) = false ->
     isNaN (currentHighestBidCents a + bidIncrementCents a) = false ->
     validateBid now a amount = first_failing_check now a amount
     /\ success (validateBid now a amount)
        = check_active now a && check_minimum a amount
          && check_increment a amount && check_positive_integer amount)
    /\ (isNaN amount = true -> isAuctionActive now a = true ->
        validateBid now a amount = reject (str "Invalid bid amount"))
    /\ (isAuctionActive now a = true ->
        minimumBidCents a = 10000 -> bidIncrementCents a = 500 ->
        currentHighestBidCents a = 12000 ->
        validateBid now a 12200
        = reject (str "Bid must be at least $125.00 (current high + increment)")
        /\ validateBid now a 12500 = accept).
Proof.
  intros now a amount. split; [|split].
  - intros Ha Hm Hr.
    rewrite (validateBid_first_failing now a amount Ha Hm Hr).
    split; [reflexivity | apply first_failing_check_success].
  - apply validateBid_nan.
  - intros Hact Hm Hi Hc. unfold validateBid. rewrite Hact, Hm, Hi, Hc.
    split; reflexivity.
Qed.

Lemma validateBid_checks_in_order_witness :
  validateBid mockNow mockAuction 13000
    = first_failing_check mockNow mockAuction 13000
  /\ validateBid mockNow mockAuction 12200
     = reject (str "Bid must be at least $125.00 (current high + increment)")
  /\ validateBid mockNow mockAuction 12500 = accept.
Proof.
  split.
  - apply (proj1 (validateBid_checks_in_order mockNow mockAuction 13000));
      reflexivity.
  - apply (proj2 (proj2 (validateBid_checks_in_order mockNow mockAuction 0)));
      reflexivity.
Defined.

(** C1, as stated, fails for the amount NaN: on the active auction of the
    test suite [NaN >= 10000] is false, so the first failing check is the
    minimum, yet [validateBid] reports an invalid amount. *)
Lemma validateBid_nan_counterexample :
  check_active mockNow mockAuction = true
  /\ check_minimum mockAuction nan = false
  /\ first_failing_check mockNow mockAuction nan
     = reject (str "Bid must be at least $100.00")
  /\ validateBid mockNow mockAuction nan = reject (str "Invalid bid amount")
  /\ validateBid mockNow mockAuction nan
     <> first_failing_check mockNow mockAuction nan.
Proof.
  repeat split; try reflexivity.
  vm_compute. discriminate.
Qed.







(** ** Adding a bid *)

Lemma validateBid_reason now a amount :
  success (validateBid now a amount) = false ->
  exists reason, validateBid now a amount = reject reason.
Proof.
  unfold validateBid, reject.
  destruct (negb (isAuctionActive now a)); [eauto|].
  destruct (num_lt amount (minimumBidCents a)); [eauto|].
  destruct (num_lt amount _); [eauto|].
  destruct (negb (Number_isInteger amount) || num_le amount 0); [eauto|].
  discriminate.
Qed.

Lemma validateBid_accepts now a amount :
  success (validateBid now a amount) = true ->
  isAuctionActive now a = true
  /\ Number_isInteger amount = true
  /\ (0 <? amount) = true
  /\ (amount <? minimumBidCents a) = false
  /\ (amount <? currentHighestBidCents a + bidIncrementCents a) = false.
Proof.
  unfold validateBid, num_lt, num_le.
  destruct (isAuctionActive now a); [|discriminate]. cbn [negb].
  destruct (amount <? minimumBidCents a); [discriminate|].
  destruct (amount <? _); [discriminate|].
  destruct (Number_isInteger amount) eqn:I; [|discriminate]. cbn [negb orb].
  destruct (amount <=? 0) eqn:L; [discriminate|]. intros _.
  pose proof (Number_isInteger_not_nan _ I). pose proof ord_zero.
  repeat split; try reflexivity. num_order.
Qed.

(** C4 (as amended).  [addBidToAuction] throws exactly when [validateBid]
    rejects the amount of the bid, and the error carries the rejection
    reason; when the amount is accepted it returns a state whose bid list is
    the old list with the bid appended, whose highest bid is
    [Math.max] of the old highest bid and the amount (the larger of the two
    when the old one is a number), whose [totalBids] is the length of the
    new bid list (the old length plus one, whatever the old [totalBids]
    field was), and whose other fields are those of the auction. *)
Theorem addBidToAuction_spec :
  forall (now : Date) (a : AuctionState) (bid : Bid),
    (throws (addBidToAuction now a bid)
       <-> success (validateBid now a (bidAmountCents bid)) = false)
    /\ (forall reason,
          validateBid now a (bidAmountCents bid) = reject reason ->
          addBidToAuction now a bid = Throw reason)
    /\ (success (validateBid now a (bidAmountCents bid)) = true ->
        exists a',
          addBidToAuction now a bid = Return a'
          /\ bids a' = bids a ++ [bid]
          /\ currentHighestBidCents a'
             = Math_max (currentHighestBidCents a) (bidAmountCents bid)
          /\ (isNaN (currentHighestBidCents a) = false ->
              ord (currentHighestBidCents a')
              = Z.max (ord (currentHighestBidCents a))
                      (ord (bidAmountCents bid)))
          /\ totalBids a' = number_of_nat (List.length (bids a) + 1)
          /\ lotId a' = lotId a /\ status a' = status a
          /\ startTime a' = startTime a /\ endTime a' = endTime a
          /\ minimumBidCents a' = minimumBidCents a
          /\ bidIncrementCents a' = bidIncrementCents a).
Proof.
  intros now a bid. unfold addBidToAuction. split; [|split].
  - destruct (success (validateBid now a (bidAmountCents bid))); cbn [negb].
    + split; [intros [m Hm]; discriminate | discriminate].
    + split; [reflexivity | intros _; eexists; reflexivity].
  - intros reason ->. reflexivity.
  - intros Hs. rewrite Hs. cbn [negb]. eexists. split; [reflexivity|].
    cbn [bids currentHighestBidCents totalBids lotId status startTime endTime
         minimumBidCents bidIncrementCents].
    rewrite length_app, Nat.add_comm. cbn [List.length Nat.add].
    repeat split; try reflexivity.
    + intros Hc. apply validateBid_accepts in Hs.
      destruct Hs as (_ & I & _). apply Number_isInteger_not_nan in I.
      now apply Math_max_cases.
    + now rewrite Nat.add_comm.
Qed.

Lemma addBidToAuction_spec_witness :
  exists a',
    addBidToAuction mockNow mockAuction mockBid = Return a'
    /\ bids a' = [mockBid]
    /\ currentHighestBidCents a' = 13000
    /\ totalBids a' = 1.
Proof.
  destruct (proj2 (proj2 (addBidToAuction_spec mockNow mockAuction mockBid))
              eq_refl) as (a' & H & Hb & Hc & _ & Ht & _).
  exists a'. repeat split; assumption.
Defined.

(** C4, as stated, fails on the auction of the test suite, whose
    [totalBids] field is 1 while it holds no bid: the accepted bid gives a
    state with [totalBids] 1, not the old [totalBids] plus one. *)
Lemma addBidToAuction_totalBids_counterexample :
  success (validateBid mockNow mockAuction (bidAmountCents mockBid)) = true
  /\ exists a',
       addBidToAuction mockNow mockAuction mockBid = Return a'
       /\ totalBids a' = 1
       /\ totalBids mockAuction + 1 = 2
       /\ (totalBids a' =? totalBids mockAuction + 1) = false.
Proof.
  split; [reflexivity|]. eexists. split; [reflexivity|].
  repeat split; reflexivity.
Qed.

(** ** Invariants of the auction state *)

Lemma eqb_refl_number x : isNaN x = false -> (x =? x) = true.
Proof. intros H. num_order. Qed.

Lemma is_highest_amount_snoc l m bid :
  is_highest_amount l m ->
  isNaN (bidAmountCents bid) = false ->
  (0 <? bidAmountCents bid) = true ->
  is_highest_amount (l ++ [bid]) (Math_max m (bidAmountCents bid)).
Proof.
  intros Hl Hn Hpos.
  assert (Hm : isNaN m = false).
  { destruct l as [| b0 l0]; cbn [is_highest_amount] in Hl.
    - num_order.
    - destruct Hl as [(b & _ & Hb) _]. num_order. }
  destruct (Math_max_cases m (bidAmountCents bid) Hm Hn) as [Hcase Hord].
  assert (Hmax : isNaN (Math_max m (bidAmountCents bid)) = false)
    by now apply Math_max_not_nan.
  set (m' := Math_max m (bidAmountCents bid)) in *.
  assert (Hshape : is_highest_amount (l ++ [bid]) m' <->
            (exists b, In b (l ++ [bid]) /\ (bidAmountCents b =? m') = true)
            /\ (forall b, In b (l ++ [bid]) -> (bidAmountCents b <=? m') = true)).
  { destruct l; cbn [app is_highest_amount]; tauto. }
  apply Hshape. clear Hshape. split.
  - destruct l as [| b0 l0].
    + exists bid. split; [now left|].
      cbn [is_highest_amount] in Hl. pose proof ord_zero. num_order.
    + destruct Hl as [(b & Hin & Hb) _].
      destruct Hcase as [E | E].
      * exists b. split; [apply in_or_app; now left|]. now rewrite E.
      * exists bid. split; [apply in_or_app; right; now left|].
        rewrite E. now apply eqb_refl_number.
  - intros b Hin. apply in_app_or in Hin. destruct Hin as [Hin | [<- | []]].
    + destruct l as [| b0 l0]; [destruct Hin|].
      destruct Hl as [_ Hall]. specialize (Hall b Hin). num_order.
    + num_order.
Qed.

(** C6.  A successful [addBidToAuction] preserves the invariants of the
    auction state: when [currentHighestBidCents] is the highest amount among
    the bids (0 when there is none) and [totalBids] is the length of the bid
    list, and [validateBid] accepts the amount of the bid, the returned
    state satisfies both invariants for the extended bid list. *)
Theorem addBidToAuction_preserves_invariant :
  forall (now : Date) (a : AuctionState) (bid : Bid),
    AuctionState_invariant a ->
    success (validateBid now a (bidAmountCents bid)) = true ->
    exists a',
      addBidToAuction now a bid = Return a'
      /\ bids a' = bids a ++ [bid]
      /\ AuctionState_invariant a'.
Proof.
  intros now a bid [Hmax Hlen] Hs.
  unfold addBidToAuction. rewrite Hs. cbn [negb].
  eexists. split; [reflexivity|]. split; [reflexivity|].
  unfold AuctionState_invariant. cbn [bids currentHighestBidCents totalBids].
  split; [|reflexivity].
  apply validateBid_accepts in Hs. destruct Hs as (_ & I & Hpos & _).
  apply is_highest_amount_snoc; auto using Number_isInteger_not_nan.
Qed.

Lemma addBidToAuction_preserves_invariant_witness :
  exists a',
    addBidToAuction mockNow freshAuction mockBid = Return a'
    /\ bids a' = [mockBid]
    /\ AuctionState_invariant a'.
Proof.
  exact (addBidToAuction_preserves_invariant mockNow freshAuction mockBid
           (conj eq_refl eq_refl) eq_refl).
Defined.

(** ** The winning bid *)

Lemma compareBids_pos a b :
  (0 <? compareBids a b)
  = if negb (bidAmountCents a =? bidAmountCents b)
    then bidAmountCents a <? bidAmountCents b
    else getTime (timestamp b) <? getTime (timestamp a).
Proof.
  unfold compareBids, num_strict_ne.
  destruct (negb (bidAmountCents a =? bidAmountCents b)); apply sub_pos.
Qed.

Lemma compareBids_bid_le a b :
  comparable a -> comparable b ->
  ((0 <? compareBids a b) = false <-> bid_le a b).
Proof.
  intros [Ha Ta] [Hb Tb]. rewrite compareBids_pos. unfold bid_le.
  destruct (bidAmountCents a =? bidAmountCents b) eqn:E; cbn [negb];
    split; intros H; num_order.
Qed.

Lemma bid_le_total a b : bid_le a b \/ bid_le b a.
Proof. unfold bid_le. lia. Qed.

Lemma bid_le_trans a b c : bid_le a b -> bid_le b c -> bid_le a c.
Proof. unfold bid_le. lia. Qed.

Lemma bid_le_refl a : bid_le a a.
Proof. unfold bid_le. lia. Qed.

Lemma sort_insert_perm x l :
  Permutation (x :: l) (sort_insert compareBids x l).
Proof.
  induction l as [| y l IH]; cbn [sort_insert]; [reflexivity|].
  destruct (0 <? compareBids x y); [|reflexivity].
  rewrite perm_swap. now apply perm_skip.
Qed.

Lemma Array_sort_perm l : Permutation l (Array_sort compareBids l).
Proof.
  induction l as [| x l IH]; cbn [Array_sort fold_right]; [reflexivity|].
  rewrite <- sort_insert_perm. now apply perm_skip.
Qed.

Lemma sort_insert_sorted x l :
  comparable x -> (forall y, In y l -> comparable y) ->
  sorted_bids l -> sorted_bids (sort_insert compareBids x l).
Proof.
  intros Hx. induction l as [| y l IH]; intros Hl Hs; cbn [sort_insert].
  - cbn. tauto.
  - destruct Hs as [Hy Hs].
    assert (Cy : comparable y) by (apply Hl; now left).
    destruct (0 <? compareBids x y) eqn:E.
    + split.
      * intros z Hz.
        apply (Permutation_in _ (Permutation_sym (sort_insert_perm x l))) in Hz.
        destruct Hz as [<- | Hz]; [|now apply Hy].
        destruct (bid_le_total y x) as [H | H]; [assumption|].
        apply (compareBids_bid_le x y Hx Cy) in H. congruence.
      * apply IH; [|assumption]. intros z Hz. apply Hl. now right.
    + apply (compareBids_bid_le x y Hx Cy) in E.
      split; [|split; assumption].
      intros z [<- | Hz]; [assumption|].
      apply bid_le_trans with y; auto.
Qed.

Lemma Array_sort_sorted l :
  comparable_bids l -> sorted_bids (Array_sort compareBids l).
Proof.
  induction l as [| x l IH]; intros Hl; cbn [Array_sort fold_right].
  - exact I.
  - apply sort_insert_sorted.
    + apply Hl. now left.
    + intros y Hy. apply Hl. right.
      now apply (Permutation_in _ (Permutation_sym (Array_sort_perm l))).
    + apply IH. intros y Hy. apply Hl. now right.
Qed.

Lemma getWinningBid_head a :
  getWinningBid a = List.nth_error (Array_sort compareBids (bids a)) 0.
Proof.
  unfold getWinningBid. destruct (bids a); reflexivity.
Qed.

Lemma getWinningBid_first a w :
  comparable_bids (bids a) -> getWinningBid a = Some w ->
  In w (bids a) /\ forall b, In b (bids a) -> bid_le w b.
Proof.
  intros Hc. rewrite getWinningBid_head.
  pose proof (Array_sort_perm (bids a)) as P.
  pose proof (Array_sort_sorted (bids a) Hc) as S.
  destruct (Array_sort compareBids (bids a)) as [| h t]; [discriminate|].
  cbn [nth_error]. intros E. injection E as <-.
  destruct S as [S _]. split.
  - apply (Permutation_in _ (Permutation_sym P)). now left.
  - intros b Hb. apply (Permutation_in _ P) in Hb.
    destruct Hb as [<- | Hb]; [apply bid_le_refl | now apply S].
Qed.

Lemma getWinningBid_unique l a w :
  bids a = l -> comparable_bids l -> In w l ->
  (forall b, In b l -> b = w \/ beats w b = true) ->
  getWinningBid a = Some w.
Proof.
  intros <- Hc Hw Hu.
  destruct (getWinningBid a) as [w' |] eqn:E.
  - destruct (getWinningBid_first a w' Hc E) as [Hin Hle].
    destruct (Hu w' Hin) as [-> | Hb]; [reflexivity|].
    specialize (Hle w Hw). exfalso.
    destruct (Hc w Hw) as [? ?]. destruct (Hc w' Hin) as [? ?].
    unfold beats in Hb. unfold bid_le in Hle.
    apply orb_true_iff in Hb. destruct Hb as [Hb | Hb].
    + num_order.
    + apply andb_true_iff in Hb. destruct Hb as [Hb1 Hb2]. num_order.
  - rewrite getWinningBid_head in E.
    pose proof (Array_sort_perm (bids a)) as P.
    destruct (Array_sort compareBids (bids a)); [|discriminate].
    apply Permutation_sym, Permutation_nil in P. rewrite P in Hw. destruct Hw.
Qed.

(** C3 (as amended).  [getWinningBid] returns null exactly when the auction
    has no bid.  Otherwise, when the amount and the time stamp of every bid
    are numbers (not NaN), the result is a bid of the auction with the
    highest amount, and no bid of that amount has an earlier time stamp.
    Hence, when one bid wins against every other bid by amount or by time
    stamp, it is the result for every permutation of the bid list. *)
Theorem getWinningBid_spec :
  forall a : AuctionState,
    (getWinningBid a = None <-> bids a = [])
    /\ (comparable_bids (bids a) ->
        forall w, getWinningBid a = Some w ->
          In w (bids a)
          /\ (forall b, In b (bids a) ->
                (bidAmountCents b <=? bidAmountCents w) = true)
          /\ (forall b, In b (bids a) ->
                (bidAmountCents b =? bidAmountCents w) = true ->
                (getTime (timestamp w) <=? getTime (timestamp b)) = true))
    /\ (comparable_bids (bids a) ->
        forall w l',
          In w (bids a) ->
          (forall b, In b (bids a) -> b = w \/ beats w b = true) ->
          Permutation (bids a) l' ->
          getWinningBid a = Some w
          /\ getWinningBid (with_bids a l') = Some w).
Proof.
  intros a. split; [|split].
  - rewrite getWinningBid_head.
    pose proof (Array_sort_perm (bids a)) as P.
    destruct (bids a) as [| b l] eqn:E.
    + split; reflexivity.
    + split; [|discriminate].
      destruct (Array_sort compareBids (b :: l)); [|discriminate].
      now apply Permutation_sym, Permutation_nil in P.
  - intros Hc w Hw.
    destruct (getWinningBid_first a w Hc Hw) as [Hin Hle].
    split; [assumption|]. destruct (Hc w Hin) as [? ?]. split.
    + intros b Hb. specialize (Hle b Hb). destruct (Hc b Hb) as [? ?].
      unfold bid_le in Hle. num_order.
    + intros b Hb Heq. specialize (Hle b Hb). destruct (Hc b Hb) as [? ?].
      unfold bid_le in Hle. num_order.
  - intros Hc w l' Hw Hu P. split.
    + now apply (getWinningBid_unique (bids a)).
    + apply (getWinningBid_unique l'); [reflexivity| | |].
      * intros b Hb. apply Hc. now apply (Permutation_in _ (Permutation_sym P)).
      * now apply (Permutation_in _ P).
      * intros b Hb. apply Hu. now apply (Permutation_in _ (Permutation_sym P)).
Qed.

Lemma getWinningBid_spec_witness :
  getWinningBid tieAuction = Some tieEarly
  /\ getWinningBid (with_bids tieAuction [tieEarly; tieLate]) = Some tieEarly.
Proof.
  apply (proj2 (proj2 (getWinningBid_spec tieAuction))).
  - intros b [<- | [<- | []]]; split; reflexivity.
  - right. left. reflexivity.
  - intros b [<- | [<- | []]]; [right; reflexivity | left; reflexivity].
  - apply perm_swap.
Defined.

(** C3, as stated, fails when a bid has the amount NaN: the comparator
    returns NaN, which the sort reads as "equal", so the bid that comes
    first stays first and is returned although a bid of 13000 exists. *)
Lemma getWinningBid_nan_counterexample :
  getWinningBid nanAuction = Some nanBid
  /\ In mockBid (bids nanAuction)
  /\ (bidAmountCents mockBid <=? bidAmountCents nanBid) = false
  /\ isNaN (compareBids nanBid mockBid) = true.
Proof.
  split; [reflexivity|]. split; [right; left; reflexivity|].
  split; reflexivity.
Qed.

(* ===================================================================== *)
(** * Part VII.  The settlement calculator                                *)
(* ===================================================================== *)

(** ** Commission and settlement *)

Local Open Scope Z_scope.

Lemma Prim2SF_6_percent :
  Prim2SF 0.06 = S754_finite false 8646911284551352 (-57).
Proof. reflexivity. Qed.

(** The commission on an integer gross amount [G] below [2^50] is an
    integer [n] within 0.52 of six percent of [G]. *)
Lemma calculateCommission_integer G :
  0 <= G < 2 ^ 50 ->
  exists n,
    calculateCommission (number_of_Z G) = number_of_Z n
    /\ -52 <= 100 * n - 6 * G <= 52.
Proof.
  intros HG. destruct (Z.eq_dec G 0) as [-> | G0].
  { exists 0. split; [reflexivity | lia]. }
  unfold calculateCommission.
  destruct (Prim2SF_number_of_Z false G ltac:(lia)) as (mg & eg & Eg & Bmg & Beg & Vg).
  cbn [cond_Zopp] in Eg.
  pose proof (mul_spec (number_of_Z G) 0.06) as Hy.
  rewrite Eg, Prim2SF_6_percent in Hy. unfold SF64mul in Hy.
  destruct (SFmul_interval false mg eg 8646911284551352 (-57)
              Bmg ltac:(lia) ltac:(lia) ltac:(lia))
    as (my & ey & p & T' & Ey & Bmy & Bey & Bp & HT' & Hyv & Hyp).
  rewrite Ey in Hy.
  unfold Math_round. rewrite Hy.
  replace (0 <=? ey) with false by (symmetry; apply Z.leb_gt; lia).
  cbn [cond_Zopp].
  set (t := 2 ^ (ey + 1074)) in *. set (E := 2 ^ (- ey)).
  assert (Ht : 0 < t) by (apply Z.pow_pos_nonneg; lia).
  assert (HE : 0 < E) by (apply Z.pow_pos_nonneg; lia).
  assert (HUE : 2 ^ 1074 = E * t).
  { unfold E, t. rewrite <- Z.pow_add_r by lia. f_equal. lia. }
  replace (2 ^ (1 - ey)) with (2 * E)
    by (unfold E; replace (1 - ey) with (1 + - ey) by lia;
        rewrite Z.pow_add_r by lia; reflexivity).
  set (n := (2 * Zpos my + E) / (2 * E)).
  pose proof (Z.div_mod (2 * Zpos my + E) (2 * E) ltac:(lia)) as Hdm.
  pose proof (Z.mod_pos_bound (2 * Zpos my + E) (2 * E) ltac:(lia)) as Hmb.
  fold n in Hdm.
  exists n. split.
  { destruct (Z.eqb_spec n 0) as [-> | _]; reflexivity. }
  (* the exact product, scaled: [W * 2^57 = G * 2^1074 * m] *)
  assert (HW : Zpos mg * 8646911284551352 * 2 ^ (eg + -57 + 1074) * 2 ^ 57
               = G * 2 ^ 1074 * 8646911284551352).
  { rewrite <- Vg. replace (eg + 1074) with (57 + (eg + -57 + 1074)) by lia.
    rewrite (Z.pow_add_r 2 57) by lia. ring. }
  assert (HGU : (G + 1) * 2 ^ 1074 <= 2 ^ 50 * 2 ^ 1074)
    by (apply Z.mul_le_mono_nonneg_r; lia).
  replace ((G + 1) * 2 ^ 1074) with (G * 2 ^ 1074 + 2 ^ 1074) in HGU by ring.
  assert (HB : 2 ^ 52 * T' <= p * T') by (apply Z.mul_le_mono_nonneg_r; lia).
  assert (Hn1 : 2 * (n * (E * t)) <= 2 * (Zpos my * t) + E * t).
  { replace (2 * (n * (E * t))) with ((2 * E * n) * t) by ring.
    replace (2 * (Zpos my * t) + E * t) with ((2 * Zpos my + E) * t) by ring.
    apply Z.mul_le_mono_nonneg_r; lia. }
  assert (Hn2 : 2 * (Zpos my * t) + E * t < 2 * (n * (E * t)) + 2 * (E * t)).
  { replace (2 * (n * (E * t)) + 2 * (E * t)) with ((2 * E * n + 2 * E) * t) by ring.
    replace (2 * (Zpos my * t) + E * t) with ((2 * Zpos my + E) * t) by ring.
    apply Z.mul_lt_mono_pos_r; lia. }
  rewrite <- HUE in Hn1, Hn2.
  assert (HU : 0 < 2 ^ 1074) by (apply Z.pow_pos_nonneg; lia).
  set (U := 2 ^ 1074) in *. set (GU := G * U) in *. set (nU := n * U) in *.
  set (Y := Zpos my * t) in *.
  set (W := Zpos mg * 8646911284551352 * 2 ^ (eg + -57 + 1074)) in *.
  set (B := p * T') in *.
  replace ((p + 1) * T') with (B + T') in * by (unfold B; ring).
  change (2 ^ 57) with 144115188075855872 in HW.
  change (2 ^ 52) with 4503599627370496 in HB.
  change (2 ^ 50) with 1125899906842624 in HGU.
  assert (R1 : -52 * U <= 100 * nU - 6 * GU) by lia.
  assert (R2 : 100 * nU - 6 * GU <= 52 * U) by lia.
  unfold nU, GU in R1, R2.
  replace (100 * (n * U) - 6 * (G * U)) with ((100 * n - 6 * G) * U) in R1, R2
    by ring.
  split.
  - apply (Z.mul_le_mono_pos_r _ _ U); assumption.
  - apply (Z.mul_le_mono_pos_r _ _ U); assumption.
Qed.

Local Open Scope float_scope.

Lemma number_2500 : 2500%float = number_of_Z 2500.
Proof. reflexivity. Qed.




(** ** Parsing money strings *)

Lemma parse_unsigned_not_nan s v rest :
  parse_unsigned s = Some (v, rest) -> isNaN v = false.
Proof.
  unfold parse_unsigned.
  destruct (jsstring_eqb _ _).
  - intros E. injection E as <- _. reflexivity.
  - destruct (span_digits s) as [ip s1].
    destruct (match s1 with
              | 46%N :: s1' => let (fp, s2) := span_digits s1' in (fp, s2, true)
              | _ => ([], s1, false)
              end) as [[fp s2] dot].
    destruct (parse_exponent s2) as [ex r].
    destruct ip, fp; try discriminate;
      intros E; injection E as <- _; apply number_of_decimal_not_nan.
Qed.

Lemma parse_decimal_literal_not_nan s v rest :
  parse_decimal_literal s = Some (v, rest) -> isNaN v = false.
Proof.
  unfold parse_decimal_literal.
  destruct s as [| c s'].
  - apply parse_unsigned_not_nan.
  - destruct (N.eq_dec c 43) as [-> | N1].
    + apply parse_unsigned_not_nan.
    + destruct (N.eq_dec c 45) as [-> | N2].
      * destruct (parse_unsigned s') as [[v' r'] |] eqn:E; [|discriminate].
        intros H. injection H as <- _. rewrite isNaN_opp.
        now apply parse_unsigned_not_nan in E.
      * intros H.
        assert (H' : parse_unsigned (c :: s') = Some (v, rest)).
        { destruct c as [| p]; [exact H|].
          do 6 (destruct p as [p | p |]; try exact H); try exact H;
            exfalso; auto. }
        now apply parse_unsigned_not_nan in H'.
Qed.

Lemma skip_whitespace_stripped s :
  skip_whitespace (strip_money_chars s) = strip_money_chars s.
Proof.
  induction s as [| c s IH]; [reflexivity|].
  unfold strip_money_chars in *. cbn [filter].
  destruct (in_strip_class c) eqn:C; cbn [negb]; [exact IH|].
  cbn [skip_whitespace]. unfold in_strip_class in C.
  apply orb_false_iff in C. destruct C as [_ ->]. reflexivity.
Qed.

Lemma strip_money_chars_spec s :
  Forall (fun c => c <> peso_sign /\ c <> comma /\ is_whitespace c = false)
         (strip_money_chars s)
  /\ strip_money_chars s = filter (fun c => negb (in_strip_class c)) s.
Proof.
  split; [|reflexivity]. apply Forall_forall. intros c Hc.
  apply filter_In in Hc. destruct Hc as [_ Hc].
  apply negb_true_iff in Hc. unfold in_strip_class in Hc.
  apply orb_false_iff in Hc. destruct Hc as [Hc Hw].
  apply orb_false_iff in Hc. destruct Hc as [Hp Hcm].
  apply N.eqb_neq in Hp. apply N.eqb_neq in Hcm. auto.
Qed.

Lemma parseFloat_stripped s :
  parseFloat (strip_money_chars s)
  = match parse_decimal_literal (strip_money_chars s) with
    | Some (v, _) => v
    | None => nan
    end.
Proof. unfold parseFloat. now rewrite skip_whitespace_stripped. Qed.

(** C9 (as amended).  [parseMoneyString] removes every peso sign, comma and
    white-space character, reads the longest prefix of the remaining text
    that is a decimal literal, and returns [Math.round] of its value times
    100; text after that prefix is ignored.  It throws "Invalid money
    format" exactly when no prefix of the cleaned text is a decimal
    literal, and has no other failure.  In particular a cleaned text that
    is a decimal literal as a whole is converted. *)
Theorem parseMoneyString_spec :
  forall s : jsstring,
    (throws (parseMoneyString s)
       <-> parse_decimal_literal (strip_money_chars s) = None)
    /\ (parse_decimal_literal (strip_money_chars s) = None ->
        parseMoneyString s = Throw (str "Invalid money format"))
    /\ (forall v rest,
          parse_decimal_literal (strip_money_chars s) = Some (v, rest) ->
          isNaN v = false
          /\ parseMoneyString s = Return (Math_round (v * 100)))
    /\ (is_decimal_text (strip_money_chars s) ->
        exists v,
          parse_decimal_literal (strip_money_chars s) = Some (v, [])
          /\ parseMoneyString s = Return (Math_round (v * 100)))
    /\ Forall (fun c => c <> peso_sign /\ c <> comma /\ is_whitespace c = false)
              (strip_money_chars s).
Proof.
  intros s.
  assert (Hsome : forall v rest,
            parse_decimal_literal (strip_money_chars s) = Some (v, rest) ->
            isNaN v = false
            /\ parseMoneyString s = Return (Math_round (v * 100))).
  { intros v rest E. pose proof (parse_decimal_literal_not_nan _ _ _ E) as N.
    split; [assumption|].
    unfold parseMoneyString. rewrite parseFloat_stripped, E, N. reflexivity. }
  assert (Hnone : parse_decimal_literal (strip_money_chars s) = None ->
            parseMoneyString s = Throw (str "Invalid money format")).
  { intros E. unfold parseMoneyString. rewrite parseFloat_stripped, E.
    reflexivity. }
  split; [|split; [|split; [|split]]].
  - split.
    + intros [m Hm].
      destruct (parse_decimal_literal (strip_money_chars s)) as [[v r] |] eqn:E;
        [|reflexivity].
      destruct (Hsome v r eq_refl) as [_ H]. rewrite H in Hm. discriminate.
    + intros E. eexists. now apply Hnone.
  - exact Hnone.
  - exact Hsome.
  - intros [v E]. exists v. split; [assumption|]. now apply (Hsome v []).
  - apply strip_money_chars_spec.
Qed.

Lemma parseMoneyString_spec_witness :
  parseMoneyString (peso_sign :: str "1,234.56") = Return 123456
  /\ parseMoneyString (str "$abc.def") = Throw (str "Invalid money format").
Proof.
  split.
  - destruct (proj1 (proj2 (proj2 (proj2
               (parseMoneyString_spec (peso_sign :: str "1,234.56")))))
               (ex_intro _ (parseFloat (str "1234.56")) eq_refl))
      as (v & E & H).
    vm_compute in E. injection E as <-. exact H.
  - apply (proj1 (proj2 (parseMoneyString_spec (str "$abc.def")))).
    reflexivity.
Defined.

(** C9, as stated, fails on ["12abc"]: the cleaned text is not a decimal
    number, yet nothing is thrown and 1200 is returned, the value of the
    prefix ["12"]. *)
Lemma parseMoneyString_prefix_counterexample :
  strip_money_chars (str "12abc") = str "12abc"
  /\ ~ is_decimal_text (strip_money_chars (str "12abc"))
  /\ parseMoneyString (str "12abc") = Return 1200
  /\ ~ throws (parseMoneyString (str "12abc")).
Proof.
  split; [reflexivity|]. split; [|split].
  - intros [v H]. vm_compute in H. discriminate.
  - reflexivity.
  - intros [m H]. vm_compute in H. discriminate.
Qed.

(** ** Conversions between pesos and centavos *)

Local Open Scope Z_scope.

Lemma Prim2SF_100 : Prim2SF 100 = S754_finite false 7036874417766400 (-46).
Proof. reflexivity. Qed.

(** For an integer count of centavos below [2^50] in magnitude, the amount
    written with two decimals, multiplied by 100, rounds back to the
    count. *)
Lemma pesosTocentavos_signed s k :
  1 <= k < 2 ^ 50 ->
  pesosTocentavos (two_decimals (cond_Zopp s k))
  = number_of_Z (cond_Zopp s k).
Proof.
  intros Hk. unfold pesosTocentavos, two_decimals.
  destruct (Prim2SF_number_of_Z s k ltac:(lia)) as (mc & ec & Ec & Bmc & Bec & Vc).
  pose proof (div_spec (number_of_Z (cond_Zopp s k)) 100) as Hx.
  rewrite Ec, Prim2SF_100 in Hx. unfold SF64div in Hx.
  destruct (SFdiv_interval s mc ec 7036874417766400 (-46)
              Bmc ltac:(lia) ltac:(lia) ltac:(lia))
    as (mx & ex & q & T & Ex & Bmx & Bex & Bq & HT & Hxv & Hxq).
  rewrite Ex in Hx.
  pose proof (mul_spec (number_of_Z (cond_Zopp s k) / 100) 100) as Hy.
  rewrite Hx, Prim2SF_100 in Hy. unfold SF64mul in Hy.
  destruct (SFmul_interval s mx ex 7036874417766400 (-46)
              Bmx ltac:(lia) ltac:(lia) ltac:(lia))
    as (my & ey & p & T' & Ey & Bmy & Bey & Bp & HT' & Hyv & Hyp).
  rewrite Ey in Hy.
  (* the exact quotient [k / 100] and the exact product [100 * x] *)
  assert (HK : Zpos mc * 2 ^ (ec - -46 + 1074) = k * 2 ^ 1074 * 2 ^ 46).
  { rewrite <- Vc, <- Z.mul_assoc, <- Z.pow_add_r by lia. do 2 f_equal. lia. }
  assert (HX : Zpos mx * 7036874417766400 * 2 ^ (ex + -46 + 1074)
               = 100 * (Zpos mx * 2 ^ (ex + 1074))).
  { replace (ex + 1074) with (46 + (ex + -46 + 1074)) by lia.
    rewrite (Z.pow_add_r 2 46) by lia.
    change 7036874417766400 with (100 * 2 ^ 46). ring. }
  rewrite HK in Hxq. rewrite HX in Hyp.
  assert (HU : 0 < 2 ^ 1074) by (apply Z.pow_pos_nonneg; lia).
  assert (HKU : (k + 1) * 2 ^ 1074 <= 2 ^ 50 * 2 ^ 1074)
    by (apply Z.mul_le_mono_nonneg_r; lia).
  assert (HA : 2 ^ 52 * T <= q * T) by (apply Z.mul_le_mono_nonneg_r; lia).
  assert (HB : 2 ^ 52 * T' <= p * T') by (apply Z.mul_le_mono_nonneg_r; lia).
  replace ((k + 1) * 2 ^ 1074) with (k * 2 ^ 1074 + 2 ^ 1074) in HKU by ring.
  set (K := k * 2 ^ 1074) in *. set (U := 2 ^ 1074) in *.
  set (X := Zpos mx * 2 ^ (ex + 1074)) in *.
  set (Y := Zpos my * 2 ^ (ey + 1074)) in *.
  set (A := q * T) in *. set (B := p * T') in *.
  replace ((q + 1) * T) with (A + T) in * by (unfold A; ring).
  replace ((p + 1) * T') with (B + T') in * by (unfold B; ring).
  change (2 ^ 46) with 70368744177664 in Hxq.
  change (2 ^ 52) with 4503599627370496 in HA, HB.
  change (2 ^ 50) with 1125899906842624 in HKU.
  apply (Math_round_near _ s my ey k Hy Bmy ltac:(lia) ltac:(lia));
    fold U; fold K; fold Y; lia.
Qed.

(** C8 (as amended).  For every amount with at most two decimal places
    whose count [k] of centavos is below [2^50] in magnitude, converting to
    centavos and back recovers the amount exactly: [pesosTocentavos] gives
    [k], and [centavosToPesos] of it is the amount. *)
Theorem money_roundtrip :
  forall k : Z,
    (- 2 ^ 50 < k < 2 ^ 50)%Z ->
    pesosTocentavos (two_decimals k) = number_of_Z k
    /\ centavosToPesos (pesosTocentavos (two_decimals k)) = two_decimals k.
Proof.
  intros k Hk.
  assert (H : pesosTocentavos (two_decimals k) = number_of_Z k).
  { destruct k as [| p | p].
    - reflexivity.
    - apply (pesosTocentavos_signed false (Zpos p)). lia.
    - apply (pesosTocentavos_signed true (Zpos p)). lia. }
  split; [assumption|]. rewrite H. reflexivity.
Qed.

Lemma money_roundtrip_witness :
  centavosToPesos (pesosTocentavos (two_decimals 12345)) = two_decimals 12345.
Proof.
  apply (proj2 (money_roundtrip 12345 ltac:(lia))).
Defined.

Local Open Scope float_scope.

(** C8, as stated, fails for the amount 35184599299853.52: multiplied by
    100 it gives 3518459929985352.5, which [Math.round] takes to
    3518459929985353, and the division by 100 gives 35184599299853.53. *)
Lemma roundtrip_counterexample :
  parseFloat (str "35184599299853.52") = two_decimals 3518459929985352
  /\ two_decimals 3518459929985352 * 100 = 3518459929985352.5
  /\ pesosTocentavos (two_decimals 3518459929985352) = 3518459929985353
  /\ centavosToPesos (pesosTocentavos (two_decimals 3518459929985352))
     = 35184599299853.53
  /\ (centavosToPesos (pesosTocentavos (two_decimals 3518459929985352))
      =? two_decimals 3518459929985352) = false.
Proof. repeat split; vm_compute; reflexivity. Qed.

(* ===================================================================== *)
(** * Part VIII.  Further properties of numbers and digits *)
(* ===================================================================== *)

Local Open Scope Z_scope.

(** ** The sign of a difference, continued *)

Lemma binary_normalize_neg D e :
  -1074 <= e ->
  SFltb (binary_normalize prec emax D e false) (S754_zero false) = (D <? 0).
Proof.
  intros He. destruct D as [| p | p]; cbn [binary_normalize].
  - reflexivity.
  - destruct (binary_round_sign false p e He) as [(m' & e' & ->) | ->]; reflexivity.
  - destruct (binary_round_sign true p e He) as [(m' & e' & ->) | ->]; reflexivity.
Qed.

Lemma SFsub_neg x y :
  valid_binary x = true -> valid_binary y = true ->
  SFltb (SFsub prec emax x y) (S754_zero false)
  = negb (SFis_nan x || SFis_nan y) && (SFord x <? SFord y).
Proof.
  intros Vx Vy.
  destruct x as [sx | sx | | sx mx ex], y as [sy | sy | | sy my ey];
    cbn [SFsub SFis_nan orb negb andb SFord]; try reflexivity.
  - destruct sx, sy; reflexivity.
  - destruct sy; reflexivity.
  - pose proof (finite_ord_bounds _ _ _ Vy).
    destruct sy; cbn [negb cond_Zopp SFltb SFcompare]; symmetry;
      [apply Z.ltb_ge | apply Z.ltb_lt]; lia.
  - destruct sx; reflexivity.
  - destruct sx, sy; reflexivity.
  - pose proof (finite_ord_bounds _ _ _ Vy).
    destruct sx, sy; cbn [negb cond_Zopp SFltb SFcompare]; symmetry;
      (apply Z.ltb_lt || apply Z.ltb_ge); lia.
  - pose proof (finite_ord_bounds _ _ _ Vx).
    destruct sx; cbn [negb cond_Zopp SFltb SFcompare]; symmetry;
      [apply Z.ltb_lt | apply Z.ltb_ge]; lia.
  - pose proof (finite_ord_bounds _ _ _ Vx).
    destruct sx, sy; cbn [negb cond_Zopp SFltb SFcompare]; symmetry;
      (apply Z.ltb_lt || apply Z.ltb_ge); lia.
  - pose proof (valid_finite_bounds _ _ _ Vx) as (Hex & _).
    pose proof (valid_finite_bounds _ _ _ Vy) as (Hey & _).
    rewrite binary_normalize_neg by lia.
    pose proof (aligned_ord sx mx ex (Z.min ex ey)) as Ax.
    pose proof (aligned_ord sy my ey (Z.min ex ey)) as Ay.
    cbn [SFord] in Ax, Ay. rewrite <- Ax, <- Ay by lia.
    assert (Hp : 0 < 2 ^ (Z.min ex ey + 1074)) by (apply Z.pow_pos_nonneg; lia).
    set (a := cond_Zopp sx _) in *. set (b := cond_Zopp sy _) in *.
    destruct (Z.ltb_spec (a - b) 0) as [L | G]; symmetry.
    + apply Z.ltb_lt. apply Z.mul_lt_mono_pos_r; lia.
    + apply Z.ltb_ge. apply Z.mul_le_mono_nonneg_r; lia.
Qed.

(** [x - y] is negative exactly when [x < y]. *)
Lemma sub_neg (x y : number) : (x - y <? 0)%float = (x <? y)%float.
Proof.
  rewrite FloatAxioms.ltb_spec, sub_spec.
  change (Prim2SF 0) with (S754_zero false).
  unfold SF64sub. rewrite SFsub_neg by apply Prim2SF_valid.
  rewrite ltb_ord, <- !isNaN_spec. reflexivity.
Qed.

(** ** Integers as numbers *)

Lemma isNaN_number_of_Z A : isNaN (number_of_Z A) = false.
Proof. apply SF2Prim_not_nan, binary_normalize_not_nan. Qed.

Lemma ord_number_of_Z A :
  - 2 ^ 53 < A < 2 ^ 53 -> ord (number_of_Z A) = A * 2 ^ 1074.
Proof.
  intros HA. destruct (Z.eq_dec A 0) as [-> | A0]; [reflexivity|].
  destruct (number_of_Z_SF A A0 HA) as (m & e & E & _ & _ & V).
  unfold ord. rewrite E. cbn [SFord]. rewrite V.
  destruct (Z.ltb_spec A 0); cbn [cond_Zopp]; lia.
Qed.

Lemma number_of_Z_ltb A B :
  - 2 ^ 53 < A < 2 ^ 53 -> - 2 ^ 53 < B < 2 ^ 53 ->
  (number_of_Z A <? number_of_Z B)%float = (A <? B).
Proof.
  intros HA HB. rewrite ltb_ord, !isNaN_number_of_Z, !ord_number_of_Z by assumption.
  cbn [orb negb andb].
  assert (0 < 2 ^ 1074) by (apply Z.pow_pos_nonneg; lia).
  destruct (Z.ltb_spec A B); [apply Z.ltb_lt | apply Z.ltb_ge]; nia.
Qed.

Lemma number_of_Z_leb A B :
  - 2 ^ 53 < A < 2 ^ 53 -> - 2 ^ 53 < B < 2 ^ 53 ->
  (number_of_Z A <=? number_of_Z B)%float = (A <=? B).
Proof.
  intros HA HB. rewrite leb_ord, !isNaN_number_of_Z, !ord_number_of_Z by assumption.
  cbn [orb negb andb].
  assert (0 < 2 ^ 1074) by (apply Z.pow_pos_nonneg; lia).
  destruct (Z.leb_spec A B); [apply Z.leb_le | apply Z.leb_gt]; nia.
Qed.

Lemma number_of_Z_eqb A B :
  - 2 ^ 53 < A < 2 ^ 53 -> - 2 ^ 53 < B < 2 ^ 53 ->
  (number_of_Z A =? number_of_Z B)%float = (A =? B).
Proof.
  intros HA HB. rewrite eqb_ord, !isNaN_number_of_Z, !ord_number_of_Z by assumption.
  cbn [orb negb andb].
  assert (0 < 2 ^ 1074) by (apply Z.pow_pos_nonneg; lia).
  destruct (Z.eqb_spec A B); [apply Z.eqb_eq | apply Z.eqb_neq]; nia.
Qed.

(** Addition of integers below [2^53] is exact. *)
Lemma number_of_Z_add A B :
  - 2 ^ 53 < A < 2 ^ 53 -> - 2 ^ 53 < B < 2 ^ 53 ->
  - 2 ^ 53 < A + B < 2 ^ 53 ->
  (number_of_Z A + number_of_Z B)%float = number_of_Z (A + B).
Proof.
  intros HA HB HD. apply Prim2SF_inj. rewrite add_spec. unfold SF64add.
  destruct (Z.eq_dec B 0) as [-> | B0].
  { rewrite Z.add_0_r. change (Prim2SF (number_of_Z 0)) with (S754_zero false).
    destruct (Z.eq_dec A 0) as [-> | A0]; [reflexivity|].
    destruct (number_of_Z_SF A A0 HA) as (m & e & -> & _). reflexivity. }
  destruct (number_of_Z_SF B B0 HB) as (mb & eb & Eb & Bmb & Beb & Vb).
  destruct (Z.eq_dec A 0) as [-> | A0].
  { change (Prim2SF (number_of_Z 0)) with (S754_zero false). rewrite Eb.
    cbn [SFadd]. rewrite Z.add_0_l. now rewrite <- Eb. }
  destruct (number_of_Z_SF A A0 HA) as (ma & ea & Ea & Bma & Bea & Va).
  rewrite Ea, Eb. cbn [SFadd].
  set (ez := Z.min ea eb).
  rewrite (aligned_integer ma ea ez (Z.abs A) Va ltac:(lia) ltac:(lia)).
  rewrite (aligned_integer mb eb ez (Z.abs B) Vb ltac:(lia) ltac:(lia)).
  assert (Ht : 0 < 2 ^ (- ez)) by (apply Z.pow_pos_nonneg; lia).
  assert (ED : cond_Zopp (A <? 0) (Z.abs A * 2 ^ (- ez))
               + cond_Zopp (B <? 0) (Z.abs B * 2 ^ (- ez))
               = (A + B) * 2 ^ (- ez)).
  { destruct (Z.ltb_spec A 0), (Z.ltb_spec B 0); cbn [cond_Zopp]; nia. }
  rewrite ED.
  destruct (Z.eq_dec (A + B) 0) as [E0 | N0].
  { rewrite E0. reflexivity. }
  destruct ((A + B) * 2 ^ (- ez)) as [| p | p] eqn:EP; cbn [binary_normalize].
  - nia.
  - assert (Hpos : 0 < A + B) by nia.
    replace ez with (- - ez) at 1 by lia.
    destruct (binary_round_exact false p (A + B) (- ez) ltac:(lia) ltac:(lia)
                ltac:(lia)) as (m & e & E & Bm & Be & V).
    rewrite E. apply SF_is_number_of_Z; try lia;
      try (symmetry; apply Z.ltb_ge; lia); try (rewrite V; f_equal; lia).
  - assert (Hneg : A + B < 0) by nia.
    replace ez with (- - ez) at 1 by lia.
    destruct (binary_round_exact true p (- (A + B)) (- ez) ltac:(lia) ltac:(lia)
                ltac:(nia)) as (m & e & E & Bm & Be & V).
    rewrite E. apply SF_is_number_of_Z; try lia;
      try (symmetry; apply Z.ltb_lt; lia); try (rewrite V; f_equal; lia).
Qed.

Lemma Number_isInteger_number_of_Z A :
  - 2 ^ 53 < A < 2 ^ 53 -> Number_isInteger (number_of_Z A) = true.
Proof.
  intros HA. destruct (Z.eq_dec A 0) as [-> | A0]; [reflexivity|].
  destruct (number_of_Z_SF A A0 HA) as (m & e & E & _ & Be & V).
  unfold Number_isInteger. rewrite E.
  destruct (Z.leb_spec 0 e) as [L | G]; [reflexivity|]. cbn [orb].
  apply Z.eqb_eq.
  assert (Hm : Zpos m = Z.abs A * 2 ^ (- e)).
  { apply (Z.mul_cancel_r _ _ (2 ^ (e + 1074))).
    - apply Z.pow_nonzero; lia.
    - rewrite V, <- Z.mul_assoc, <- Z.pow_add_r by lia. do 2 f_equal. lia. }
  rewrite Hm. apply Z.mod_mul. apply Z.pow_nonzero; lia.
Qed.

(** ** Whole quotients and remainders *)

(** The bracket of [SFdiv_interval], with its width a power of two. *)
Lemma SFdiv_bracket s mx ex my ey :
  2 ^ 52 <= Zpos mx < 2 ^ 53 -> 2 ^ 52 <= Zpos my < 2 ^ 53 ->
  -900 <= ex <= 900 -> -60 <= ey <= 60 ->
  exists m' e' q t,
    SFdiv prec emax (S754_finite s mx ex) (S754_finite false my ey)
    = S754_finite s m' e'
    /\ 2 ^ 52 <= Zpos m' < 2 ^ 53
    /\ ex - ey - 53 <= e' <= ex - ey - 51
    /\ 2 ^ 52 <= q
    /\ ex - ey + 1021 <= t <= ex - ey + 1022
    /\ q * 2 ^ t <= Zpos m' * 2 ^ (e' + 1074) <= (q + 1) * 2 ^ t
    /\ q * 2 ^ t * Zpos my <= Zpos mx * 2 ^ (ex - ey + 1074)
       < (q + 1) * 2 ^ t * Zpos my.
Proof.
  intros Hmx Hmy Hex Hey.
  assert (Dx : Zdigits2 (Zpos mx) = 53) by (apply Zdigits2_unique; lia).
  assert (Dy : Zdigits2 (Zpos my) = 53) by (apply Zdigits2_unique; lia).
  cbn [SFdiv]. rewrite xorb_false_r. unfold SFdiv_core_binary. rewrite Dx, Dy.
  unfold fexp, SpecFloat.emin. change prec with 53. change emax with 1024.
  replace (Z.min (Z.max (53 + ex - (53 + ey) - 53) (3 - 1024 - 53)) (ex - ey))
    with (ex - ey - 53) by lia.
  replace (ex - ey - (ex - ey - 53)) with 53 by lia.
  cbn match. rewrite Z.shiftl_mul_pow2 by lia.
  pose proof (Z.div_eucl_eq (Zpos mx * 2 ^ 53) (Zpos my) ltac:(lia)) as Hdiv.
  pose proof (Z.mod_pos_bound (Zpos mx * 2 ^ 53) (Zpos my) ltac:(lia)) as Hmod.
  unfold Z.modulo in Hmod.
  destruct (Z.div_eucl (Zpos mx * 2 ^ 53) (Zpos my)) as [q0 r0].
  assert (Bq : 2 ^ 52 <= q0 < 2 ^ 54) by nia.
  set (j := if q0 <? 2 ^ 53 then 0 else 1).
  assert (Hj : 0 <= j <= 1) by (unfold j; destruct (q0 <? 2 ^ 53); lia).
  assert (Dq : Zdigits2 q0 = 53 + j).
  { unfold j. destruct (Z.ltb_spec q0 (2 ^ 53)); apply Zdigits2_unique; lia. }
  destruct (binary_round_aux_faithful s q0 (ex - ey - 53)
              (new_location (Zpos my) r0) j ltac:(lia) Dq ltac:(lia) ltac:(lia) ltac:(lia))
    as (m' & e' & E & Bm' & Be' & Hval).
  exists m', e', (q0 / 2 ^ j), (ex - ey - 53 + j + 1074).
  split; [exact E|]. split; [assumption|]. split; [lia|].
  assert (Hq1 : 2 ^ 52 <= q0 / 2 ^ j /\ q0 / 2 ^ j * 2 ^ j <= q0
                /\ q0 < (q0 / 2 ^ j + 1) * 2 ^ j).
  { unfold j. destruct (Z.ltb_spec q0 (2 ^ 53)).
    - rewrite Z.pow_0_r, Z.div_1_r. lia.
    - change (2 ^ 1) with 2.
      pose proof (Z.div_mod q0 2 ltac:(lia)).
      pose proof (Z.mod_pos_bound q0 2 ltac:(lia)).
      assert (2 ^ 52 <= q0 / 2) by (apply Z.div_le_lower_bound; lia). lia. }
  destruct Hq1 as (Hq1 & Hq2 & Hq3).
  split; [assumption|]. split; [lia|].
  assert (HT : 0 < 2 ^ (ex - ey - 53 + j + 1074)) by (apply Z.pow_pos_nonneg; lia).
  split; [exact Hval|].
  set (w := 2 ^ (ex - ey - 53 + 1074)).
  assert (Hw : 0 < w) by (apply Z.pow_pos_nonneg; lia).
  replace (2 ^ (ex - ey - 53 + j + 1074)) with (2 ^ j * w)
    by (unfold w; rewrite <- Z.pow_add_r by lia; f_equal; lia).
  replace (2 ^ (ex - ey + 1074)) with (2 ^ 53 * w)
    by (unfold w; rewrite <- Z.pow_add_r by lia; f_equal; lia).
  set (q1 := q0 / 2 ^ j) in *. set (tj := 2 ^ j) in *.
  assert (Htj : 0 < tj) by (apply Z.pow_pos_nonneg; lia).
  split.
  - replace (q1 * (tj * w) * Zpos my) with ((q1 * tj * Zpos my) * w) by ring.
    replace (Zpos mx * (2 ^ 53 * w)) with ((Zpos mx * 2 ^ 53) * w) by ring.
    apply Z.mul_le_mono_nonneg_r; [lia|]. nia.
  - replace ((q1 + 1) * (tj * w) * Zpos my) with (((q1 + 1) * tj * Zpos my) * w) by ring.
    replace (Zpos mx * (2 ^ 53 * w)) with ((Zpos mx * 2 ^ 53) * w) by ring.
    apply Z.mul_lt_mono_pos_r; [lia|]. nia.
Qed.

Lemma mantissa_of_integer m e A :
  Zpos m * 2 ^ (e + 1074) = A * 2 ^ 1074 -> -1074 <= e <= 0 ->
  Zpos m = A * 2 ^ (- e).
Proof.
  intros V He. apply (Z.mul_cancel_r _ _ (2 ^ (e + 1074))).
  - apply Z.pow_nonzero; lia.
  - rewrite V, <- Z.mul_assoc, <- Z.pow_add_r by lia. do 2 f_equal. lia.
Qed.

(** [Math.floor] of the quotient of two integers is their integer
    quotient. *)
Lemma Math_floor_div a b :
  0 <= a < 2 ^ 50 -> 1 <= b < 2 ^ 53 ->
  Math_floor (number_of_Z a / number_of_Z b)%float = number_of_Z (a / b).
Proof.
  intros Ha Hb.
  destruct (Prim2SF_number_of_Z false b ltac:(lia)) as (mb & eb & Eb & Bmb & Beb & Vb).
  cbn [cond_Zopp] in Eb.
  pose proof (div_spec (number_of_Z a) (number_of_Z b)) as Hy.
  rewrite Eb in Hy. unfold SF64div in Hy.
  destruct (Z.eq_dec a 0) as [-> | a0].
  { change (Prim2SF (number_of_Z 0)) with (S754_zero false) in Hy.
    cbn [SFdiv xorb] in Hy. unfold Math_floor. rewrite Hy.
    rewrite Z.div_0_l by lia. apply Prim2SF_inj. exact Hy. }
  destruct (Prim2SF_number_of_Z false a ltac:(lia)) as (ma & ea & Ea & Bma & Bea & Va).
  cbn [cond_Zopp] in Ea. rewrite Ea in Hy.
  destruct (SFdiv_bracket false ma ea mb eb Bma Bmb ltac:(lia) ltac:(lia))
    as (m' & e' & q & t & Ey & Bm' & Be' & Bq & Bt & Hyv & Hyq).
  rewrite Ey in Hy.
  assert (HU : 0 < 2 ^ 1074) by (apply Z.pow_pos_nonneg; lia).
  (* the exponent of [a] *)
  assert (Hea : ea <= -3).
  { destruct (Z.le_gt_cases ea (-3)) as [L | G]; [assumption|]. exfalso.
    assert (2 ^ (-2 + 1074) <= 2 ^ (ea + 1074)) by (apply Z.pow_le_mono_r; lia).
    assert (2 ^ 52 * 2 ^ (-2 + 1074) <= Zpos ma * 2 ^ (ea + 1074))
      by (apply Z.mul_le_mono_nonneg; lia).
    assert (a * 2 ^ 1074 < 2 ^ 50 * 2 ^ 1074) by (apply Z.mul_lt_mono_pos_r; lia).
    rewrite <- Z.pow_add_r in * by lia.
    replace (52 + (-2 + 1074)) with (50 + 1074) in * by lia. lia. }
  assert (He' : e' < 0) by lia.
  (* [a] and [b] in the bracket *)
  pose proof (mantissa_of_integer mb eb b Vb ltac:(lia)) as Emb.
  assert (HA : Zpos ma * 2 ^ (ea - eb + 1074) = a * 2 ^ 1074 * 2 ^ (- eb)).
  { rewrite <- Va, <- Z.mul_assoc, <- Z.pow_add_r by lia. do 2 f_equal. lia. }
  rewrite Emb, HA in Hyq.
  assert (Hpb : 0 < 2 ^ (- eb)) by (apply Z.pow_pos_nonneg; lia).
  assert (HT : 0 < 2 ^ t) by (apply Z.pow_pos_nonneg; lia).
  set (T := 2 ^ t) in *. set (U := 2 ^ 1074) in *.
  assert (Hq1 : q * T * b <= a * U).
  { apply (Z.mul_le_mono_pos_r _ _ (2 ^ (- eb))); [assumption|].
    replace (q * T * b * 2 ^ (- eb)) with (q * T * (b * 2 ^ (- eb))) by ring.
    lia. }
  assert (Hq2 : a * U < (q + 1) * T * b).
  { apply (Z.mul_lt_mono_pos_r (2 ^ (- eb))); [assumption|].
    replace ((q + 1) * T * b * 2 ^ (- eb)) with ((q + 1) * T * (b * 2 ^ (- eb)))
      by ring.
    lia. }
  (* the integer quotient *)
  pose proof (Z.div_mod a b ltac:(lia)) as Hdm.
  pose proof (Z.mod_pos_bound a b ltac:(lia)) as Hmb.
  set (k := a / b) in *. set (r := a mod b) in *.
  assert (Hk : 0 <= k) by (apply Z.div_pos; lia).
  assert (Hk50 : k < 2 ^ 50).
  { apply Z.le_lt_trans with a; [|lia].
    apply Z.div_le_upper_bound; [lia|].
    replace a with (1 * a) at 1 by lia.
    apply Z.mul_le_mono_nonneg_r; lia. }
  set (Y := Zpos m' * 2 ^ (e' + 1074)) in *.
  (* [T] divides [U] *)
  assert (HUT : U = 2 ^ (1074 - t) * T).
  { unfold U, T. rewrite <- Z.pow_add_r by lia. f_equal. lia. }
  assert (Hs : 0 < 2 ^ (1074 - t)) by (apply Z.pow_pos_nonneg; lia).
  assert (Hlo : k * U <= Y).
  { apply Z.le_trans with (q * T); [|lia].
    assert (k * U * b < (q + 1) * T * b).
    { apply Z.le_lt_trans with (a * U); [|assumption].
      replace (k * U * b) with ((b * k) * U) by ring.
      apply Z.mul_le_mono_nonneg_r; lia. }
    assert (k * U < (q + 1) * T) by (apply (Z.mul_lt_mono_pos_r b); lia).
    rewrite HUT in H0 |- *.
    assert (k * 2 ^ (1074 - t) < q + 1).
    { apply (Z.mul_lt_mono_pos_r T); [assumption|]. lia. }
    replace (k * (2 ^ (1074 - t) * T)) with (k * 2 ^ (1074 - t) * T) by ring.
    apply Z.mul_le_mono_nonneg_r; lia. }
  assert (Hhi : Y < (k + 1) * U).
  { assert (HTb : 2 ^ 52 * (T * b) <= q * T * b).
    { replace (q * T * b) with (q * (T * b)) by ring.
      apply Z.mul_le_mono_nonneg_r; lia. }
    assert (HaU : a * U < 2 ^ 50 * U) by (apply Z.mul_lt_mono_pos_r; lia).
    assert (Hyb : Y * b <= a * U + T * b).
    { apply Z.le_trans with ((q + 1) * T * b); [|lia].
      apply Z.mul_le_mono_nonneg_r; lia. }
    assert (HK : (a + 1) * U <= (k + 1) * U * b).
    { replace ((k + 1) * U * b) with ((b * k + b) * U) by ring.
      apply Z.mul_le_mono_nonneg_r; lia. }
    change (2 ^ 52) with 4503599627370496 in HTb.
    change (2 ^ 50) with 1125899906842624 in HaU.
    apply (Z.mul_lt_mono_pos_r b); lia. }
  (* [Math.floor] *)
  unfold Math_floor. rewrite Hy.
  replace (0 <=? e') with false by (symmetry; apply Z.leb_gt; lia).
  cbn [cond_Zopp].
  assert (HP : 0 < 2 ^ (- e')) by (apply Z.pow_pos_nonneg; lia).
  assert (HW : 0 < 2 ^ (e' + 1074)) by (apply Z.pow_pos_nonneg; lia).
  assert (HUW : U = 2 ^ (- e') * 2 ^ (e' + 1074)).
  { unfold U. rewrite <- Z.pow_add_r by lia. f_equal. lia. }
  assert (Hn : Zpos m' / 2 ^ (- e') = k).
  { symmetry. apply Z.div_unique with (Zpos m' - k * 2 ^ (- e')); [|ring].
    left. unfold Y in Hlo, Hhi. rewrite HUW in Hlo, Hhi. split.
    - assert (k * 2 ^ (- e') <= Zpos m'); [|lia].
      apply (Z.mul_le_mono_pos_r _ _ (2 ^ (e' + 1074))); [assumption|]. lia.
    - assert (Zpos m' < (k + 1) * 2 ^ (- e')); [|lia].
      apply (Z.mul_lt_mono_pos_r (2 ^ (e' + 1074))); [assumption|]. lia. }
  rewrite Hn. destruct (Z.eqb_spec k 0) as [-> | _]; reflexivity.
Qed.

(** The remainder of two integers is computed exactly. *)
Lemma Number_remainder_integers a b :
  0 <= a < 2 ^ 53 -> 1 <= b < 2 ^ 53 ->
  Number_remainder (number_of_Z a) (number_of_Z b) = number_of_Z (a mod b).
Proof.
  intros Ha Hb.
  destruct (Prim2SF_number_of_Z false b ltac:(lia)) as (mb & eb & Eb & Bmb & Beb & Vb).
  cbn [cond_Zopp] in Eb.
  unfold Number_remainder. rewrite Eb.
  destruct (Z.eq_dec a 0) as [-> | a0].
  { change (Prim2SF (number_of_Z 0)) with (S754_zero false).
    rewrite Z.mod_0_l by lia. reflexivity. }
  destruct (Prim2SF_number_of_Z false a ltac:(lia)) as (ma & ea & Ea & Bma & Bea & Va).
  cbn [cond_Zopp] in Ea. rewrite Ea.
  set (e := Z.min ea eb).
  pose proof (mantissa_of_integer ma ea a Va ltac:(lia)) as Ema.
  pose proof (mantissa_of_integer mb eb b Vb ltac:(lia)) as Emb.
  assert (HN : Zpos ma * 2 ^ (ea - e) = a * 2 ^ (- e)).
  { rewrite Ema, <- Z.mul_assoc, <- Z.pow_add_r by lia. do 2 f_equal. lia. }
  assert (HD : Zpos mb * 2 ^ (eb - e) = b * 2 ^ (- e)).
  { rewrite Emb, <- Z.mul_assoc, <- Z.pow_add_r by lia. do 2 f_equal. lia. }
  rewrite HN, HD.
  assert (Hp : 0 < 2 ^ (- e)) by (apply Z.pow_pos_nonneg; lia).
  rewrite Z.mul_mod_distr_r by lia.
  pose proof (Z.mod_pos_bound a b ltac:(lia)) as Hr.
  set (r := a mod b) in *.
  destruct (Z.eqb_spec (r * 2 ^ (- e)) 0) as [E0 | N0].
  { assert (r = 0) by nia. subst r. rewrite H. reflexivity. }
  assert (Hr1 : 1 <= r) by nia.
  cbn [cond_Zopp]. unfold number_of_scaled.
  destruct (r * 2 ^ (- e)) as [| p | p] eqn:EP; try lia.
  cbn [binary_normalize].
  replace e with (- - e) at 1 by lia.
  destruct (binary_round_exact false p r (- e) ltac:(lia) ltac:(lia)
              ltac:(lia)) as (m & e1 & E & Bm & Be & V).
  rewrite E.
  rewrite (SF_is_number_of_Z false m e1 r); try lia;
    try (symmetry; apply Z.ltb_ge; lia); try (rewrite V; f_equal; lia).
  apply SF2Prim_Prim2SF.
Qed.

(** ** Exact products *)



(** ** [Math.round] gives integers *)

Lemma valid_mantissa_lt s m e :
  valid_binary (S754_finite s m e) = true -> Zpos m < 2 ^ 53.
Proof.
  intros V. apply valid_finite_bounds in V. destruct V as (_ & Hd & _).
  pose proof (digits2_pos_bounds m) as [_ Hm].
  apply Z.lt_le_trans with (1 := Hm). apply Z.pow_le_mono_r; lia.
Qed.

(** [Math.round] returns an integer for every finite argument, and its
    argument for the others. *)
Lemma Math_round_integer x :
  Number_isInteger (Math_round x) = Number_isFinite x.
Proof.
  unfold Math_round, Number_isFinite.
  destruct (Prim2SF x) as [s | s | | s m e] eqn:E.
  - unfold Number_isInteger. now rewrite E.
  - unfold Number_isInteger. now rewrite E.
  - unfold Number_isInteger. now rewrite E.
  - destruct (Z.leb_spec 0 e) as [L | G].
    + unfold Number_isInteger. rewrite E.
      replace (0 <=? e) with true by (symmetry; apply Z.leb_le; lia).
      reflexivity.
    + pose proof (Prim2SF_valid x) as V. rewrite E in V.
      pose proof (valid_mantissa_lt _ _ _ V) as Hm.
      set (P := 2 ^ (- e)).
      assert (HP : 2 <= P).
      { unfold P. change 2 with (2 ^ 1) at 1. apply Z.pow_le_mono_r; lia. }
      replace (2 ^ (1 - e)) with (2 * P)
        by (unfold P; replace (1 - e) with (1 + - e) by lia;
            rewrite Z.pow_add_r by lia; reflexivity).
      set (n := (2 * cond_Zopp s (Zpos m) + P) / (2 * P)).
      assert (Bn : - 2 ^ 53 < n < 2 ^ 53).
      { unfold n. split.
        - apply Z.lt_le_trans with (- 2 ^ 52); [reflexivity|].
          apply Z.div_le_lower_bound; [lia|].
          destruct s; cbn [cond_Zopp]; change (2 ^ 52) with 4503599627370496;
            change (2 ^ 53) with 9007199254740992 in Hm; nia.
        - apply Z.div_lt_upper_bound; [lia|].
          destruct s; cbn [cond_Zopp];
            change (2 ^ 53) with 9007199254740992 in *; nia. }
      destruct (Z.eqb_spec n 0) as [_ | _].
      * destruct s; reflexivity.
      * now apply Number_isInteger_number_of_Z.
Qed.

Lemma mul_100_not_nan x : isNaN x = false -> isNaN (x * 100)%float = false.
Proof.
  rewrite !isNaN_spec, mul_spec, Prim2SF_100. unfold SF64mul.
  destruct (Prim2SF x) as [s | s | | s m e]; try discriminate; intros _;
    cbn [SFmul]; try reflexivity.
  apply binary_round_aux_not_nan. lia.
Qed.

Lemma not_finite_cases x :
  Number_isFinite x = false ->
  x = nan \/ x = infinity \/ x = neg_infinity.
Proof.
  unfold Number_isFinite. intros H.
  rewrite <- (SF2Prim_Prim2SF x).
  destruct (Prim2SF x) as [s | [] | | s m e]; try discriminate; auto.
Qed.

(** ** Decimal digits *)

Lemma digits_of_Z_aux_app f : forall n acc,
  digits_of_Z_aux f n acc = digits_of_Z_aux f n [] ++ acc.
Proof.
  induction f as [| f IH]; intros n acc; cbn [digits_of_Z_aux]; [reflexivity|].
  destruct (n / 10 =? 0); [reflexivity|].
  rewrite (IH (n / 10) (_ :: acc)), (IH (n / 10) [_]), <- app_assoc.
  reflexivity.
Qed.

Lemma digits_of_Z_aux_fuel f : forall g n acc,
  0 <= n < 2 ^ Z.of_nat (S f) -> 0 <= n < 2 ^ Z.of_nat (S g) ->
  digits_of_Z_aux (S f) n acc = digits_of_Z_aux (S g) n acc.
Proof.
  induction f as [| f IH]; intros g n acc Hf Hg.
  - assert (n / 10 = 0) as E.
    { apply Z.div_small. change (2 ^ Z.of_nat 1) with 2 in Hf. lia. }
    cbn [digits_of_Z_aux]. rewrite E. reflexivity.
  - cbn [digits_of_Z_aux]. destruct (Z.eqb_spec (n / 10) 0) as [E | N]; [reflexivity|].
    assert (Hq : forall h, n < 2 ^ Z.of_nat (S (S h)) -> 0 <= n / 10 < 2 ^ Z.of_nat (S h)).
    { intros h Hh. split; [apply Z.div_pos; lia|].
      apply Z.div_lt_upper_bound; [lia|].
      rewrite (Nat2Z.inj_succ (S h)), Z.pow_succ_r in Hh by lia. lia. }
    destruct g as [| g].
    + exfalso. change (2 ^ Z.of_nat 1) with 2 in Hg.
      apply N. apply Z.div_small. lia.
    + change (digits_of_Z_aux (S (S g)) n acc)
        with (let acc' := ((48 + Z.to_N (n mod 10))%N :: acc) in
              if n / 10 =? 0 then acc' else digits_of_Z_aux (S g) (n / 10) acc').
      cbn zeta. destruct (Z.eqb_spec (n / 10) 0); [contradiction|].
      apply IH; apply Hq; lia.
Qed.

Lemma log2_fuel n :
  0 <= n -> 0 <= n < 2 ^ Z.of_nat (S (Z.to_nat (Z.log2 n))).
Proof.
  intros Hn. split; [assumption|].
  rewrite Nat2Z.inj_succ, Z2Nat.id by apply Z.log2_nonneg.
  destruct (Z.eq_dec n 0) as [-> | N0]; [reflexivity|].
  apply Z.log2_spec. lia.
Qed.

Lemma digits_of_Z_small n :
  0 <= n < 10 -> digits_of_Z n = [(48 + Z.to_N n)%N].
Proof.
  intros Hn. unfold digits_of_Z. cbn [digits_of_Z_aux].
  rewrite Z.div_small, Z.mod_small by lia. reflexivity.
Qed.

Lemma digits_of_Z_step n :
  10 <= n ->
  digits_of_Z n = digits_of_Z (n / 10) ++ [(48 + Z.to_N (n mod 10))%N].
Proof.
  intros Hn. unfold digits_of_Z at 1. cbn [digits_of_Z_aux].
  destruct (Z.eqb_spec (n / 10) 0) as [E | N].
  { exfalso. pose proof (Z.div_le_lower_bound n 10 1 ltac:(lia) ltac:(lia)). lia. }
  rewrite digits_of_Z_aux_app. f_equal. unfold digits_of_Z.
  assert (Hq : 0 <= n / 10) by (apply Z.div_pos; lia).
  assert (Hl : 1 <= Z.log2 n).
  { change 1 with (Z.log2 2). apply Z.log2_le_mono. lia. }
  destruct (Z.to_nat (Z.log2 n)) as [| f] eqn:Ef; [lia|].
  apply digits_of_Z_aux_fuel; [|apply log2_fuel; assumption].
  split; [assumption|].
  apply Z.div_lt_upper_bound; [lia|].
  pose proof (log2_fuel n ltac:(lia)) as [_ H]. rewrite Ef in H.
  rewrite (Nat2Z.inj_succ (S f)), Z.pow_succ_r in H by lia. lia.
Qed.

Lemma digits_of_Z_times_10 s :
  1 <= s -> digits_of_Z (s * 10) = digits_of_Z s ++ [48%N].
Proof.
  intros Hs. rewrite digits_of_Z_step by lia.
  rewrite Z.div_mul, Z.mod_mul by lia. reflexivity.
Qed.

Lemma zeros_snoc k : zeros k ++ [48%N] = zeros (S k).
Proof.
  unfold zeros. induction k as [| k IH]; [reflexivity|].
  cbn [repeat app]. now rewrite IH.
Qed.

Lemma digits_of_Z_pow10 s p :
  1 <= s -> digits_of_Z (s * 10 ^ Z.of_nat p) = digits_of_Z s ++ zeros p.
Proof.
  intros Hs. induction p as [| p IH].
  - cbn [zeros repeat]. rewrite Z.mul_1_r, app_nil_r. reflexivity.
  - rewrite Nat2Z.inj_succ, Z.pow_succ_r by lia.
    replace (s * (10 * 10 ^ Z.of_nat p)) with (s * 10 ^ Z.of_nat p * 10) by ring.
    assert (0 < 10 ^ Z.of_nat p) by (apply Z.pow_pos_nonneg; lia).
    rewrite digits_of_Z_times_10 by nia.
    rewrite IH, <- app_assoc, zeros_snoc. reflexivity.
Qed.

Lemma length_digits_of_Z j : forall n,
  0 <= n < 10 ^ Z.of_nat (S j) -> (List.length (digits_of_Z n) <= S j)%nat.
Proof.
  induction j as [| j IH]; intros n Hn.
  - change (10 ^ Z.of_nat 1) with 10 in Hn. rewrite digits_of_Z_small by lia.
    cbn. lia.
  - destruct (Z.lt_ge_cases n 10) as [L | G].
    + rewrite digits_of_Z_small by lia. cbn. lia.
    + rewrite digits_of_Z_step, length_app by assumption. cbn [List.length].
      assert ((List.length (digits_of_Z (n / 10)) <= S j)%nat); [|lia].
      apply IH. split; [apply Z.div_pos; lia|].
      apply Z.div_lt_upper_bound; [lia|].
      rewrite (Nat2Z.inj_succ (S j)), Z.pow_succ_r in Hn by lia. lia.
Qed.

Lemma length_digits_of_Z_pos n : (1 <= List.length (digits_of_Z n))%nat.
Proof.
  unfold digits_of_Z. cbn [digits_of_Z_aux].
  destruct (n / 10 =? 0); [cbn; lia|].
  rewrite digits_of_Z_aux_app, length_app. cbn. lia.
Qed.

(** Stripping zeros and putting them back. *)

Lemma strip_trailing_zeros_rev_cons c l :
  strip_trailing_zeros_rev (c :: l)
  = if (c =? 48)%N then strip_trailing_zeros_rev l else c :: l.
Proof.
  destruct (N.eqb_spec c 48) as [-> | N]; [reflexivity|].
  destruct c as [| p]; [reflexivity|].
  do 6 (destruct p as [p | p |]; try reflexivity).
  exfalso. apply N. reflexivity.
Qed.

Lemma strip_trailing_zeros_rev_spec l :
  exists j, l = zeros j ++ strip_trailing_zeros_rev l.
Proof.
  induction l as [| c l [j IH]].
  - exists 0%nat. reflexivity.
  - rewrite strip_trailing_zeros_rev_cons.
    destruct (N.eqb_spec c 48) as [-> | N].
    + exists (S j). cbn [zeros repeat app]. f_equal. exact IH.
    + exists 0%nat. reflexivity.
Qed.

Lemma rev_zeros j : rev (zeros j) = zeros j.
Proof.
  induction j as [| j IH]; [reflexivity|].
  change (zeros (S j)) with (48%N :: zeros j) at 1.
  cbn [rev]. rewrite IH. apply zeros_snoc.
Qed.

Lemma significant_digits_pad ds :
  let sig := rev (strip_trailing_zeros_rev (rev ds)) in
  sig ++ zeros (List.length ds - List.length sig) = ds
  /\ (List.length sig <= List.length ds)%nat.
Proof.
  cbn zeta. destruct (strip_trailing_zeros_rev_spec (rev ds)) as [j E].
  set (r := strip_trailing_zeros_rev (rev ds)) in *.
  assert (Hds : ds = rev r ++ zeros j).
  { rewrite <- (rev_involutive ds), E, rev_app_distr, rev_zeros. reflexivity. }
  assert (Hlen : List.length ds = (List.length (rev r) + j)%nat).
  { rewrite Hds at 1. rewrite length_app. unfold zeros. now rewrite repeat_length. }
  split; [|lia].
  replace (List.length ds - List.length (rev r))%nat with j by lia.
  now symmetry.
Qed.

(** ** The text of an integer *)

Lemma shortest_digits_S fuel k x X D n :
  shortest_digits (S fuel) k x X D n
  = let p := n - k in
    let num := if 0 <=? p then X else X * 10 ^ (- p) in
    let den := if 0 <=? p then D * 10 ^ p else D in
    let lo := num / den in
    let r := num mod den in
    let hi := lo + 1 in
    if r =? 0 then (lo, p)
    else
      let lo_ok := (number_of_decimal lo p =? x)%float in
      let hi_ok := (number_of_decimal hi p =? x)%float in
      if lo_ok && hi_ok then
        if 2 * r <? den then (lo, p)
        else if den <? 2 * r then (hi, p)
        else if Z.even lo then (lo, p) else (hi, p)
      else if lo_ok then (lo, p)
      else if hi_ok then (hi, p)
      else shortest_digits fuel (k + 1) x X D n.
Proof. reflexivity. Qed.

Lemma number_of_decimal_integer c p :
  0 <= c -> 0 <= p ->
  number_of_decimal c p = number_of_Z (c * 10 ^ p).
Proof.
  intros Hc Hp. unfold number_of_decimal.
  destruct (Z.eqb_spec c 0) as [-> | N]; [reflexivity|].
  replace (0 <=? p) with true by (symmetry; apply Z.leb_le; lia).
  reflexivity.
Qed.

Lemma pow10_le p q : 0 <= p <= q -> 10 ^ p <= 10 ^ q.
Proof. intros H. apply Z.pow_le_mono_r; lia. Qed.

Lemma shortest_digits_integer N D L :
  1 <= N < 10 ^ 15 -> 0 < D -> L <= 15 ->
  forall fuel k,
    1 <= k <= L -> L - k < Z.of_nat fuel ->
    exists s p,
      shortest_digits fuel k (number_of_Z N) (N * D) D L = (s, p)
      /\ 1 <= s /\ 0 <= p <= 14 /\ s * 10 ^ p = N.
Proof.
  intros HN HD HL. induction fuel as [| fuel IH]; intros k Hk Hf; [lia|].
  rewrite shortest_digits_S. cbn zeta.
  set (p := L - k).
  assert (Hp : 0 <= p <= 14) by (unfold p; lia).
  replace (0 <=? p) with true by (symmetry; apply Z.leb_le; lia).
  assert (HP : 0 < 10 ^ p) by (apply Z.pow_pos_nonneg; lia).
  assert (HP14 : 10 ^ p <= 10 ^ 14) by (apply pow10_le; lia).
  replace (N * D) with (D * N) by ring.
  rewrite Z.div_mul_cancel_l, Z.mul_mod_distr_l by lia.
  pose proof (Z.div_mod N (10 ^ p) ltac:(lia)) as Hdm.
  pose proof (Z.mod_pos_bound N (10 ^ p) ltac:(lia)) as Hmb.
  set (lo := N / 10 ^ p) in *. set (r := N mod 10 ^ p) in *.
  assert (Hlo : 0 <= lo) by (apply Z.div_pos; lia).
  change (10 ^ 15) with 1000000000000000 in HN.
  change (10 ^ 14) with 100000000000000 in HP14.
  assert (P53 : 2 ^ 53 = 9007199254740992) by reflexivity.
  destruct (Z.eqb_spec (D * r) 0) as [E0 | N0].
  - assert (r = 0) by nia.
    exists lo, p. split; [reflexivity|]. split; [nia|]. split; [lia|]. lia.
  - assert (Hr : r <> 0) by (intros ->; lia).
    rewrite !number_of_decimal_integer by lia.
    rewrite !number_of_Z_eqb by (rewrite P53; nia).
    replace (lo * 10 ^ p =? N) with false by (symmetry; apply Z.eqb_neq; lia).
    replace ((lo + 1) * 10 ^ p =? N) with false by (symmetry; apply Z.eqb_neq; lia).
    cbn [andb].
    assert (Hk' : k < L).
    { destruct (Z.eq_dec k L) as [E | E]; [|lia]. exfalso.
      unfold p in *. rewrite E, Z.sub_diag in *. change (10 ^ 0) with 1 in *. lia. }
    replace (D * N) with (N * D) by ring.
    apply IH; lia.
Qed.

Lemma abs_number_of_Z N :
  1 <= N < 2 ^ 53 -> abs (number_of_Z N) = number_of_Z N.
Proof.
  intros HN. apply Prim2SF_inj. rewrite abs_spec.
  destruct (Prim2SF_number_of_Z false N HN) as (m & e & E & _).
  cbn [cond_Zopp] in E. rewrite E. reflexivity.
Qed.

(** The text of a non-negative integer below [10^15] is its decimal
    digits. *)
Lemma Number_toString_integer N :
  0 <= N < 10 ^ 15 -> Number_toString (number_of_Z N) = digits_of_Z N.
Proof.
  intros HN. destruct (Z.eq_dec N 0) as [-> | N0]; [reflexivity|].
  assert (H53 : 1 <= N < 2 ^ 53).
  { change (10 ^ 15) with 1000000000000000 in HN.
    change (2 ^ 53) with 9007199254740992. lia. }
  destruct (Prim2SF_number_of_Z false N H53) as (m & e & E & Bm & Be & V).
  cbn [cond_Zopp] in E.
  pose proof (mantissa_of_integer m e N V ltac:(lia)) as Em.
  unfold Number_toString. rewrite E.
  rewrite abs_number_of_Z by assumption.
  replace (Z.max e 0) with 0 by lia. replace (Z.max (- e) 0) with (- e) by lia.
  rewrite Z.pow_0_r, Z.mul_1_r, Em.
  set (D := 2 ^ (- e)).
  assert (HD : 0 < D) by (apply Z.pow_pos_nonneg; lia).
  replace (D <=? N * D) with true by (symmetry; apply Z.leb_le; nia).
  rewrite Z.div_mul by lia.
  pose proof (length_digits_of_Z 14 N ltac:(change (10 ^ Z.of_nat 15) with (10 ^ 15); lia)) as HL.
  pose proof (length_digits_of_Z_pos N) as HL1.
  set (L := Z.of_nat (List.length (digits_of_Z N))).
  destruct (shortest_digits_integer N D L ltac:(lia) HD ltac:(unfold L; lia)
              17%nat 1 ltac:(unfold L; lia) ltac:(unfold L; lia))
    as (s & p & Es & Hs & Hp & Hsp).
  rewrite Es.
  pose proof (significant_digits_pad (digits_of_Z s)) as [Hpad Hlen].
  cbn zeta in Hpad, Hlen.
  set (ds := digits_of_Z s) in *.
  set (sig := rev (strip_trailing_zeros_rev (rev ds))) in *.
  assert (Hs15 : s < 10 ^ 15).
  { assert (0 < 10 ^ p) by (apply Z.pow_pos_nonneg; lia). nia. }
  pose proof (length_digits_of_Z 14 s ltac:(change (10 ^ Z.of_nat 15) with (10 ^ 15); lia)) as Hds.
  fold ds in Hds.
  pose proof (length_digits_of_Z_pos s) as Hds1. fold ds in Hds1.
  assert (Htot : (List.length ds + Z.to_nat p = List.length (digits_of_Z N))%nat).
  { assert (EN : digits_of_Z N = ds ++ zeros (Z.to_nat p)).
    { unfold ds. rewrite <- digits_of_Z_pow10 by lia.
      rewrite Z2Nat.id by lia. now rewrite Hsp. }
    rewrite EN, length_app. unfold zeros. now rewrite repeat_length. }
  replace ((-6 <? p + Z.of_nat (List.length ds))
           && (p + Z.of_nat (List.length ds) <=? 21)) with true
    by (symmetry; apply andb_true_iff; split;
        [apply Z.ltb_lt | apply Z.leb_le]; lia).
  replace (Z.of_nat (List.length sig) <=? p + Z.of_nat (List.length ds)) with true
    by (symmetry; apply Z.leb_le; lia).
  cbn [app].
  replace (Z.to_nat (p + Z.of_nat (List.length ds) - Z.of_nat (List.length sig)))
    with ((List.length ds - List.length sig) + Z.to_nat p)%nat by lia.
  unfold zeros. rewrite repeat_app, app_assoc. fold (zeros (List.length ds - List.length sig)).
  etransitivity; [apply (f_equal (fun l => l ++ _)); exact Hpad|].
  fold (zeros (Z.to_nat p)). unfold ds.
  rewrite <- digits_of_Z_pow10 by lia.
  rewrite Z2Nat.id by lia. now rewrite Hsp.
Qed.

Local Open Scope float_scope.

(** ** Finite numbers *)

Lemma Number_isFinite_not_nan x : Number_isFinite x = true -> isNaN x = false.
Proof.
  unfold Number_isFinite. rewrite isNaN_spec.
  destruct (Prim2SF x); try discriminate; reflexivity.
Qed.

Lemma sub_finite_not_nan x y :
  Number_isFinite x = true -> Number_isFinite y = true -> isNaN (x - y) = false.
Proof.
  unfold Number_isFinite. rewrite isNaN_spec, sub_spec. unfold SF64sub.
  destruct (Prim2SF x) as [sx | sx | | sx mx ex],
           (Prim2SF y) as [sy | sy | | sy my ey];
    try discriminate; intros _ _; cbn [SFsub]; try reflexivity.
  - destruct sx, sy; reflexivity.
  - apply binary_normalize_not_nan.
Qed.

Lemma sub_le_zero x y :
  Number_isFinite x = true -> Number_isFinite y = true ->
  (x - y <=? 0) = (x <=? y).
Proof.
  intros Fx Fy.
  pose proof (sub_finite_not_nan x y Fx Fy) as N.
  pose proof (Number_isFinite_not_nan x Fx) as Nx.
  pose proof (Number_isFinite_not_nan y Fy) as Ny.
  pose proof (sub_pos x y) as P. pose proof ord_zero as Z0.
  assert (N0 : isNaN 0 = false) by reflexivity.
  destruct (y <? x) eqn:L; num_order.
Qed.

(* ===================================================================== *)
(** * Part IX.  Further properties of the auction engine *)
(* ===================================================================== *)

(** ** The life cycle predicates *)

(** X1.  At any one time, an auction that is active has not ended and cannot
    be started: [isAuctionActive] excludes both [hasAuctionEnded] and
    [canStartAuction]. *)
Theorem active_auction_neither_ended_nor_startable :
  forall (now : Date) (a : AuctionState),
    isAuctionActive now a = true ->
    hasAuctionEnded now a = false /\ canStartAuction now a = false.
Proof.
  intros now a. unfold isAuctionActive, hasAuctionEnded, canStartAuction,
    Date_ge, Date_le, Date_gt, num_ge, num_le, num_gt.
  destruct (status a); cbn [AuctionStatus_eqb andb]; [|discriminate].
  intros H. apply andb_true_iff in H. destruct H as [H1 H2].
  split; [|reflexivity]. num_order.
Qed.

Lemma active_auction_neither_ended_nor_startable_witness :
  hasAuctionEnded mockNow mockAuction = false
  /\ canStartAuction mockNow mockAuction = false.
Proof.
  apply (active_auction_neither_ended_nor_startable mockNow mockAuction).
  reflexivity.
Defined.

(** X2.  An open auction whose start time has been reached and whose end
    time is a valid date is active exactly as long as it has not ended. *)
Theorem open_auction_active_until_ended :
  forall (now : Date) (a : AuctionState),
    status a = open ->
    Date_ge now (startTime a) = true ->
    isNaN (getTime (endTime a)) = false ->
    isAuctionActive now a = negb (hasAuctionEnded now a).
Proof.
  intros now a Hs. unfold isAuctionActive, hasAuctionEnded,
    Date_ge, Date_le, Date_gt, num_ge, num_le, num_gt.
  rewrite Hs. cbn [AuctionStatus_eqb andb]. intros H1 H2. rewrite H1.
  cbn [andb]. num_order.
Qed.

Lemma open_auction_active_until_ended_witness :
  isAuctionActive mockNow mockAuction
  = negb (hasAuctionEnded mockNow mockAuction).
Proof.
  apply (open_auction_active_until_ended mockNow mockAuction); reflexivity.
Defined.

(** ** Remaining time *)

(** X3.  [hasAuctionEnded] holds exactly when [getTimeRemaining] is
    negative, and the remaining time is positive exactly when the current
    time is before the end time.  This holds for all time values, those of
    invalid dates included. *)
Theorem hasAuctionEnded_getTimeRemaining :
  forall (now : Date) (a : AuctionState),
    hasAuctionEnded now a = (getTimeRemaining now a <? 0)
    /\ (0 <? getTimeRemaining now a)
       = (getTime now <? getTime (endTime a)).
Proof.
  intros now a. unfold hasAuctionEnded, getTimeRemaining, Date_gt, num_gt.
  split; [now rewrite sub_neg | apply sub_pos].
Qed.

(** ** Bids and the next minimum *)

(** X4.  An amount that [validateBid] accepts is never below
    [getNextMinimumBid]; when that minimum is a number, the amount is at
    least the minimum. *)
Theorem accepted_bid_reaches_next_minimum :
  forall (now : Date) (a : AuctionState) (amount : number),
    success (validateBid now a amount) = true ->
    (amount <? getNextMinimumBid a) = false
    /\ (isNaN (getNextMinimumBid a) = false ->
        (getNextMinimumBid a <=? amount) = true).
Proof.
  intros now a amount H. apply validateBid_accepts in H.
  destruct H as (_ & I & _ & H1 & H2).
  apply Number_isInteger_not_nan in I.
  unfold getNextMinimumBid.
  destruct (currentHighestBidCents a =? 0); split; try assumption;
    intros N; num_order.
Qed.

Lemma accepted_bid_reaches_next_minimum_witness :
  (13000 <? getNextMinimumBid mockAuction) = false
  /\ (isNaN (getNextMinimumBid mockAuction) = false ->
      (getNextMinimumBid mockAuction <=? 13000) = true).
Proof.
  apply (accepted_bid_reaches_next_minimum mockNow mockAuction 13000).
  reflexivity.
Defined.

(** X5.  [validateBid] has no upper limit: when it accepts an amount, it
    accepts every integer amount that is at least as high, at the same time
    and on the same auction. *)
Theorem validateBid_accepts_higher_amounts :
  forall (now : Date) (a : AuctionState) (amount higher : number),
    success (validateBid now a amount) = true ->
    Number_isInteger higher = true ->
    (amount <=? higher) = true ->
    validateBid now a higher = accept.
Proof.
  intros now a amount higher H I L. apply validateBid_accepts in H.
  destruct H as (Hact & Ia & Hpos & H1 & H2).
  apply Number_isInteger_not_nan in Ia.
  pose proof (Number_isInteger_not_nan _ I) as Ih.
  unfold validateBid, accept, num_lt, num_le. rewrite Hact, I. cbn [negb orb].
  pose proof ord_zero as Z0.
  replace (higher <? minimumBidCents a) with false by (symmetry; num_order).
  replace (higher <? currentHighestBidCents a + bidIncrementCents a) with false
    by (symmetry; num_order).
  replace (higher <=? 0) with false by (symmetry; num_order).
  reflexivity.
Qed.

Lemma validateBid_accepts_higher_amounts_witness :
  validateBid mockNow mockAuction 20000 = accept.
Proof.
  apply (validateBid_accepts_higher_amounts mockNow mockAuction 13000 20000);
    reflexivity.
Defined.

Lemma is_highest_amount_nonempty l m :
  l <> [] -> is_highest_amount l m ->
  (exists b, In b l /\ (bidAmountCents b =? m) = true)
  /\ (forall b, In b l -> (bidAmountCents b <=? m) = true).
Proof. destruct l; [contradiction | intros _ H; exact H]. Qed.

(** ** The latest accepted bid wins *)

Lemma accepted_bid_step now a bid h i :
  AuctionState_invariant a ->
  (forall b, In b (bids a) -> isNaN (getTime (timestamp b)) = false) ->
  isNaN (getTime (timestamp bid)) = false ->
  currentHighestBidCents a = number_of_Z h ->
  bidIncrementCents a = number_of_Z i ->
  (0 <= h)%Z -> (0 < i)%Z -> (h + i < 2 ^ 53)%Z ->
  success (validateBid now a (bidAmountCents bid)) = true ->
  exists a',
    addBidToAuction now a bid = Return a'
    /\ getWinningBid a' = Some bid
    /\ currentHighestBidCents a' = bidAmountCents bid
    /\ bids a' = bids a ++ [bid]
    /\ bidIncrementCents a' = bidIncrementCents a
    /\ AuctionState_invariant a'.
Proof.
  intros [Hmax Hlen] Ht Htb Eh Ei Hh Hi Hhi Hs.
  unfold addBidToAuction. rewrite Hs. cbn [negb].
  eexists. split; [reflexivity|].
  cbn [currentHighestBidCents bids bidIncrementCents].
  pose proof Hs as Hs'.
  apply validateBid_accepts in Hs. destruct Hs as (_ & I & Hpos & _ & Hreq).
  apply Number_isInteger_not_nan in I.
  rewrite Eh, Ei, number_of_Z_add in Hreq by lia.
  assert (Hgt : (number_of_Z h <? bidAmountCents bid) = true).
  { pose proof (ord_number_of_Z h ltac:(lia)) as Oh.
    pose proof (ord_number_of_Z (h + i) ltac:(lia)) as Ohi.
    pose proof (isNaN_number_of_Z h). pose proof (isNaN_number_of_Z (h + i)).
    assert (0 < 2 ^ 1074)%Z by (apply Z.pow_pos_nonneg; lia).
    num_order; nia. }
  assert (Emax : Math_max (currentHighestBidCents a) (bidAmountCents bid)
                 = bidAmountCents bid).
  { rewrite Eh. unfold Math_max.
    rewrite I, isNaN_number_of_Z, Hgt. reflexivity. }
  split; [|split; [exact Emax|split; [reflexivity|split; [reflexivity|]]]].
  - apply (getWinningBid_unique (bids a ++ [bid])); [reflexivity| | |].
    + intros b Hb. apply in_app_or in Hb. destruct Hb as [Hb | [<- | []]].
      * split; [|now apply Ht].
        assert (Hne : bids a <> []) by (intros E; rewrite E in Hb; destruct Hb).
        destruct (is_highest_amount_nonempty _ _ Hne Hmax) as [_ Hall].
        specialize (Hall b Hb). num_order.
      * split; assumption.
    + apply in_or_app. right. now left.
    + intros b Hb. apply in_app_or in Hb. destruct Hb as [Hb | [<- | []]];
        [|now left].
      right. unfold beats. apply orb_true_iff. left.
      assert (Hne : bids a <> []) by (intros E; rewrite E in Hb; destruct Hb).
      destruct (is_highest_amount_nonempty _ _ Hne Hmax) as [_ Hall].
      specialize (Hall b Hb). rewrite Eh in Hall. num_order.
  - unfold AuctionState_invariant. cbn [bids currentHighestBidCents totalBids].
    split; [|reflexivity].
    apply is_highest_amount_snoc; assumption.
Qed.

(** X6.  On an auction whose state satisfies the invariants, with an
    integer highest bid [h] and a positive integer increment [i]
    ([h + i < 2^53]) and valid time stamps, a bid that [addBidToAuction]
    accepts is the winning bid of the new state, and its amount is the new
    highest bid. *)
Theorem accepted_bid_becomes_winner :
  forall (now : Date) (a : AuctionState) (bid : Bid) (h i : Z),
    AuctionState_invariant a ->
    (forall b, In b (bids a) -> isNaN (getTime (timestamp b)) = false) ->
    isNaN (getTime (timestamp bid)) = false ->
    currentHighestBidCents a = number_of_Z h ->
    bidIncrementCents a = number_of_Z i ->
    (0 <= h)%Z -> (0 < i)%Z -> (h + i < 2 ^ 53)%Z ->
    success (validateBid now a (bidAmountCents bid)) = true ->
    exists a',
      addBidToAuction now a bid = Return a'
      /\ getWinningBid a' = Some bid
      /\ currentHighestBidCents a' = bidAmountCents bid.
Proof.
  intros now a bid h i Hinv Ht Htb Eh Ei Hh Hi Hhi Hs.
  destruct (accepted_bid_step now a bid h i Hinv Ht Htb Eh Ei Hh Hi Hhi Hs)
    as (a' & H1 & H2 & H3 & _).
  exists a'. auto.
Qed.

Lemma accepted_bid_becomes_winner_witness :
  exists a',
    addBidToAuction mockNow freshAuction mockBid = Return a'
    /\ getWinningBid a' = Some mockBid
    /\ currentHighestBidCents a' = bidAmountCents mockBid.
Proof.
  apply (accepted_bid_becomes_winner mockNow freshAuction mockBid 0 500).
  - split; reflexivity.
  - intros b [].
  - reflexivity.
  - reflexivity.
  - reflexivity.
  - lia.
  - lia.
  - lia.
  - reflexivity.
Defined.





(** X8.  On an active auction whose minimum bid [m > 0], increment [i] and
    highest bid [h] are integers below [2^52], the amount proposed by
    [getNextMinimumBid] is accepted by [validateBid] exactly when either
    there is no highest bid ([h = 0]) and [i <= m], or [h > 0] and
    [m <= h + i].  In particular, before the first bid and with an
    increment above the minimum bid, the proposed amount is rejected. *)
Theorem getNextMinimumBid_accepted_iff :
  forall (now : Date) (a : AuctionState) (m i h : Z),
    isAuctionActive now a = true ->
    minimumBidCents a = number_of_Z m ->
    bidIncrementCents a = number_of_Z i ->
    currentHighestBidCents a = number_of_Z h ->
    (0 < m < 2 ^ 52)%Z -> (0 <= i < 2 ^ 52)%Z -> (0 <= h < 2 ^ 52)%Z ->
    (success (validateBid now a (getNextMinimumBid a)) = true
     <-> (h = 0 /\ i <= m)%Z \/ (0 < h /\ m <= h + i)%Z).
Proof.
  intros now a m i h Hact Em Ei Eh Hm Hi Hh.
  assert (P53 : (2 ^ 53 = 2 * 2 ^ 52)%Z) by reflexivity.
  unfold validateBid, getNextMinimumBid, num_lt, num_le.
  rewrite Hact, Em, Ei, Eh. cbn [negb].
  change 0 with (number_of_Z 0).
  rewrite number_of_Z_eqb by lia.
  rewrite (number_of_Z_add h i) by lia.
  destruct (Z.eqb_spec h 0) as [-> | Hn].
  - rewrite !number_of_Z_ltb, number_of_Z_leb, Number_isInteger_number_of_Z by lia.
    rewrite Z.ltb_irrefl. cbn [Z.add negb orb].
    replace (m <=? 0)%Z with false by (symmetry; apply Z.leb_gt; lia).
    destruct (Z.ltb_spec m i); cbn [success]; split; intros Hx;
      try discriminate; try reflexivity; lia.
  - rewrite !number_of_Z_ltb, number_of_Z_leb, Number_isInteger_number_of_Z by lia.
    rewrite Z.ltb_irrefl. cbn [negb orb].
    replace (h + i <=? 0)%Z with false by (symmetry; apply Z.leb_gt; lia).
    destruct (Z.ltb_spec (h + i) m); cbn [success]; split; intros Hx;
      try discriminate; try reflexivity; lia.
Qed.

Lemma getNextMinimumBid_accepted_iff_witness :
  success (validateBid mockNow mockAuction (getNextMinimumBid mockAuction))
  = true.
Proof.
  apply (getNextMinimumBid_accepted_iff mockNow mockAuction 10000 500 12000);
    try reflexivity; try lia.
Defined.

(** ** Bidding, then closing *)

Lemma getWinningBid_nonempty a :
  bids a <> [] -> exists w, getWinningBid a = Some w /\ In w (bids a).
Proof.
  intros Hne. rewrite getWinningBid_head.
  pose proof (Array_sort_perm (bids a)) as P.
  destruct (Array_sort compareBids (bids a)) as [| w t] eqn:E.
  - apply Permutation_sym, Permutation_nil in P. contradiction.
  - exists w. split; [reflexivity|].
    apply (Permutation_in _ (Permutation_sym P)). now left.
Qed.

(** X9.  The state returned by a successful [addBidToAuction] can be
    closed: [closeAuction] succeeds on it, returns a winning bid that is one
    of its bids (never null), and a bid count that is the old number of bids
    plus one and equals the [totalBids] of the state. *)
Theorem closeAuction_after_addBidToAuction :
  forall (now : Date) (a a' : AuctionState) (bid : Bid),
    addBidToAuction now a bid = Return a' ->
    closure_success (closeAuction a') = true
    /\ (exists w, winningBid (closeAuction a') = Some w /\ In w (bids a ++ [bid]))
    /\ closure_totalBids (closeAuction a')
       = number_of_nat (List.length (bids a) + 1)
    /\ closure_totalBids (closeAuction a') = totalBids a'.
Proof.
  intros now a a' bid. unfold addBidToAuction.
  destruct (success (validateBid now a (bidAmountCents bid))) eqn:Hs;
    cbn [negb]; [|discriminate].
  intros E. injection E as <-.
  apply validateBid_accepts in Hs. destruct Hs as (Hact & _).
  unfold isAuctionActive in Hact.
  destruct (status a) eqn:Es; [|discriminate].
  unfold closeAuction. cbn [status bids totalBids AuctionStatus_eqb
    closure_success winningBid closure_totalBids].
  rewrite length_app. cbn [List.length].
  split; [reflexivity|]. split; [|split; reflexivity].
  set (a' := {| lotId := _ |}).
  destruct (getWinningBid_nonempty a') as (w & Hw & Hin).
  - unfold a'. cbn [bids]. destruct (bids a); discriminate.
  - exists w. split; assumption.
Qed.

Lemma closeAuction_after_addBidToAuction_witness :
  exists a',
    addBidToAuction mockNow mockAuction mockBid = Return a'
    /\ closure_success (closeAuction a') = true
    /\ closure_totalBids (closeAuction a') = totalBids a'.
Proof.
  eexists. split; [reflexivity|].
  pose proof (closeAuction_after_addBidToAuction mockNow mockAuction _ mockBid
                eq_refl) as (H1 & _ & _ & H2).
  split; assumption.
Defined.

(** X10.  In a state that satisfies the invariants and whose bids have valid
    time stamps, the amount of the winning bid is
    [currentHighestBidCents]. *)
Theorem winning_amount_is_currentHighestBid :
  forall (a : AuctionState) (w : Bid),
    AuctionState_invariant a ->
    (forall b, In b (bids a) -> isNaN (getTime (timestamp b)) = false) ->
    getWinningBid a = Some w ->
    (bidAmountCents w =? currentHighestBidCents a) = true.
Proof.
  intros a w [Hmax _] Ht Hw.
  assert (Hne : bids a <> []).
  { intros E. unfold getWinningBid in Hw. rewrite E in Hw. discriminate. }
  destruct (is_highest_amount_nonempty _ _ Hne Hmax) as [(b & Hb & Hbm) Hall].
  assert (Hc : comparable_bids (bids a)).
  { intros x Hx. split.
    - specialize (Hall x Hx). num_order.
    - now apply Ht. }
  destruct (getWinningBid_first a w Hc Hw) as [Hin Hle].
  specialize (Hle b Hb). pose proof (Hall w Hin) as Hwm.
  unfold bid_le in Hle. num_order.
Qed.

Lemma winning_amount_is_currentHighestBid_witness :
  (bidAmountCents tieEarly =? 15000) = true.
Proof.
  apply (winning_amount_is_currentHighestBid
           {| lotId := str "lot-1"; status := open;
              startTime := mkDate 1700000000000;
              endTime := mkDate 1700003600000;
              minimumBidCents := 10000; bidIncrementCents := 500;
              currentHighestBidCents := 15000; totalBids := 2;
              bids := [tieLate; tieEarly] |} tieEarly).
  - split; [|reflexivity]. cbn [bids currentHighestBidCents is_highest_amount].
    split.
    + exists tieLate. split; [now left | reflexivity].
    + intros b [<- | [<- | []]]; reflexivity.
  - intros b [<- | [<- | []]]; reflexivity.
  - reflexivity.
Defined.

Local Open Scope Z_scope.

(** ** Amounts written with two decimals *)

Lemma ord_1e21 : ord 1e21%float = 10 ^ 21 * 2 ^ 1074.
Proof. vm_compute. reflexivity. Qed.

(** [toFixed(2)] of a count of centavos divided by 100 is the count written
    with two decimals: the division does not disturb the second decimal. *)
Lemma Number_toFixed_centavos k :
  0 <= k < 2 ^ 50 ->
  Number_toFixed 2 (number_of_Z k / 100)%float = fixed_digits 2 k.
Proof.
  intros Hk. destruct (Z.eq_dec k 0) as [-> | k0]; [reflexivity|].
  destruct (Prim2SF_number_of_Z false k ltac:(lia)) as (mc & ec & Ec & Bmc & Bec & Vc).
  cbn [cond_Zopp] in Ec.
  pose proof (div_spec (number_of_Z k) 100) as Hx.
  rewrite Ec, Prim2SF_100 in Hx. unfold SF64div in Hx.
  destruct (SFdiv_interval false mc ec 7036874417766400 (-46)
              Bmc ltac:(lia) ltac:(lia) ltac:(lia))
    as (mx & ex & q & T & Ex & Bmx & Bex & Bq & HT & Hxv & Hxq).
  rewrite Ex in Hx.
  assert (HK : Zpos mc * 2 ^ (ec - -46 + 1074) = k * 2 ^ 1074 * 2 ^ 46).
  { rewrite <- Vc, <- Z.mul_assoc, <- Z.pow_add_r by lia. do 2 f_equal. lia. }
  rewrite HK in Hxq.
  assert (HU : 0 < 2 ^ 1074) by (apply Z.pow_pos_nonneg; lia).
  assert (HKU : (k + 1) * 2 ^ 1074 <= 2 ^ 50 * 2 ^ 1074)
    by (apply Z.mul_le_mono_nonneg_r; lia).
  assert (HA : 2 ^ 52 * T <= q * T) by (apply Z.mul_le_mono_nonneg_r; lia).
  replace ((k + 1) * 2 ^ 1074) with (k * 2 ^ 1074 + 2 ^ 1074) in HKU by ring.
  set (x := (number_of_Z k / 100)%float) in *.
  assert (Habs : abs x = x).
  { apply Prim2SF_inj. rewrite abs_spec, Hx. reflexivity. }
  assert (Nx : isNaN x = false) by (rewrite isNaN_spec, Hx; reflexivity).
  assert (Ox : ord x = Zpos mx * 2 ^ (ex + 1074)) by (unfold ord; now rewrite Hx).
  set (K := k * 2 ^ 1074) in *. set (U := 2 ^ 1074) in *.
  set (X := Zpos mx * 2 ^ (ex + 1074)) in *.
  set (A := q * T) in *.
  replace ((q + 1) * T) with (A + T) in * by (unfold A; ring).
  change (2 ^ 46) with 70368744177664 in Hxq.
  change (2 ^ 52) with 4503599627370496 in HA.
  change (2 ^ 50) with 1125899906842624 in HKU.
  assert (R1 : 2 * (100 * X - K) < U) by lia.
  assert (R2 : 2 * (K - 100 * X) < U) by lia.
  assert (Hex : ex < 0).
  { destruct (Z.lt_ge_cases ex 0) as [L | G]; [assumption|]. exfalso.
    assert (U <= 2 ^ (ex + 1074)) by (apply Z.pow_le_mono_r; lia).
    assert (2 ^ 52 * U <= X) by (apply Z.mul_le_mono_nonneg; lia).
    change (2 ^ 52) with 4503599627370496 in *. lia. }
  unfold Number_toFixed. rewrite Hx, Habs.
  replace (1e21 <=? x)%float with false.
  2:{ symmetry. rewrite leb_ord, Nx, Ox, ord_1e21. cbn [isNaN orb negb andb].
      apply Z.leb_gt. fold U. change (10 ^ 21) with 1000000000000000000000. lia. }
  replace (0 <=? ex) with false by (symmetry; apply Z.leb_gt; lia).
  cbn [app].
  set (t := 2 ^ (ex + 1074)) in *. set (E := 2 ^ (- ex)).
  assert (Ht : 0 < t) by (apply Z.pow_pos_nonneg; lia).
  assert (HE : 0 < E) by (apply Z.pow_pos_nonneg; lia).
  assert (HUE : U = E * t).
  { unfold U, E, t. rewrite <- Z.pow_add_r by lia. f_equal. lia. }
  replace (2 ^ (1 - ex)) with (2 * E)
    by (unfold E; replace (1 - ex) with (1 + - ex) by lia;
        rewrite Z.pow_add_r by lia; reflexivity).
  change (10 ^ Z.of_nat 2) with 100.
  assert (B1 : 2 * (100 * Zpos mx - k * E) < E).
  { apply (Z.mul_lt_mono_pos_r t); [assumption|].
    unfold X, K in R1. rewrite HUE in R1. nia. }
  assert (B2 : 2 * (k * E - 100 * Zpos mx) < E).
  { apply (Z.mul_lt_mono_pos_r t); [assumption|].
    unfold X, K in R2. rewrite HUE in R2. nia. }
  f_equal. symmetry.
  apply Z.div_unique with (2 * (Zpos mx * 100) + E - 2 * E * k); lia.
Qed.

(** X11.  A bid below a threshold is told the threshold exactly.  In an
    active auction whose minimum bid is [m] centavos and whose highest bid
    plus increment is [r] centavos (integers from 0 up to [2^50]), a bid
    below the minimum is rejected with "Bid must be at least $" followed by
    [m] written in pesos with two decimals, and a bid that reaches the
    minimum but is below [r] is rejected with the same text for [r],
    followed by " (current high + increment)". *)
Theorem validateBid_message_shows_threshold :
  forall (now : Date) (a : AuctionState) (amount : number) (m r : Z),
    isAuctionActive now a = true ->
    0 <= m < 2 ^ 50 -> 0 <= r < 2 ^ 50 ->
    minimumBidCents a = number_of_Z m ->
    (currentHighestBidCents a + bidIncrementCents a)%float = number_of_Z r ->
    (num_lt amount (number_of_Z m) = true ->
     validateBid now a amount
     = {| success := false;
          error := Some (str "Bid must be at least $" ++ fixed_digits 2 m) |})
    /\ (num_lt amount (number_of_Z m) = false ->
        num_lt amount (number_of_Z r) = true ->
        validateBid now a amount
        = {| success := false;
             error := Some (str "Bid must be at least $" ++ fixed_digits 2 r
                            ++ str " (current high + increment)") |}).
Proof.
  intros now a amount m r Hact Hm Hr Em Er.
  unfold validateBid. rewrite Hact, Em, Er. cbn [negb].
  unfold msg_below_minimum, msg_below_increment, msg_at_least.
  rewrite !Number_toFixed_centavos by assumption.
  split.
  - intros ->. reflexivity.
  - intros -> ->. rewrite <- app_assoc. reflexivity.
Qed.

Lemma validateBid_message_shows_threshold_witness :
  validateBid mockNow mockAuction 5000%float
  = {| success := false;
       error := Some (str "Bid must be at least $100.00") |}.
Proof.
  apply (proj1 (validateBid_message_shows_threshold
                  mockNow mockAuction 5000%float 10000 12500
                  ltac:(reflexivity) ltac:(lia) ltac:(lia)
                  ltac:(reflexivity) ltac:(reflexivity))).
  reflexivity.
Defined.

Local Open Scope float_scope.

(** ** The display of the remaining time *)

Lemma last_app_cons (l1 l2 : jsstring) c d :
  List.last (l1 ++ c :: l2) d = List.last (c :: l2) d.
Proof.
  induction l1 as [| a l1 IH]; [reflexivity|].
  cbn [app]. rewrite <- IH.
  destruct (l1 ++ c :: l2) eqn:E; [|reflexivity].
  destruct l1; discriminate.
Qed.

Lemma not_ENDED (l : jsstring) : l ++ str "s" <> str "ENDED".
Proof.
  intros E. apply (f_equal (fun s => List.last s 0%N)) in E.
  change (str "s") with [115%N] in E. rewrite last_app_cons in E.
  discriminate.
Qed.

Lemma formatTimeRemaining_ENDED_aux ms :
  formatTimeRemaining ms = str "ENDED" <-> (ms <=? 0) = true.
Proof.
  unfold formatTimeRemaining, num_le, num_gt.
  destruct (ms <=? 0); [tauto|].
  split; [|discriminate]. intros E. exfalso.
  repeat match type of E with
  | (if ?c then _ else _) = _ => destruct c
  end;
  rewrite ?app_assoc in E; exact (not_ENDED _ E).
Qed.

(** X12.  [formatTimeRemaining] returns "ENDED" exactly for the arguments
    that are [<= 0]: no positive duration, however short, and no NaN is
    displayed as "ENDED". *)
Theorem formatTimeRemaining_ENDED :
  forall milliseconds : number,
    formatTimeRemaining milliseconds = str "ENDED"
    <-> (milliseconds <=? 0) = true.
Proof. exact formatTimeRemaining_ENDED_aux. Qed.

(** X13.  For valid dates, the remaining time of an auction is displayed as
    "ENDED" exactly from its end time on.  At the end time itself an open
    auction is still active and has not ended, while its remaining time is
    already displayed as "ENDED". *)
Theorem remaining_time_display_at_the_end :
  forall (now : Date) (a : AuctionState),
    Number_isFinite (getTime now) = true ->
    Number_isFinite (getTime (endTime a)) = true ->
    (formatTimeRemaining (getTimeRemaining now a) = str "ENDED"
     <-> Date_ge now (endTime a) = true)
    /\ (status a = open ->
        Date_le (startTime a) (endTime a) = true ->
        isAuctionActive (endTime a) a = true
        /\ hasAuctionEnded (endTime a) a = false
        /\ formatTimeRemaining (getTimeRemaining (endTime a) a) = str "ENDED").
Proof.
  intros now a Fn Fe.
  assert (H : forall t, Number_isFinite (getTime t) = true ->
            (formatTimeRemaining (getTimeRemaining t a) = str "ENDED"
             <-> Date_ge t (endTime a) = true)).
  { intros t Ft. unfold getTimeRemaining, Date_ge, num_ge.
    rewrite <- (sub_le_zero _ _ Fe Ft).
    destruct (formatTimeRemaining_ENDED_aux (getTime (endTime a) - getTime t));
      split; auto. }
  split; [now apply H|].
  intros Hs Hle.
  pose proof (Number_isFinite_not_nan _ Fe) as Ne.
  assert (Hge : Date_ge (endTime a) (endTime a) = true).
  { unfold Date_ge, num_ge. now apply leb_refl. }
  split; [|split].
  - unfold isAuctionActive. rewrite Hs. cbn [AuctionStatus_eqb andb].
    unfold Date_ge, Date_le, num_ge, num_le in *. rewrite Hle. cbn [andb].
    now apply leb_refl.
  - unfold hasAuctionEnded, Date_gt, num_gt. num_order.
  - now apply H.
Qed.

Lemma remaining_time_display_at_the_end_witness :
  isAuctionActive (endTime mockAuction) mockAuction = true
  /\ hasAuctionEnded (endTime mockAuction) mockAuction = false
  /\ formatTimeRemaining (getTimeRemaining (endTime mockAuction) mockAuction)
     = str "ENDED".
Proof.
  apply (proj2 (remaining_time_display_at_the_end mockNow mockAuction
                  eq_refl eq_refl)); reflexivity.
Defined.

(** X14.  For a whole number of milliseconds between 1 and [2^50],
    [formatTimeRemaining] writes the whole seconds [ms / 1000] as hours [h],
    minutes [m < 60] and seconds [s < 60]: all three when [h > 0], minutes
    and seconds when [h = 0 < m], and the seconds alone otherwise (a
    duration under one second is written "0s"). *)
Theorem formatTimeRemaining_integer :
  forall ms : Z,
    (0 < ms < 2 ^ 50)%Z ->
    exists h m s : Z,
      (ms / 1000 = 3600 * h + 60 * m + s)%Z
      /\ (0 <= h)%Z /\ (0 <= m < 60)%Z /\ (0 <= s < 60)%Z
      /\ formatTimeRemaining (number_of_Z ms) = hms_text h m s.
Proof.
  intros ms Hms.
  assert (P50 : (2 ^ 50 = 1125899906842624)%Z) by reflexivity.
  assert (P53 : (2 ^ 53 = 9007199254740992)%Z) by reflexivity.
  assert (P15 : (10 ^ 15 = 1000000000000000)%Z) by reflexivity.
  set (S := (ms / 1000)%Z).
  assert (HS : (0 <= S < 1125899906842624)%Z).
  { unfold S. split; [apply Z.div_pos; lia|].
    apply Z.div_lt_upper_bound; lia. }
  assert (HS15 : (S < 1000000000000000)%Z).
  { unfold S. apply Z.div_lt_upper_bound; lia. }
  pose proof (Z.div_mod S 3600 ltac:(lia)) as D1.
  pose proof (Z.mod_pos_bound S 3600 ltac:(lia)) as B1.
  pose proof (Z.div_mod (S mod 3600) 60 ltac:(lia)) as D2.
  pose proof (Z.mod_pos_bound (S mod 3600) 60 ltac:(lia)) as B2.
  assert (E60 : (S mod 60 = (S mod 3600) mod 60)%Z).
  { rewrite D1 at 1. replace (3600 * (S / 3600) + S mod 3600)%Z
      with (S mod 3600 + (60 * (S / 3600)) * 60)%Z by ring.
    apply Z.mod_add. lia. }
  assert (Hh : (0 <= S / 3600)%Z) by (apply Z.div_pos; lia).
  assert (Hm : (0 <= S mod 3600 / 60 < 60)%Z).
  { split; [apply Z.div_pos; lia|]. apply Z.div_lt_upper_bound; lia. }
  exists (S / 3600)%Z, (S mod 3600 / 60)%Z, (S mod 60)%Z.
  split; [rewrite E60; lia|]. split; [assumption|]. split; [assumption|].
  split; [apply Z.mod_pos_bound; lia|].
  unfold formatTimeRemaining, num_le, num_gt.
  change 0 with (number_of_Z 0). change 1000 with (number_of_Z 1000).
  change 3600 with (number_of_Z 3600). change 60 with (number_of_Z 60).
  rewrite number_of_Z_leb by lia.
  replace (ms <=? 0)%Z with false by (symmetry; apply Z.leb_gt; lia).
  rewrite (Math_floor_div ms 1000) by lia. fold S.
  rewrite (Math_floor_div S 3600) by lia.
  rewrite (Number_remainder_integers S 3600) by lia.
  rewrite (Math_floor_div (S mod 3600) 60) by lia.
  rewrite (Number_remainder_integers S 60) by lia.
  pose proof (Z.mod_pos_bound S 60 ltac:(lia)) as B3.
  assert (Hh15 : (S / 3600 < 1000000000000000)%Z).
  { apply Z.div_lt_upper_bound; lia. }
  rewrite !number_of_Z_ltb by lia.
  rewrite !Number_toString_integer by lia.
  reflexivity.
Qed.

Lemma formatTimeRemaining_integer_witness :
  exists h m s : Z,
    (3665000 / 1000 = 3600 * h + 60 * m + s)%Z
    /\ (0 <= h)%Z /\ (0 <= m < 60)%Z /\ (0 <= s < 60)%Z
    /\ formatTimeRemaining (number_of_Z 3665000) = hms_text h m s.
Proof.
  apply (formatTimeRemaining_integer 3665000). lia.
Defined.

(** X15.  For integer time values, the end not before the start and less
    than [2^50] milliseconds after it, [getAuctionDuration] is the whole
    number of minutes between them, [(end - start) / 60000] rounded down. *)
Theorem getAuctionDuration_whole_minutes :
  forall s e : Z,
    (- 2 ^ 53 < s < 2 ^ 53)%Z -> (- 2 ^ 53 < e < 2 ^ 53)%Z ->
    (0 <= e - s < 2 ^ 50)%Z ->
    getAuctionDuration (mkDate (number_of_Z s)) (mkDate (number_of_Z e))
    = number_of_Z ((e - s) / 60000).
Proof.
  intros s e Hs He Hd.
  assert (P50 : (2 ^ 50 = 1125899906842624)%Z) by reflexivity.
  assert (P53 : (2 ^ 53 = 9007199254740992)%Z) by reflexivity.
  unfold getAuctionDuration. cbn [getTime].
  change (1000 * 60) with (number_of_Z 60000).
  rewrite number_of_Z_sub by lia.
  apply Math_floor_div; lia.
Qed.

Lemma getAuctionDuration_whole_minutes_witness :
  getAuctionDuration (mkDate (number_of_Z 1700000000000))
    (mkDate (number_of_Z 1700007200000))
  = number_of_Z ((1700007200000 - 1700000000000) / 60000).
Proof.
  apply (getAuctionDuration_whole_minutes 1700000000000 1700007200000); lia.
Defined.

(* ===================================================================== *)
(** * Part X.  Further properties of the money utilities *)
(* ===================================================================== *)

Local Open Scope Z_scope.

Lemma sum_of_nonneg l : Forall (fun a => 0 <= a) l -> 0 <= sum_of l.
Proof.
  induction 1 as [| a l Ha _ IH]; cbn [sum_of fold_right]; [lia|].
  fold (sum_of l). lia.
Qed.

Lemma isValidMoneyAmount_number_of_Z A :
  - 2 ^ 53 < A < 2 ^ 53 -> isValidMoneyAmount (number_of_Z A) = (0 <=? A).
Proof.
  intros HA. unfold isValidMoneyAmount.
  rewrite Number_isInteger_number_of_Z by assumption. cbn [andb].
  change 0%float with (number_of_Z 0). apply number_of_Z_leb; lia.
Qed.

Lemma addMoney_fold l : forall acc,
  0 <= acc -> Forall (fun a => 0 <= a) l -> acc + sum_of l < 2 ^ 53 ->
  List.fold_left (fun sum amount => (sum + amount)%float)
    (List.map number_of_Z l) (number_of_Z acc)
  = number_of_Z (acc + sum_of l).
Proof.
  induction l as [| a l IH]; intros acc Hacc Hl Hs.
  - cbn. f_equal. lia.
  - inversion Hl as [| ? ? Ha Hl']; subst.
    cbn [sum_of fold_right] in Hs. fold (sum_of l) in Hs.
    pose proof (sum_of_nonneg l Hl').
    cbn [List.map List.fold_left]. rewrite number_of_Z_add by lia.
    rewrite IH by (assumption || lia).
    f_equal. cbn [sum_of fold_right]. fold (sum_of l). lia.
Qed.


Local Open Scope float_scope.

(** X16.  [addMoney] of non-negative integer amounts whose total is below
    [2^53] is that total, exactly, and a valid money amount. *)
Theorem addMoney_exact :
  forall l : list Z,
    Forall (fun a => (0 <= a)%Z) l -> (sum_of l < 2 ^ 53)%Z ->
    addMoney (List.map number_of_Z l) = number_of_Z (sum_of l)
    /\ isValidMoneyAmount (addMoney (List.map number_of_Z l)) = true.
Proof.
  intros l Hl Hs. pose proof (sum_of_nonneg l Hl).
  assert (E : addMoney (List.map number_of_Z l) = number_of_Z (sum_of l)).
  { unfold addMoney. change 0 with (number_of_Z 0).
    now rewrite addMoney_fold by (assumption || lia). }
  split; [assumption|]. rewrite E, isValidMoneyAmount_number_of_Z by lia.
  now apply Z.leb_le.
Qed.

Lemma addMoney_exact_witness :
  addMoney (List.map number_of_Z [1000; 2000; 3000]%Z) = number_of_Z 6000
  /\ isValidMoneyAmount (addMoney (List.map number_of_Z [1000; 2000; 3000]%Z))
     = true.
Proof.
  apply (addMoney_exact [1000; 2000; 3000]%Z).
  - repeat constructor; lia.
  - reflexivity.
Defined.



Local Open Scope Z_scope.

(** The commission and the net amount on an integer gross amount, as
    integers. *)
Lemma settlement_integers G :
  0 <= G < 2 ^ 50 ->
  exists n,
    -52 <= 100 * n - 6 * G <= 52
    /\ 0 <= n <= G
    /\ calculateCommission (number_of_Z G) = number_of_Z n
    /\ commissionCents (calculateSettlement (number_of_Z G)) = number_of_Z n
    /\ netToSupplierCents (calculateSettlement (number_of_Z G))
       = number_of_Z (G - n - 2500).
Proof.
  intros HG. destruct (calculateCommission_integer G HG) as (n & Hc & Hn).
  exists n. split; [assumption|]. split; [lia|]. split; [assumption|].
  unfold calculateCommission in Hc.
  cbn [calculateSettlement commissionCents netToSupplierCents].
  rewrite Hc. split; [reflexivity|].
  change (2 ^ 50) with 1125899906842624 in HG.
  rewrite number_of_Z_sub by (change (2 ^ 53) with 9007199254740992; lia).
  rewrite number_2500.
  apply number_of_Z_sub; change (2 ^ 53) with 9007199254740992; lia.
Qed.

Local Open Scope float_scope.

(** X18.  The three ways of computing the net amount agree for every number:
    [subtractMoney] of commission and labor fee from the gross amount,
    [calculateNetAmount] with its defaults, and [calculateNetAmount] given
    [calculateCommission] and [calculateLaborFee], all give the
    [netToSupplierCents] of [calculateSettlement].  For an integer gross
    amount below [2^50], commission, labor fee and net amount add up to the
    gross amount, exactly. *)
Theorem settlement_parts_add_up :
  (forall g : number,
     subtractMoney g [commissionCents (calculateSettlement g);
                      laborFeeCents (calculateSettlement g)]
     = netToSupplierCents (calculateSettlement g)
     /\ calculateNetAmount g None None
        = netToSupplierCents (calculateSettlement g)
     /\ calculateNetAmount g (Some (calculateCommission g))
          (Some calculateLaborFee)
        = netToSupplierCents (calculateSettlement g))
  /\ (forall G : Z,
        (0 <= G < 2 ^ 50)%Z ->
        addMoney [commissionCents (calculateSettlement (number_of_Z G));
                  laborFeeCents (calculateSettlement (number_of_Z G));
                  netToSupplierCents (calculateSettlement (number_of_Z G))]
        = number_of_Z G).
Proof.
  split.
  - intros g. repeat split.
  - intros G HG.
    destruct (settlement_integers G HG) as (n & Hn & Bn & _ & Hc & Hnet).
    rewrite Hc, Hnet. cbn [calculateSettlement laborFeeCents].
    unfold addMoney. cbn [List.fold_left].
    change 0 with (number_of_Z 0). rewrite number_2500.
    change (2 ^ 50)%Z with 1125899906842624%Z in HG.
    rewrite !number_of_Z_add by (change (2 ^ 53)%Z with 9007199254740992%Z; lia).
    f_equal. lia.
Qed.

Lemma settlement_parts_add_up_witness :
  addMoney [commissionCents (calculateSettlement (number_of_Z 50000));
            laborFeeCents (calculateSettlement (number_of_Z 50000));
            netToSupplierCents (calculateSettlement (number_of_Z 50000))]
  = number_of_Z 50000.
Proof.
  apply (proj2 settlement_parts_add_up 50000%Z). lia.
Defined.

(** X19.  For an integer gross amount [G] below [2^50], the net amount to the
    supplier is non-negative, and a valid money amount, exactly when
    [G >= 2660]: below 26.60 pesos the commission and the labor fee exceed
    the gross amount and the net amount is negative. *)
Theorem net_amount_nonnegative_iff :
  forall G : Z,
    (0 <= G < 2 ^ 50)%Z ->
    (0 <=? netToSupplierCents (calculateSettlement (number_of_Z G)))
    = (2660 <=? G)%Z
    /\ isValidMoneyAmount
         (netToSupplierCents (calculateSettlement (number_of_Z G)))
       = (2660 <=? G)%Z.
Proof.
  intros G HG.
  destruct (settlement_integers G HG) as (n & Hn & Bn & _ & _ & Hnet).
  rewrite Hnet. change (2 ^ 50)%Z with 1125899906842624%Z in HG.
  assert (B : (- 2 ^ 53 < G - n - 2500 < 2 ^ 53)%Z)
    by (change (2 ^ 53)%Z with 9007199254740992%Z; lia).
  assert (E : (0 <=? G - n - 2500)%Z = (2660 <=? G)%Z).
  { destruct (Z.leb_spec 2660 G); [apply Z.leb_le | apply Z.leb_gt]; lia. }
  split.
  - change 0 with (number_of_Z 0). rewrite number_of_Z_leb by (assumption || lia).
    exact E.
  - rewrite isValidMoneyAmount_number_of_Z by assumption. exact E.
Qed.

Lemma net_amount_nonnegative_iff_witness :
  (0 <=? netToSupplierCents (calculateSettlement (number_of_Z 2659))) = false.
Proof.
  apply (proj1 (net_amount_nonnegative_iff 2659%Z ltac:(lia))).
Defined.

(** X20.  For an integer gross amount below [2^50], the commission is a valid
    money amount (a non-negative integer) and does not exceed the gross
    amount. *)
Theorem commission_is_valid_amount :
  forall G : Z,
    (0 <= G < 2 ^ 50)%Z ->
    isValidMoneyAmount (calculateCommission (number_of_Z G)) = true
    /\ (calculateCommission (number_of_Z G) <=? number_of_Z G) = true.
Proof.
  intros G HG.
  destruct (settlement_integers G HG) as (n & Hn & Bn & Hc & _).
  rewrite Hc. change (2 ^ 50)%Z with 1125899906842624%Z in HG.
  assert (B : (- 2 ^ 53 < n < 2 ^ 53)%Z)
    by (change (2 ^ 53)%Z with 9007199254740992%Z; lia).
  split.
  - rewrite isValidMoneyAmount_number_of_Z by assumption. apply Z.leb_le. lia.
  - rewrite number_of_Z_leb
      by (assumption || (change (2 ^ 53)%Z with 9007199254740992%Z; lia)).
    apply Z.leb_le. lia.
Qed.

Lemma commission_is_valid_amount_witness :
  isValidMoneyAmount (calculateCommission (number_of_Z 1001)) = true.
Proof.
  apply (proj1 (commission_is_valid_amount 1001%Z ltac:(lia))).
Defined.

Local Open Scope Z_scope.

(** The commission on [G] is [Math.round] of a product [Y] (here scaled by
    [2^1074]) that differs from six percent of [G] by less than one part in
    [2^52]. *)
Lemma calculateCommission_bracket G :
  0 < G < 2 ^ 50 ->
  exists n Y,
    calculateCommission (number_of_Z G) = number_of_Z n
    /\ -52 <= 100 * n - 6 * G <= 52
    /\ 2 * (n * 2 ^ 1074) <= 2 * Y + 2 ^ 1074 < 2 * (n * 2 ^ 1074) + 2 * 2 ^ 1074
    /\ 2 ^ 52 * (Y * 2 ^ 57 - G * (2 ^ 1074 * 8646911284551352))
       <= G * (2 ^ 1074 * 8646911284551352)
    /\ 2 ^ 52 * (G * (2 ^ 1074 * 8646911284551352) - Y * 2 ^ 57)
       <= G * (2 ^ 1074 * 8646911284551352).
Proof.
  intros HG.
  unfold calculateCommission.
  destruct (Prim2SF_number_of_Z false G ltac:(lia)) as (mg & eg & Eg & Bmg & Beg & Vg).
  cbn [cond_Zopp] in Eg.
  pose proof (mul_spec (number_of_Z G) 0.06) as Hy.
  rewrite Eg, Prim2SF_6_percent in Hy. unfold SF64mul in Hy.
  destruct (SFmul_interval false mg eg 8646911284551352 (-57)
              Bmg ltac:(lia) ltac:(lia) ltac:(lia))
    as (my & ey & p & T' & Ey & Bmy & Bey & Bp & HT' & Hyv & Hyp).
  rewrite Ey in Hy.
  unfold Math_round. rewrite Hy.
  replace (0 <=? ey) with false by (symmetry; apply Z.leb_gt; lia).
  cbn [cond_Zopp].
  set (t := 2 ^ (ey + 1074)) in *. set (E := 2 ^ (- ey)).
  assert (Ht : 0 < t) by (apply Z.pow_pos_nonneg; lia).
  assert (HE : 0 < E) by (apply Z.pow_pos_nonneg; lia).
  assert (HUE : 2 ^ 1074 = E * t).
  { unfold E, t. rewrite <- Z.pow_add_r by lia. f_equal. lia. }
  replace (2 ^ (1 - ey)) with (2 * E)
    by (unfold E; replace (1 - ey) with (1 + - ey) by lia;
        rewrite Z.pow_add_r by lia; reflexivity).
  set (n := (2 * Zpos my + E) / (2 * E)).
  pose proof (Z.div_mod (2 * Zpos my + E) (2 * E) ltac:(lia)) as Hdm.
  pose proof (Z.mod_pos_bound (2 * Zpos my + E) (2 * E) ltac:(lia)) as Hmb.
  fold n in Hdm.
  exists n, (Zpos my * t). split.
  { destruct (Z.eqb_spec n 0) as [-> | _]; reflexivity. }
  assert (HW : Zpos mg * 8646911284551352 * 2 ^ (eg + -57 + 1074) * 2 ^ 57
               = G * (2 ^ 1074 * 8646911284551352)).
  { rewrite Z.mul_assoc, <- Vg.
    replace (eg + 1074) with (57 + (eg + -57 + 1074)) by lia.
    rewrite (Z.pow_add_r 2 57) by lia. ring. }
  assert (HB : 2 ^ 52 * T' <= p * T') by (apply Z.mul_le_mono_nonneg_r; lia).
  assert (Hn1 : 2 * (n * (E * t)) <= 2 * (Zpos my * t) + E * t).
  { replace (2 * (n * (E * t))) with ((2 * E * n) * t) by ring.
    replace (2 * (Zpos my * t) + E * t) with ((2 * Zpos my + E) * t) by ring.
    apply Z.mul_le_mono_nonneg_r; lia. }
  assert (Hn2 : 2 * (Zpos my * t) + E * t < 2 * (n * (E * t)) + 2 * (E * t)).
  { replace (2 * (n * (E * t)) + 2 * (E * t)) with ((2 * E * n + 2 * E) * t) by ring.
    replace (2 * (Zpos my * t) + E * t) with ((2 * Zpos my + E) * t) by ring.
    apply Z.mul_lt_mono_pos_r; lia. }
  rewrite <- HUE in Hn1, Hn2.
  assert (HU : 0 < 2 ^ 1074) by (apply Z.pow_pos_nonneg; lia).
  assert (HGU : (G + 1) * 2 ^ 1074 <= 2 ^ 50 * 2 ^ 1074)
    by (apply Z.mul_le_mono_nonneg_r; lia).
  replace ((G + 1) * 2 ^ 1074) with (G * 2 ^ 1074 + 2 ^ 1074) in HGU by ring.
  replace (G * (2 ^ 1074 * 8646911284551352))
    with (G * 2 ^ 1074 * 8646911284551352) in * by ring.
  set (U := 2 ^ 1074) in *. set (GU := G * U) in *. set (nU := n * U) in *.
  set (Y := Zpos my * t) in *.
  set (W := Zpos mg * 8646911284551352 * 2 ^ (eg + -57 + 1074)) in *.
  set (B := p * T') in *.
  replace ((p + 1) * T') with (B + T') in * by (unfold B; ring).
  change (2 ^ 57) with 144115188075855872 in *.
  change (2 ^ 52) with 4503599627370496 in *.
  change (2 ^ 50) with 1125899906842624 in HGU.
  split.
  { assert (R1 : -52 * U <= 100 * nU - 6 * GU) by lia.
    assert (R2 : 100 * nU - 6 * GU <= 52 * U) by lia.
    unfold nU, GU in R1, R2.
    replace (100 * (n * U) - 6 * (G * U)) with ((100 * n - 6 * G) * U) in R1, R2
      by ring.
    split.
    - apply (Z.mul_le_mono_pos_r _ _ U); assumption.
    - apply (Z.mul_le_mono_pos_r _ _ U); assumption. }
  split; [split; assumption|].
  split; lia.
Qed.

Lemma net_of_commission G n :
  0 <= G < 2 ^ 50 -> 0 <= n <= G ->
  calculateCommission (number_of_Z G) = number_of_Z n ->
  netToSupplierCents (calculateSettlement (number_of_Z G))
  = number_of_Z (G - n - 2500).
Proof.
  intros HG Hn Hc. unfold calculateCommission in Hc.
  cbn [calculateSettlement netToSupplierCents]. rewrite Hc.
  change (2 ^ 50) with 1125899906842624 in HG.
  rewrite number_of_Z_sub by (change (2 ^ 53) with 9007199254740992; lia).
  rewrite number_2500.
  apply number_of_Z_sub; change (2 ^ 53) with 9007199254740992; lia.
Qed.

Lemma commission_monotone_pos G1 G2 n1 n2 Y1 Y2 :
  0 < G1 < G2 -> G2 < 2 ^ 50 ->
  2 * (n1 * 2 ^ 1074) <= 2 * Y1 + 2 ^ 1074 ->
  2 * Y2 + 2 ^ 1074 < 2 * (n2 * 2 ^ 1074) + 2 * 2 ^ 1074 ->
  2 ^ 52 * (Y1 * 2 ^ 57 - G1 * (2 ^ 1074 * 8646911284551352))
    <= G1 * (2 ^ 1074 * 8646911284551352) ->
  2 ^ 52 * (G2 * (2 ^ 1074 * 8646911284551352) - Y2 * 2 ^ 57)
    <= G2 * (2 ^ 1074 * 8646911284551352) ->
  n1 <= n2.
Proof.
  intros HG H2 R1 R2 U1 L2.
  assert (HU : 0 < 2 ^ 1074) by (apply Z.pow_pos_nonneg; lia).
  set (U := 2 ^ 1074) in *. set (C := U * 8646911284551352) in *.
  assert (HC : 0 < C) by (unfold C; lia).
  assert (Hd : G1 * C + C <= G2 * C).
  { replace (G1 * C + C) with ((G1 + 1) * C) by ring.
    apply Z.mul_le_mono_nonneg_r; lia. }
  assert (Hb1 : G1 * C <= 2 ^ 50 * C) by (apply Z.mul_le_mono_nonneg_r; lia).
  assert (Hb2 : G2 * C <= 2 ^ 50 * C) by (apply Z.mul_le_mono_nonneg_r; lia).
  set (a1 := G1 * C) in *. set (a2 := G2 * C) in *.
  change (2 ^ 57) with 144115188075855872 in *.
  change (2 ^ 52) with 4503599627370496 in *.
  change (2 ^ 50) with 1125899906842624 in *.
  assert (HY : Y1 < Y2) by lia.
  assert (Hn : n1 * U < n2 * U + U) by lia.
  assert (Hn' : n1 * U < (n2 + 1) * U) by lia.
  apply Z.mul_lt_mono_pos_r in Hn'; lia.
Qed.

Local Open Scope float_scope.

(** X21.  For integer gross amounts below [2^50], a higher gross amount never
    gives a lower commission nor a lower net amount. *)
Theorem settlement_monotone :
  forall G1 G2 : Z,
    (0 <= G1 <= G2)%Z -> (G2 < 2 ^ 50)%Z ->
    (calculateCommission (number_of_Z G1)
       <=? calculateCommission (number_of_Z G2)) = true
    /\ (netToSupplierCents (calculateSettlement (number_of_Z G1))
          <=? netToSupplierCents (calculateSettlement (number_of_Z G2))) = true.
Proof.
  intros G1 G2 H12 H2.
  assert (P50 : (2 ^ 50 = 1125899906842624)%Z) by reflexivity.
  assert (P53 : (2 ^ 53 = 9007199254740992)%Z) by reflexivity.
  destruct (Z.eq_dec G1 G2) as [-> | Hne].
  { destruct (settlement_integers G2 ltac:(lia)) as (n & Hn & Bn & Hc & _ & Hnet).
    rewrite Hc, Hnet, !number_of_Z_leb by lia. split; apply Z.leb_le; lia. }
  destruct (calculateCommission_bracket G2 ltac:(lia))
    as (n2 & Y2 & Hc2 & Hn2 & [R2 R2'] & L2 & U2).
  destruct (Z.eq_dec G1 0) as [-> | G10].
  { rewrite Hc2. change (calculateCommission (number_of_Z 0)) with (number_of_Z 0).
    change (netToSupplierCents (calculateSettlement (number_of_Z 0)))
      with (number_of_Z (-2500)).
    rewrite (net_of_commission G2 n2) by (assumption || lia).
    rewrite !number_of_Z_leb by lia. split; apply Z.leb_le; lia. }
  destruct (calculateCommission_bracket G1 ltac:(lia))
    as (n1 & Y1 & Hc1 & Hn1 & [R1 R1'] & L1 & U1).
  pose proof (commission_monotone_pos G1 G2 n1 n2 Y1 Y2 ltac:(lia) H2
                R1 R2' L1 U2) as Hmono.
  rewrite Hc1, Hc2.
  rewrite (net_of_commission G1 n1), (net_of_commission G2 n2)
    by (assumption || lia).
  rewrite !number_of_Z_leb by lia. split; apply Z.leb_le; lia.
Qed.

Lemma settlement_monotone_witness :
  (calculateCommission (number_of_Z 1000)
     <=? calculateCommission (number_of_Z 1001)) = true.
Proof.
  apply (proj1 (settlement_monotone 1000 1001 ltac:(lia) ltac:(lia))).
Defined.

(** X22.  [pesosTocentavos], [calculateCommission] and [calculateLotValue]
    return an integer whenever the product they round is finite (and only
    then). *)
Theorem rounded_amounts_are_integers :
  forall x y : number,
    Number_isInteger (pesosTocentavos x) = Number_isFinite (x * 100)
    /\ Number_isInteger (calculateCommission x) = Number_isFinite (x * 0.06)
    /\ Number_isInteger (calculateLotValue x y) = Number_isFinite (x * y).
Proof.
  intros x y. unfold pesosTocentavos, calculateCommission, calculateLotValue.
  repeat split; apply Math_round_integer.
Qed.

(** X23.  Whatever [parseMoneyString] returns is never NaN: it is an integer
    number of centavos, or an infinity (for a text such as "Infinity" or
    "1e400"). *)
Theorem parseMoneyString_returns_integer :
  forall (s : jsstring) (centavos : number),
    parseMoneyString s = Return centavos ->
    isNaN centavos = false
    /\ (Number_isInteger centavos = true
        \/ centavos = infinity \/ centavos = neg_infinity).
Proof.
  intros s c. unfold parseMoneyString.
  destruct (isNaN (parseFloat (strip_money_chars s))) eqn:N; [discriminate|].
  intros E. injection E as <-. unfold pesosTocentavos.
  set (v := parseFloat (strip_money_chars s)) in *.
  pose proof (mul_100_not_nan v N) as N'.
  pose proof (Math_round_integer (v * 100)) as I.
  destruct (Number_isFinite (v * 100)) eqn:F.
  - split; [now apply Number_isInteger_not_nan | now left].
  - assert (R : Math_round (v * 100) = v * 100).
    { unfold Math_round. unfold Number_isFinite in F.
      destruct (Prim2SF (v * 100)); try discriminate; reflexivity. }
    rewrite R. split; [assumption|]. right.
    destruct (not_finite_cases _ F) as [H | H]; [|assumption].
    rewrite H in N'. discriminate.
Qed.

Lemma parseMoneyString_returns_integer_witness :
  isNaN 123456 = false
  /\ (Number_isInteger 123456 = true
      \/ 123456 = infinity \/ 123456 = neg_infinity).
Proof.
  apply (parseMoneyString_returns_integer (peso_sign :: str "1,234.56")).
  reflexivity.
Defined.

Local Open Scope float_scope.



Local Open Scope Z_scope.

(** ** Reading an amount written with two decimals *)

(** The number read from the decimal text of [k] hundredths, multiplied by
    100, rounds to [k]. *)
Lemma pesosTocentavos_number_of_decimal k :
  1 <= k < 2 ^ 49 ->
  pesosTocentavos (number_of_decimal k (-2)) = number_of_Z k.
Proof.
  intros Hk. unfold pesosTocentavos, number_of_decimal.
  replace (k =? 0) with false by (symmetry; apply Z.eqb_neq; lia).
  replace (0 <=? -2) with false by reflexivity.
  change (10 ^ (- -2)) with 100. change (Z.log2 100) with 6.
  pose proof (Z.log2_spec k ltac:(lia)) as Hl.
  pose proof (Z.log2_nonneg k) as Hl0.
  assert (Hl49 : Z.log2 k < 49) by (apply Z.log2_lt_pow2; lia).
  set (L := Z.log2 k) in *.
  replace (Z.max 0 (6 + 66 - L)) with (72 - L) by lia.
  set (s := 72 - L).
  assert (Hs : 24 <= s <= 72) by (unfold s; lia).
  pose proof (Z.div_mod (k * 2 ^ s) 100 ltac:(lia)) as Hdm.
  pose proof (Z.mod_pos_bound (k * 2 ^ s) 100 ltac:(lia)) as Hmb.
  set (q := k * 2 ^ s / 100) in *. set (r := (k * 2 ^ s) mod 100) in *.
  set (b := if r =? 0 then 0 else 1).
  assert (Hb : (r = 0 /\ b = 0) \/ (0 < r /\ b = 1)).
  { unfold b. destruct (Z.eqb_spec r 0); [left | right]; lia. }
  assert (Hks : 2 ^ 72 <= k * 2 ^ s < 2 ^ 73).
  { assert (E1 : 2 ^ 72 = 2 ^ L * 2 ^ s)
      by (rewrite <- Z.pow_add_r by lia; f_equal; unfold s; lia).
    assert (E2 : 2 ^ 73 = 2 ^ Z.succ L * 2 ^ s)
      by (rewrite <- Z.pow_add_r by lia; f_equal; unfold s; lia).
    assert (0 < 2 ^ s) by (apply Z.pow_pos_nonneg; lia).
    rewrite E1, E2. split.
    - apply Z.mul_le_mono_nonneg_r; lia.
    - apply Z.mul_lt_mono_pos_r; lia. }
  set (M := 2 * q + b).
  assert (BM : 2 ^ 66 <= M < 2 ^ 68).
  { change (2 ^ 72) with 4722366482869645213696 in Hks.
    change (2 ^ 73) with 9444732965739290427392 in Hks.
    change (2 ^ 66) with 73786976294838206464.
    change (2 ^ 68) with 295147905179352825856. unfold M. lia. }
  set (j := if M <? 2 ^ 67 then 14 else 15).
  assert (Hj : 14 <= j <= 15) by (unfold j; destruct (M <? 2 ^ 67); lia).
  assert (DM : Zdigits2 M = 53 + j).
  { unfold j. destruct (Z.ltb_spec M (2 ^ 67)); apply Zdigits2_unique; lia. }
  set (e := - (s + 1)).
  assert (He : -73 <= e <= -25) by (unfold e; lia).
  (* the conversion of [M * 2^e] *)
  assert (Hx : exists mx ex,
             Prim2SF (number_of_scaled M e) = S754_finite false mx ex
             /\ 2 ^ 52 <= Zpos mx < 2 ^ 53 /\ e + j <= ex <= e + j + 1
             /\ (M / 2 ^ j) * 2 ^ (e + j + 1074) <= Zpos mx * 2 ^ (ex + 1074)
                <= (M / 2 ^ j + 1) * 2 ^ (e + j + 1074)).
  { unfold number_of_scaled.
    destruct M as [| p | p] eqn:EM; try lia.
    cbn [binary_normalize]. unfold binary_round.
    cbn [Zdigits2] in DM. rewrite DM.
    unfold fexp, SpecFloat.emin. change prec with 53. change emax with 1024.
    replace (Z.max (53 + j + e - 53) (3 - 1024 - 53)) with (j + e) by lia.
    unfold shl_align. replace (j + e - e) with j by lia.
    assert (Ej : match j with
                 | Z.neg d => (Pos.iter xO p d, j + e)
                 | _ => (p, e)
                 end = (p, e)) by (destruct j; try lia; reflexivity).
    rewrite Ej.
    destruct (binary_round_aux_faithful false (Zpos p) e loc_Exact j
                ltac:(lia) ltac:(cbn [Zdigits2]; exact DM) ltac:(lia) ltac:(lia) ltac:(lia))
      as (m' & e' & E & Bm' & Be' & Hval).
    change (binary_round_aux 53 1024) with (binary_round_aux prec emax).
    rewrite E. rewrite Prim2SF_SF2Prim by (apply normal_valid; lia).
    exists m', e'. repeat split; try lia. }
  destruct Hx as (mx & ex & Ex & Bmx & Bex & Hxv).
  set (x := number_of_scaled M e) in *.
  pose proof (mul_spec x 100) as Hy.
  rewrite Ex, Prim2SF_100 in Hy. unfold SF64mul in Hy.
  destruct (SFmul_interval false mx ex 7036874417766400 (-46)
              Bmx ltac:(lia) ltac:(lia) ltac:(lia))
    as (my & ey & p & T' & Ey & Bmy & Bey & Bp & HT' & Hyv & Hyp).
  rewrite Ey in Hy.
  assert (HX : Zpos mx * 7036874417766400 * 2 ^ (ex + -46 + 1074)
               = 100 * (Zpos mx * 2 ^ (ex + 1074))).
  { replace (ex + 1074) with (46 + (ex + -46 + 1074)) by lia.
    rewrite (Z.pow_add_r 2 46) by lia.
    change 7036874417766400 with (100 * 2 ^ 46). ring. }
  rewrite HX in Hyp.
  (* everything in units of [2^-1074] *)
  set (w0 := 2 ^ (e + 1074)).
  assert (Hw0 : 0 < w0) by (apply Z.pow_pos_nonneg; lia).
  assert (HW : 2 ^ (e + j + 1074) = 2 ^ j * w0)
    by (unfold w0; rewrite <- Z.pow_add_r by lia; f_equal; lia).
  assert (HU : 2 ^ 1074 = 2 * 2 ^ s * w0).
  { unfold w0, e. change 2 with (2 ^ 1) at 2.
    rewrite <- !Z.pow_add_r by lia. f_equal. lia. }
  assert (Htj : 0 < 2 ^ j) by (apply Z.pow_pos_nonneg; lia).
  pose proof (Z.div_mod M (2 ^ j) ltac:(lia)) as HdM.
  pose proof (Z.mod_pos_bound M (2 ^ j) ltac:(lia)) as HmM.
  assert (BQ : 2 ^ 52 <= M / 2 ^ j).
  { apply Z.div_le_lower_bound; [lia|].
    unfold j. destruct (Z.ltb_spec M (2 ^ 67)).
    - change (2 ^ 14 * 2 ^ 52) with (2 ^ 66). lia.
    - change (2 ^ 15 * 2 ^ 52) with (2 ^ 67). lia. }
  assert (Hj14 : 2 ^ 14 <= 2 ^ j) by (apply Z.pow_le_mono_r; lia).
  rewrite HW in Hxv.
  set (Q := M / 2 ^ j) in *. set (tj := 2 ^ j) in *.
  set (W := tj * w0) in *.
  assert (HQW : Q * W <= M * w0 < (Q + 1) * W).
  { unfold W. split.
    - replace (Q * (tj * w0)) with (Q * tj * w0) by ring.
      apply Z.mul_le_mono_nonneg_r; lia.
    - replace ((Q + 1) * (tj * w0)) with ((Q + 1) * tj * w0) by ring.
      apply Z.mul_lt_mono_pos_r; lia. }
  assert (HK : k * 2 ^ 1074 = (200 * q + 2 * r) * w0).
  { rewrite HU. replace (k * (2 * 2 ^ s * w0)) with (2 * (k * 2 ^ s) * w0) by ring.
    rewrite Hdm. ring. }
  assert (HMw : 100 * (M * w0) = (200 * q + 100 * b) * w0) by (unfold M; ring).
  assert (HKM : 100 * (M * w0) - 100 * w0 <= k * 2 ^ 1074
                <= 100 * (M * w0) + 100 * w0).
  { rewrite HK, HMw. split; nia. }
  assert (HW14 : 2 ^ 14 * w0 <= W) by (unfold W; apply Z.mul_le_mono_nonneg_r; lia).
  assert (H52 : 2 ^ 52 * W <= Q * W).
  { apply Z.mul_le_mono_nonneg_r; [unfold W; nia | lia]. }
  assert (HB : 2 ^ 52 * T' <= p * T') by (apply Z.mul_le_mono_nonneg_r; lia).
  assert (HUp : 0 < 2 ^ 1074) by (apply Z.pow_pos_nonneg; lia).
  assert (HKU : k * 2 ^ 1074 + 2 ^ 1074 <= 2 ^ 49 * 2 ^ 1074).
  { replace (k * 2 ^ 1074 + 2 ^ 1074) with ((k + 1) * 2 ^ 1074) by ring.
    apply Z.mul_le_mono_nonneg_r; lia. }
  set (K := k * 2 ^ 1074) in *. set (U := 2 ^ 1074) in *.
  set (X := Zpos mx * 2 ^ (ex + 1074)) in *.
  set (Y := Zpos my * 2 ^ (ey + 1074)) in *.
  set (A := Q * W) in *. set (B := p * T') in *. set (Mw := M * w0) in *.
  replace ((Q + 1) * W) with (A + W) in * by (unfold A; ring).
  replace ((p + 1) * T') with (B + T') in * by (unfold B; ring).
  change (2 ^ 52) with 4503599627370496 in H52, HB.
  change (2 ^ 14) with 16384 in HW14.
  change (2 ^ 49) with 562949953421312 in HKU.
  apply (Math_round_near _ false my ey k Hy Bmy ltac:(lia) ltac:(lia));
    fold U; fold K; fold Y; lia.
Qed.

Lemma is_digit_cases c :
  is_digit c = true ->
  In c [48; 49; 50; 51; 52; 53; 54; 55; 56; 57]%N.
Proof.
  unfold is_digit. intros H. apply andb_true_iff in H. destruct H as [H1 H2].
  apply N.leb_le in H1. apply N.leb_le in H2. cbn [In]. lia.
Qed.

Lemma is_digit_of_Z n : 0 <= n < 10 -> is_digit (48 + Z.to_N n)%N = true.
Proof.
  intros H. unfold is_digit. apply andb_true_iff.
  split; apply N.leb_le; lia.
Qed.

Lemma digits_of_Z_are_digits n :
  0 <= n -> Forall (fun c => is_digit c = true) (digits_of_Z n).
Proof.
  intros Hn. generalize Hn. pattern n. apply Z_lt_induction; [|assumption].
  clear n Hn. intros n IH Hn.
  destruct (Z.lt_ge_cases n 10) as [L | G].
  - rewrite digits_of_Z_small by lia. constructor; [|constructor].
    apply is_digit_of_Z. lia.
  - rewrite digits_of_Z_step by assumption. apply Forall_app. split.
    + apply IH; [|apply Z.div_pos; lia].
      split; [apply Z.div_pos; lia | apply Z.div_lt; lia].
    + constructor; [|constructor]. apply is_digit_of_Z.
      apply Z.mod_pos_bound. lia.
Qed.

Lemma zeros_are_digits j : Forall (fun c => is_digit c = true) (zeros j).
Proof.
  unfold zeros. induction j as [| j IH]; cbn [repeat]; constructor; auto.
Qed.

Lemma Z_of_digits_snoc l c :
  Z_of_digits (l ++ [c]) = 10 * Z_of_digits l + (Z.of_N c - 48).
Proof. unfold Z_of_digits. rewrite fold_left_app. reflexivity. Qed.

Lemma Z_of_digits_of_Z n : 0 <= n -> Z_of_digits (digits_of_Z n) = n.
Proof.
  intros Hn. generalize Hn. pattern n. apply Z_lt_induction; [|assumption].
  clear n Hn. intros n IH Hn.
  destruct (Z.lt_ge_cases n 10) as [L | G].
  - rewrite digits_of_Z_small by lia. unfold Z_of_digits. cbn [fold_left]. lia.
  - rewrite digits_of_Z_step, Z_of_digits_snoc by assumption.
    rewrite IH.
    + pose proof (Z.div_mod n 10 ltac:(lia)).
      pose proof (Z.mod_pos_bound n 10 ltac:(lia)). lia.
    + split; [apply Z.div_pos; lia | apply Z.div_lt; lia].
    + apply Z.div_pos; lia.
Qed.

Lemma Z_of_digits_zeros j l : Z_of_digits (zeros j ++ l) = Z_of_digits l.
Proof.
  unfold zeros. induction j as [| j IH]; [reflexivity|].
  cbn [repeat app]. unfold Z_of_digits in *. cbn [fold_left]. exact IH.
Qed.

Lemma span_digits_all d :
  Forall (fun c => is_digit c = true) d -> span_digits d = (d, []).
Proof.
  induction 1 as [| c d Hc _ IH]; [reflexivity|].
  cbn [span_digits]. rewrite Hc, IH. reflexivity.
Qed.

Lemma span_digits_stop d c r :
  Forall (fun c => is_digit c = true) d -> is_digit c = false ->
  span_digits (d ++ c :: r) = (d, c :: r).
Proof.
  intros Hd Hc. induction Hd as [| a d Ha _ IH].
  - cbn [app span_digits]. rewrite Hc. reflexivity.
  - cbn [app span_digits]. rewrite Ha, IH. reflexivity.
Qed.

Lemma parse_decimal_literal_digit c r :
  is_digit c = true ->
  parse_decimal_literal (c :: r) = parse_unsigned (c :: r).
Proof.
  intros H. apply is_digit_cases in H. cbn [In] in H.
  repeat (destruct H as [<- | H]; [reflexivity|]). contradiction.
Qed.

Lemma not_Infinity_digit c r :
  is_digit c = true ->
  jsstring_eqb (firstn 8 (c :: r)) (str "Infinity") = false.
Proof.
  intros H. unfold jsstring_eqb.
  destruct (list_eq_dec N.eq_dec _ _) as [E | _]; [|reflexivity].
  exfalso. cbn [firstn] in E. injection E as E _. subst c. discriminate.
Qed.

(** A text made of digits, a point, and digits again is read by
    [parseFloat] as the integer of all its digits, scaled by the number of
    digits after the point. *)
Lemma parseFloat_digits_point_digits ip fp :
  ip <> [] ->
  Forall (fun c => is_digit c = true) ip ->
  Forall (fun c => is_digit c = true) fp ->
  parseFloat (ip ++ str "." ++ fp)
  = number_of_decimal (Z_of_digits (ip ++ fp)) (- Z.of_nat (List.length fp)).
Proof.
  intros Hne Hip Hfp. destruct ip as [| c ip']; [contradiction|].
  assert (Hc : is_digit c = true) by (inversion Hip; assumption).
  unfold parseFloat.
  assert (Hw : skip_whitespace ((c :: ip') ++ str "." ++ fp)
               = (c :: ip') ++ str "." ++ fp).
  { cbn [app skip_whitespace].
    apply is_digit_cases in Hc. cbn [In] in Hc.
    repeat (destruct Hc as [<- | Hc]; [reflexivity|]). contradiction. }
  rewrite Hw. change ((c :: ip') ++ str "." ++ fp)
    with (c :: (ip' ++ str "." ++ fp)) at 1.
  rewrite parse_decimal_literal_digit by assumption.
  unfold parse_unsigned. rewrite not_Infinity_digit by assumption.
  change (c :: ip' ++ str "." ++ fp) with ((c :: ip') ++ 46%N :: fp).
  rewrite span_digits_stop by (auto; reflexivity).
  rewrite span_digits_all by assumption.
  cbn [parse_exponent]. reflexivity.
Qed.

(** The two parts of an amount written with two decimals. *)
Lemma fixed_digits_2_parts k :
  0 <= k ->
  exists ip fp,
    fixed_digits 2 k = ip ++ str "." ++ fp
    /\ ip <> [] /\ List.length fp = 2%nat
    /\ Forall (fun c => is_digit c = true) ip
    /\ Forall (fun c => is_digit c = true) fp
    /\ Z_of_digits (ip ++ fp) = k.
Proof.
  intros Hk. unfold fixed_digits.
  set (d := zeros (3 - List.length (digits_of_Z k)) ++ digits_of_Z k).
  assert (Hlen : (3 <= List.length d)%nat).
  { unfold d, zeros. rewrite length_app, repeat_length. lia. }
  assert (Hd : Forall (fun c => is_digit c = true) d).
  { unfold d. apply Forall_app. split;
      [apply zeros_are_digits | apply digits_of_Z_are_digits; assumption]. }
  exists (firstn (List.length d - 2) d), (skipn (List.length d - 2) d).
  pose proof (firstn_skipn (List.length d - 2) d) as Hsplit.
  split; [reflexivity|]. split.
  { intros E. apply (f_equal (@List.length _)) in E.
    rewrite length_firstn in E. cbn [List.length] in E. lia. }
  split; [rewrite length_skipn; lia|].
  rewrite <- Hsplit in Hd. apply Forall_app in Hd. destruct Hd as [H1 H2].
  split; [assumption|]. split; [assumption|].
  rewrite Hsplit. unfold d. rewrite Z_of_digits_zeros.
  apply Z_of_digits_of_Z. assumption.
Qed.

(** X25.  Reading an amount written with two decimals gives its count of
    centavos: when the text, once peso signs, commas and white space are
    removed, is the count [k] written with two digits after the point,
    [parseMoneyString] returns [k], for every [k] from 0 up to [2^49]. *)
Theorem parseMoneyString_two_decimal_text :
  forall (moneyString : jsstring) (k : Z),
    0 <= k < 2 ^ 49 ->
    strip_money_chars moneyString = fixed_digits 2 k ->
    parseMoneyString moneyString = Return (number_of_Z k).
Proof.
  intros s k Hk Hs. unfold parseMoneyString. rewrite Hs.
  destruct (fixed_digits_2_parts k ltac:(lia))
    as (ip & fp & -> & Hne & Hlen & Hip & Hfp & Hv).
  rewrite parseFloat_digits_point_digits by assumption.
  rewrite Hv, Hlen. change (- Z.of_nat 2) with (-2).
  rewrite number_of_decimal_not_nan.
  destruct (Z.eq_dec k 0) as [-> | k0]; [reflexivity|].
  rewrite pesosTocentavos_number_of_decimal by lia. reflexivity.
Qed.

Lemma parseMoneyString_two_decimal_text_witness :
  parseMoneyString (peso_sign :: str "1,234.56") = Return (number_of_Z 123456).
Proof.
  apply (parseMoneyString_two_decimal_text _ 123456); [lia | reflexivity].
Defined.

Local Open Scope float_scope.

(* ===================================================================== *)
(** * Part XI.  The repository's tests, replayed on the model           *)
(* ===================================================================== *)

(** The expectations of [money-utils.test.ts] and [auction-utils.test.ts]
    hold of the definitions above by computation. *)

Example test_pesosTocentavos :
  pesosTocentavos 1 = 100 /\ pesosTocentavos 10.50 = 1050
  /\ pesosTocentavos 0 = 0 /\ pesosTocentavos 123.45 = 12345
  /\ pesosTocentavos 1.005 = 100 /\ pesosTocentavos 1.004 = 100
  /\ pesosTocentavos 1.006 = 101.
Proof. repeat split; vm_compute; reflexivity. Qed.

Example test_centavosToPesos :
  centavosToPesos 100 = 1 /\ centavosToPesos 1050 = 10.5
  /\ centavosToPesos 0 = 0 /\ centavosToPesos 12345 = 123.45.
Proof. repeat split; vm_compute; reflexivity. Qed.

Example test_calculateCommission :
  calculateCommission 10000 = 600 /\ calculateCommission 50000 = 3000
  /\ calculateCommission 0 = 0 /\ calculateCommission 1000 = 60
  /\ calculateCommission 1001 = 60.
Proof. repeat split; vm_compute; reflexivity. Qed.

Example test_calculateNetAmount :
  calculateNetAmount 10000 (Some (calculateCommission 10000))
    (Some calculateLaborFee) = 6900
  /\ calculateNetAmount 0 (Some 0) (Some 0) = 0.
Proof. repeat split; vm_compute; reflexivity. Qed.

Example test_calculateLotValue :
  calculateLotValue 10 500 = 5000 /\ calculateLotValue 2.5 1200 = 3000
  /\ calculateLotValue 3.333 300 = 1000.
Proof. repeat split; vm_compute; reflexivity. Qed.

Example test_parseMoneyString :
  parseMoneyString (peso_sign :: str "100.00") = Return 10000
  /\ parseMoneyString (str "10.50") = Return 1050
  /\ parseMoneyString (peso_sign :: str "1,234.56") = Return 123456
  /\ parseMoneyString (str " " ++ peso_sign :: str "100.00 ") = Return 10000
  /\ parseMoneyString (str "invalid") = Throw (str "Invalid money format")
  /\ parseMoneyString (str "$abc.def") = Throw (str "Invalid money format").
Proof. repeat split; vm_compute; reflexivity. Qed.

Example test_isValidMoneyAmount :
  isValidMoneyAmount 10000 = true /\ isValidMoneyAmount 0 = true
  /\ isValidMoneyAmount (-100) = false /\ isValidMoneyAmount 10.5 = false.
Proof. repeat split; vm_compute; reflexivity. Qed.

Example test_validateBid :
  validateBid mockNow mockAuction 13000 = accept
  /\ validateBid mockNow mockAuction 5000
     = reject (str "Bid must be at least $100.00")
  /\ validateBid mockNow mockAuction 12200
     = reject (str "Bid must be at least $125.00 (current high + increment)")
  /\ success (validateBid mockNow mockAuction (-1000)) = false
  /\ success (validateBid mockNow mockAuction 0) = false.
Proof. repeat split; vm_compute; reflexivity. Qed.

Example test_getNextMinimumBid :
  getNextMinimumBid freshAuction = 10000
  /\ getNextMinimumBid mockAuction = 12500.
Proof. repeat split; vm_compute; reflexivity. Qed.

Example test_getWinningBid :
  getWinningBid mockAuction = None
  /\ getWinningBid (with_bids mockAuction [mockBid; tieLate]) = Some tieLate
  /\ getWinningBid (with_bids mockAuction [tieEarly; tieLate]) = Some tieEarly.
Proof. repeat split; vm_compute; reflexivity. Qed.

Example test_closeAuction :
  closure_success (closeAuction (with_bids mockAuction [mockBid])) = true
  /\ winningBid (closeAuction (with_bids mockAuction [mockBid])) = Some mockBid
  /\ closure_totalBids (closeAuction (with_bids mockAuction [mockBid])) = 1
  /\ winningBid (closeAuction mockAuction) = None
  /\ closure_totalBids (closeAuction mockAuction) = 0.
Proof. repeat split; vm_compute; reflexivity. Qed.

Example test_addBidToAuction :
  match addBidToAuction mockNow mockAuction mockBid with
  | Return updatedAuction =>
      bids updatedAuction = [mockBid]
      /\ currentHighestBidCents updatedAuction = 13000
      /\ totalBids updatedAuction = 1
  | Throw _ => False
  end.
Proof. vm_compute. repeat split; reflexivity. Qed.

Example test_addMoney :
  addMoney [1000; 2000; 3000] = 6000 /\ addMoney [500] = 500
  /\ addMoney [] = 0.
Proof. repeat split; vm_compute; reflexivity. Qed.

Example test_subtractMoney :
  subtractMoney 10000 [1000; 2000] = 7000
  /\ subtractMoney 5000 [1000] = 4000 /\ subtractMoney 10000 [1000] = 9000.
Proof. repeat split; vm_compute; reflexivity. Qed.

Example test_getAuctionDuration :
  getAuctionDuration (mkDate 1700000000000) (mkDate 1700007200000) = 120.
Proof. vm_compute. reflexivity. Qed.

Example test_formatTimeRemaining :
  formatTimeRemaining 0 = str "ENDED"
  /\ formatTimeRemaining (-1000) = str "ENDED"
  /\ formatTimeRemaining 30000 = str "30s"
  /\ formatTimeRemaining 300000 = str "5m 0s"
  /\ formatTimeRemaining 7200000 = str "2h 0m 0s"
  /\ formatTimeRemaining 3665000 = str "1h 1m 5s".
Proof. repeat split; vm_compute; reflexivity. Qed.

Example test_Number_toString :
  Number_toString 0.1 = str "0.1"
  /\ Number_toString 1e21 = str "1e+21"
  /\ Number_toString 123456789012345680000 = str "123456789012345680000"
  /\ Number_toString 1e-7 = str "1e-7"
  /\ Number_toString 0.000001 = str "0.000001"
  /\ Number_toString (0.1 + 0.2) = str "0.30000000000000004"
  /\ Number_toString 618970019642690137449562112 = str "6.189700196426902e+26"
  /\ Number_toString (-25) = str "-25"
  /\ Number_toString nan = str "NaN"
  /\ Number_toString neg_infinity = str "-Infinity".
Proof. repeat split; vm_compute; reflexivity. Qed.

Example test_Number_remainder :
  Number_remainder 5 3 = 2 /\ Number_remainder (-5) 3 = -2
  /\ Number_remainder 5.5 2 = 1.5 /\ Number_remainder 5 infinity = 5
  /\ isNaN (Number_remainder 5 0) = true
  /\ Number_remainder 0.3 0.1 = 0.09999999999999998.
Proof. repeat split; vm_compute; reflexivity. Qed.

Example test_Math_floor :
  Math_floor 0.5 = 0 /\ Math_floor (-0.5) = -1 /\ Math_floor 1.5 = 1
  /\ Math_floor (-1.5) = -2 /\ Math_floor 1e300 = 1e300.
Proof. repeat split; vm_compute; reflexivity. Qed.
